(** * LaneList: the search-and-fallback pipeline and the contact relay

    A shallow embedding of [app/api/search/route.ts] (rate limiter, output
    validator, stub generator, AI suggestion engine, search handler) and of
    [app/api/contact/route.ts] (per-IP limiter, honeypot, mail relay),
    followed by the properties the specification states about them; then
    the code around the two routes ([src/lib/db.ts], the search page and
    the contact form that call them) and further properties of the whole.

    Conventions of the embedding.
    - A JavaScript string is a Rocq [string], one [ascii] per code unit; the
      character classes of the regular expressions ([\s], control
      characters, line terminators) are the ones of the code units below 256.
    - A JSON value is a [jsval]; an object is an association list in
      insertion order.
    - Numbers that the code only stores and compares (timestamps, counters)
      are [Z]; JSON numbers are [Q], so the literal [0.55] is [55 # 100].
    - A request body is whatever [req.json()] yields, any [jsval]: the
      routes do not validate it, so truthiness, [x || d], destructuring
      defaults, [String(x)] and template literals are modelled on every
      kind of value, and a conversion to string can throw.
    - [Date.now()], the model provider and the constructor of its client,
      the database, the mail transport, [JSON.parse] and the decimal form
      of a number are collaborators of the program: they are fields of an
      environment record, and every theorem quantifies over them.
    - Code that can throw runs in a state-and-exception monad [M]. *)

From Stdlib Require Import ZArith QArith String Ascii List Bool Lia DecimalString.
From stdpp Require Import base gmap strings list.
Import ListNotations.
Open Scope string_scope.
Open Scope Z_scope.

(** ** JavaScript values *)

Set Warnings "-register-all".

Inductive jsval : Type :=
| VUndef
| VNull
| VBool (b : bool)
| VNum (q : Q)
| VStr (s : string)
| VArr (l : list jsval)
| VObj (ps : list (string * jsval)).

(** [o[k]]: the first binding of [k]; a property holding [undefined] reads
    like a missing one. *)
Fixpoint lookup_prop (k : string) (ps : list (string * jsval)) : option jsval :=
  match ps with
  | [] => None
  | (k', v) :: rest => if String.eqb k k' then Some v else lookup_prop k rest
  end.

Definition get (k : string) (v : jsval) : option jsval :=
  match v with
  | VObj ps =>
      match lookup_prop k ps with
      | Some VUndef => None
      | r => r
      end
  | _ => None
  end.

(** [o[k] = v]: overwrite in place, or append as the newest property. *)
Fixpoint set_prop (k : string) (v : jsval) (ps : list (string * jsval))
  : list (string * jsval) :=
  match ps with
  | [] => [(k, v)]
  | (k', v') :: rest =>
      if String.eqb k k' then (k', v) :: rest else (k', v') :: set_prop k v rest
  end.

(** The own enumerable properties a spread [{...x}] copies.  Only objects
    reach a spread in the program (the validator has accepted them). *)
Definition own_props (x : jsval) : list (string * jsval) :=
  match x with
  | VObj ps => ps
  | _ => []
  end.

Definition opt_str (o : option string) : jsval :=
  match o with Some s => VStr s | None => VUndef end.

(** Truthiness of an optional string ([undefined] and [""] are falsy) and
    of an optional boolean. *)
Definition truthy (o : option string) : bool :=
  match o with
  | Some s => negb (String.eqb s "")
  | None => false
  end.

(** [a || d] on strings. *)
Definition or_default (o : option string) (d : string) : string :=
  match o with
  | Some s => if String.eqb s "" then d else s
  | None => d
  end.

(** [String(n)] and [`${n}`] for an integer. *)
Definition string_of_Z (n : Z) : string := NilZero.string_of_int (Z.to_int n).

(** The one-character string holding a double quote. *)
Definition dquote : string := String (ascii_of_nat 34) EmptyString.

(** ** String primitives *)

Module Str.

(** [\s] and [trim()] on code units below 256: TAB, LF, VT, FF, CR, SP
    and NBSP. *)
Definition is_space (c : ascii) : bool :=
  let n := nat_of_ascii c in
  ((9 <=? n)%nat && (n <=? 13)%nat) || (n =? 32)%nat || (n =? 160)%nat.

Fixpoint trimStart (s : string) : string :=
  match s with
  | String c rest => if is_space c then trimStart rest else s
  | EmptyString => EmptyString
  end.

Definition trimEnd (s : string) : string :=
  String.rev (trimStart (String.rev s)).

Definition trim (s : string) : string := trimEnd (trimStart s).

Definition lower (c : ascii) : ascii :=
  let n := nat_of_ascii c in
  if ((65 <=? n)%nat && (n <=? 90)%nat)%bool then ascii_of_nat (n + 32) else c.

(** [p] is a prefix of [s], ignoring the case of ASCII letters; the rest
    of [s] when it is. *)
Fixpoint strip_prefix_ci (p s : string) : option string :=
  match p, s with
  | EmptyString, _ => Some s
  | String a p', String b s' =>
      if Ascii.eqb (lower a) (lower b) then strip_prefix_ci p' s' else None
  | String _ _, EmptyString => None
  end.

Definition strip_suffix (p s : string) : option string :=
  match strip_prefix_ci (String.rev p) (String.rev s) with
  | Some r => Some (String.rev r)
  | None => None
  end.

(** [s.lastIndexOf(c)], [-1] when [c] does not occur. *)
Fixpoint lastIndexOf_from (c : ascii) (s : string) (i : Z) (found : Z) : Z :=
  match s with
  | EmptyString => found
  | String a rest =>
      lastIndexOf_from c rest (i + 1) (if Ascii.eqb a c then i else found)
  end.

Definition lastIndexOf (c : ascii) (s : string) : Z :=
  lastIndexOf_from c s 0 (-1).

(** [s.slice(0, n)] for [n >= 0]. *)
Definition slice0 (n : Z) (s : string) : string :=
  String.substring 0 (Z.to_nat n) s.

(** [s.split(",")[0]]: everything before the first comma. *)
Fixpoint first_segment (s : string) : string :=
  match s with
  | EmptyString => EmptyString
  | String c rest =>
      if Ascii.eqb c "," then EmptyString else String c (first_segment rest)
  end.

End Str.

(** ** Effects: state, exceptions, and the collaborators as an environment *)

Inductive result (A : Type) : Type :=
| Ok (a : A)
| Throw (e : string).
Arguments Ok {A} a.
Arguments Throw {A} e.

(** A computation reads the environment [E], threads the state [S] and
    either returns or throws.  The state survives a throw, as the effects
    of a JavaScript [try] block survive into its [catch]. *)
Definition M (E S A : Type) : Type := E -> S -> result A * S.

Definition ret {E S A} (a : A) : M E S A := fun _ s => (Ok a, s).

Definition bind {E S A B} (m : M E S A) (f : A -> M E S B) : M E S B :=
  fun e s =>
    match m e s with
    | (Ok a, s') => f a e s'
    | (Throw err, s') => (Throw err, s')
    end.

Definition throw {E S A} (err : string) : M E S A := fun _ s => (Throw err, s).

(** [try { body } catch (err) { handler err }] *)
Definition try_catch {E S A} (body : M E S A) (handler : string -> M E S A)
  : M E S A :=
  fun e s =>
    match body e s with
    | (Ok a, s') => (Ok a, s')
    | (Throw err, s') => handler err e s'
    end.

Definition ask {E S} : M E S E := fun e s => (Ok e, s).

(** An awaited collaborator call whose outcome the environment decides. *)
Definition await {E S A} (r : result A) : M E S A := fun _ s => (r, s).

(** ** Values the program does not validate

    A request body is whatever JSON the caller sent: a property the code
    reads may hold any value, or be missing ([None]). *)

(** Truthiness of a value ([!!v], [if (v)], [Boolean(v)]). *)
Definition truthy_val (v : jsval) : bool :=
  match v with
  | VUndef | VNull => false
  | VBool b => b
  | VNum q => negb (Qeq_bool q 0)
  | VStr s => negb (String.eqb s "")
  | VArr _ | VObj _ => true
  end.

Definition truthy_js (o : option jsval) : bool :=
  match o with
  | Some v => truthy_val v
  | None => false
  end.

(** [v || d] *)
Definition or_else (o : option jsval) (d : jsval) : jsval :=
  match o with
  | Some v => if truthy_val v then v else d
  | None => d
  end.

(** [{ v = d } = ...]: the default of a destructuring applies to a
    property that is missing or [undefined] only. *)
Definition or_default_of (o : option jsval) (d : jsval) : jsval :=
  match o with
  | None | Some VUndef => d
  | Some v => v
  end.

(** Reading a property of [null] or [undefined] throws. *)
Definition nullish (v : jsval) : bool :=
  match v with
  | VUndef | VNull => true
  | _ => false
  end.

(** An object of a JSON text has the own property [k]. *)
Definition has_own (k : string) (ps : list (string * jsval)) : bool :=
  match lookup_prop k ps with
  | Some _ => true
  | None => false
  end.

(** [String(v)] and the conversion of a template literal [`${v}`], for a
    value that came out of [JSON.parse]; [num] writes a number.  An array
    is joined with commas ([null] and [undefined] elements as empty
    strings).  An object is ["[object Object]"] by the inherited
    [toString], unless it has an own property [toString]: a JSON value is
    not callable, [valueOf] does not return a primitive, and the
    conversion throws a [TypeError]. *)
Fixpoint ToString (num : Q -> string) (v : jsval) : result string :=
  match v with
  | VUndef => Ok "undefined"
  | VNull => Ok "null"
  | VBool b => Ok (if b then "true" else "false")
  | VNum q => Ok (num q)
  | VStr s => Ok s
  | VArr l =>
      (fix join (l : list jsval) : result string :=
         match l with
         | [] => Ok ""
         | x :: rest =>
             match (match x with
                    | VUndef | VNull => Ok ""
                    | _ => ToString num x
                    end) with
             | Throw e => Throw e
             | Ok a =>
                 match rest with
                 | [] => Ok a
                 | _ :: _ =>
                     match join rest with
                     | Throw e => Throw e
                     | Ok b => Ok (a ++ "," ++ b)
                     end
                 end
             end
         end) l
  | VObj ps =>
      if has_own "toString" ps then Throw "TypeError"
      else Ok "[object Object]"
  end.

(** A response of a route handler: [NextResponse.json(body, init)]; the
    status is 200 unless [init] names another. *)
Record Response := {
  status : Z;
  headers : list (string * string);
  body : jsval
}.

Definition NextResponse_json (body : jsval) (status : Z)
    (headers : list (string * string)) : Response :=
  {| status := status; headers := headers; body := body |}.

Declare Scope js_scope.
Delimit Scope js_scope with js.
Notation "'let!' x ':=' c 'in' k" := (bind c (fun x => k))
  (at level 10, x name, c at level 100, k at level 200) : js_scope.
Notation "'do!' c 'in' k" := (bind c (fun _ => k))
  (at level 10, c at level 100, k at level 200) : js_scope.
Open Scope js_scope.

(** ** Schema validation: Ajv with [removeAdditional: "all", allErrors: true]

    The keywords the program's schema uses: [type] ("string", "array",
    "object"), [nullable], [enum], [items], [required], [properties],
    [additionalProperties]. *)

Module Ajv.

Inductive schema : Type :=
| SString (nullable : bool) (enum : option (list string))
| SArray (items : schema)
| SObject (additionalProperties : bool) (required : list string)
          (properties : props)
with props : Type :=
| PNil
| PCons (k : string) (s : schema) (rest : props).

Fixpoint has_prop (k : string) (ps : props) : bool :=
  match ps with
  | PNil => false
  | PCons k' _ rest => String.eqb k k' || has_prop k rest
  end.

Record error := { instancePath : string; message : string }.

Definition is_some {A} (o : option A) : bool :=
  match o with Some _ => true | None => false end.

Definition string_type_ok (nullable : bool) (d : jsval) : bool :=
  match d with
  | VStr _ => true
  | VNull => nullable
  | _ => false
  end.

Definition enum_ok (enum : option (list string)) (d : jsval) : bool :=
  match enum with
  | None => true
  | Some allowed =>
      match d with
      | VStr x => existsb (String.eqb x) allowed
      | _ => false
      end
  end.

(** [validate s path d]: the errors, and [d] after the validator has
    deleted, in place, every property that [properties] does not name.
    With [removeAdditional: "all"] the deletion happens whatever
    [additionalProperties] says and is never an error. *)
Fixpoint validate (s : schema) (path : string) (d : jsval)
  : list error * jsval :=
  match s with
  | SString nullable enum =>
      (app
         (if string_type_ok nullable d then []
          else [{| instancePath := path; message := "must be string" |}])
         (if enum_ok enum d then []
          else [{| instancePath := path;
                   message := "must be equal to one of the allowed values" |}]),
       d)
  | SArray items =>
      match d with
      | VArr l =>
          let r :=
            (fix each (l : list jsval) (i : nat) : list error * list jsval :=
               match l with
               | [] => ([], [])
               | x :: xs =>
                   let (e, x') :=
                     validate items
                       (path ++ "/" ++ string_of_Z (Z.of_nat i)) x in
                   let (es, xs') := each xs (S i) in
                   (app e es, x' :: xs')
               end) l 0%nat in
          (fst r, VArr (snd r))
      | _ => ([{| instancePath := path; message := "must be array" |}], d)
      end
  | SObject _ required properties =>
      match d with
      | VObj ps =>
          let kept := List.filter (fun kv => has_prop (fst kv) properties) ps in
          let missing :=
            flat_map
              (fun r =>
                 if is_some (get r d) then []
                 else [{| instancePath := path;
                          message := "must have required property '"
                                       ++ r ++ "'" |}])
              required in
          let (es, ps') := validate_props properties path kept in
          (app missing es, VObj ps')
      | _ => ([{| instancePath := path; message := "must be object" |}], d)
      end
  end
with validate_props (ps : props) (path : string) (fs : list (string * jsval))
  : list error * list (string * jsval) :=
  match ps with
  | PNil => ([], fs)
  | PCons k s rest =>
      match get k (VObj fs) with
      | Some v =>
          let (e, v') := validate s (path ++ "/" ++ k) v in
          let (es, fs') := validate_props rest path (set_prop k v' fs) in
          (app e es, fs')
      | None => validate_props rest path fs
      end
  end.

(** What the schema demands of a value, read off the keywords: the
    declarative counterpart of [validate].  Properties the schema does not
    name are not looked at. *)
Fixpoint conforms (s : schema) (d : jsval) : bool :=
  match s with
  | SString nullable enum => string_type_ok nullable d && enum_ok enum d
  | SArray items =>
      match d with
      | VArr l => forallb (conforms items) l
      | _ => false
      end
  | SObject _ required properties =>
      match d with
      | VObj _ =>
          forallb (fun r => is_some (get r d)) required
          && conforms_props properties d
      | _ => false
      end
  end
with conforms_props (ps : props) (d : jsval) : bool :=
  match ps with
  | PNil => true
  | PCons k s rest =>
      match get k d with
      | Some v => conforms s v
      | None => true
      end && conforms_props rest d
  end.

(** No object the schema reaches holds a property the schema does not
    name: nothing is left for the validator to delete. *)
Fixpoint pruned (s : schema) (d : jsval) : bool :=
  match s with
  | SString _ _ => true
  | SArray items =>
      match d with
      | VArr l => forallb (pruned items) l
      | _ => true
      end
  | SObject _ _ properties =>
      match d with
      | VObj fs =>
          forallb (fun kv => has_prop (fst kv) properties) fs
          && pruned_props properties d
      | _ => true
      end
  end
with pruned_props (ps : props) (d : jsval) : bool :=
  match ps with
  | PNil => true
  | PCons k s rest =>
      match get k d with
      | Some v => pruned s v
      | None => true
      end && pruned_props rest d
  end.

Fixpoint find_prop (k : string) (ps : props) : option schema :=
  match ps with
  | PNil => None
  | PCons k' s rest => if String.eqb k k' then Some s else find_prop k rest
  end.

(** [inject s d d']: [d'] is [d] with one more property, under a name the
    schema does not know, in one of the objects the schema reaches: the
    object itself, the value of one of its known properties, or an element
    of an array. *)
Inductive inject : schema -> jsval -> jsval -> Prop :=
| inject_here a req ps f1 f2 k v :
    has_prop k ps = false ->
    inject (SObject a req ps) (VObj (f1 ++ f2)) (VObj (f1 ++ (k, v) :: f2))
| inject_prop a req ps f1 f2 k sub v v' :
    find_prop k ps = Some sub ->
    lookup_prop k f1 = None ->
    inject sub v v' ->
    inject (SObject a req ps)
      (VObj (f1 ++ (k, v) :: f2)) (VObj (f1 ++ (k, v') :: f2))
| inject_elem items l1 l2 v v' :
    inject items v v' ->
    inject (SArray items) (VArr (l1 ++ v :: l2)) (VArr (l1 ++ v' :: l2)).

(** Every required name is a declared property, and no property name
    occurs twice in a [properties] object. *)
Fixpoint wf (s : schema) : bool :=
  match s with
  | SString _ _ => true
  | SArray items => wf items
  | SObject _ required properties =>
      forallb (fun r => has_prop r properties) required && wf_props properties
  end
with wf_props (ps : props) : bool :=
  match ps with
  | PNil => true
  | PCons k s rest => negb (has_prop k rest) && wf s && wf_props rest
  end.

End Ajv.

(** ** The search route: [app/api/search/route.ts] *)

Module Search.

(** *** Sanitising provider text *)

Definition strip_if (p s : string) : string :=
  match Str.strip_prefix_ci p s with
  | Some rest => Str.trimStart rest
  | None => s
  end.

Definition sanitizeJsonString (s : string) : string :=
  if String.eqb s "" then s
  else
    let s1 := Str.trim s in
    (* .replace(/^```json\s*/i, "") *)
    let s2 := strip_if "```json" s1 in
    (* .replace(/^```\s*/i, "") *)
    let s3 := strip_if "```" s2 in
    (* .replace(/```$/i, "") *)
    let s4 := match Str.strip_suffix "```" s3 with
              | Some r => r
              | None => s3
              end in
    let s5 := Str.trim s4 in
    let lastBrace := Str.lastIndexOf "}" s5 in
    let lastBracket := Str.lastIndexOf "]" s5 in
    let cut := Z.max lastBrace lastBracket in
    if 0 <? cut then Str.slice0 (cut + 1) s5 else s5.

(** *** Rate limiter *)

Definition aiWindowMs : Z := 60000.
Definition aiMaxCalls : Z := 20.

Record Bucket := { count : Z; since : Z }.

(** [allowAiCall(key)], with the reading of [Date.now()] and the map
    [aiBucket] made explicit: the answer and the map after the call. *)
Definition allowAiCall (key : string) (now : Z) (aiBucket : gmap string Bucket)
  : bool * gmap string Bucket :=
  let b := default {| count := 0; since := now |} (aiBucket !! key) in
  let b := if aiWindowMs <? now - since b
           then {| count := 0; since := now |}
           else b in
  let b := {| count := count b + 1; since := since b |} in
  (count b <=? aiMaxCalls, <[key := b]> aiBucket).

(** *** The carrier schema and its validator *)

Import Ajv.

Definition transportTypes : list string :=
  ["truck"; "reefer"; "container"; "flatbed"; "tanker"].

Definition laneSchema : schema :=
  SObject false ["origin"; "destination"]
    (PCons "origin" (SString false None)
    (PCons "destination" (SString false None)
     PNil)).

Definition itemSchema : schema :=
  SObject false ["id"; "name"; "types"; "lanes"]
    (PCons "id" (SString false None)
    (PCons "name" (SString false None)
    (PCons "types" (SArray (SString false (Some transportTypes)))
    (PCons "lanes" (SArray laneSchema)
    (PCons "description" (SString true None)
    (PCons "logoEmoji" (SString true None)
     PNil)))))).

Definition carriersJsonSchema : schema :=
  SObject false ["items"] (PCons "items" (SArray itemSchema) PNil).

(** [validateCarriers(parsed)]: the error list ([validateCarriers.errors])
    and [parsed] as the call leaves it; the call answers [true] exactly
    when the list is empty. *)
Definition validateCarriers (parsed : jsval) : list error * jsval :=
  validate carriersJsonSchema "" parsed.

(** *** Collaborators and state *)

Inductive Strategy := Tools | JsonSchema | JsonObject.

(** The part of a chat completion the program reads. *)
Record FunctionCall := { fn_name : string; fn_arguments : option string }.
Record ToolCall := { tc_type : string; tc_function : option FunctionCall }.
Record Message :=
  { content : option string; tool_calls : option (list ToolCall) }.
Record Choice := { message : option Message }.
Record Completion := { choices : option (list Choice) }.

Record Lane := { lane_origin : string; lane_destination : string }.
Record Contact :=
  { email : option string; phone : option string; website : option string }.

Record CarrierDoc := {
  _id : string;
  name : string;
  verified : bool;
  rating : option Q;
  types : list string;
  lanes : list Lane;
  description : option string;
  contact : option Contact;
  logoEmoji : option string
}.

(** [Partial<{types; "lanes.origin"; "lanes.destination"; verified: true}>] *)
Record CarrierQuery := {
  q_types : option jsval;
  q_lanes_origin : option jsval;
  q_lanes_destination : option jsval;
  q_verified : option bool
}.

Record Env := {
  AI_FALLBACK_ENABLED : option string;
  OPENAI_API_KEY : option string;
  (** the n-th reading of [Date.now()] *)
  clock : nat -> Z;
  (** [new OpenAI({ apiKey })]: whether the SDK's constructor accepts the
      runtime it finds itself in *)
  OpenAI_new : result unit;
  (** the outcome of the n-th [openai.chat.completions.create] *)
  openai_create : nat -> Strategy -> result Completion;
  JSON_parse : string -> result jsval;
  (** how a number is written in a template literal *)
  Number_toString : Q -> string;
  dbConnect : result unit;
  (** [Carrier.find(q).limit(n).lean()] *)
  Carrier_find : CarrierQuery -> nat -> result (list CarrierDoc)
}.

Record State := {
  aiBucket : gmap string Bucket;
  clock_reads : nat;
  provider_calls : list Strategy;
  console : list (string * string)
}.

(** State updates, one per effect. *)
Definition tick (s : State) : State :=
  {| aiBucket := aiBucket s; clock_reads := S (clock_reads s);
     provider_calls := provider_calls s; console := console s |}.

Definition logged (msg detail : string) (s : State) : State :=
  {| aiBucket := aiBucket s; clock_reads := clock_reads s;
     provider_calls := provider_calls s;
     console := (console s ++ [(msg, detail)])%list |}.

Definition called (strategy : Strategy) (s : State) : State :=
  {| aiBucket := aiBucket s; clock_reads := clock_reads s;
     provider_calls := (provider_calls s ++ [strategy])%list;
     console := console s |}.

Definition with_aiBucket (m : gmap string Bucket) (s : State) : State :=
  {| aiBucket := m; clock_reads := clock_reads s;
     provider_calls := provider_calls s; console := console s |}.

Definition Date_now : M Env State Z :=
  fun e s => (Ok (clock e (clock_reads s)), tick s).

(** [console.log], [console.warn], [console.error] *)
Definition console_log (msg detail : string) : M Env State unit :=
  fun _ s => (Ok tt, logged msg detail s).

Definition create (strategy : Strategy) : M Env State Completion :=
  fun e s =>
    (openai_create e (List.length (provider_calls s)) strategy,
     called strategy s).

Definition allowAiCallM (key : string) : M Env State bool :=
  let! now := Date_now in
  fun _ s =>
    let r := allowAiCall key now (aiBucket s) in
    (Ok (fst r), with_aiBucket (snd r) s).

Definition parse (text : string) : M Env State jsval :=
  fun e s => (JSON_parse e text, s).

(** *** Stub suggestion *)

(** [{ type, origin, destination }], as destructured from the request
    body: each of them any JSON value, or [undefined]. *)
Record Params := {
  type : option jsval;
  origin : option jsval;
  destination : option jsval
}.

Definition stubSuggestion (params : Params) : M Env State (list jsval) :=
  let! now := Date_now in
  ret
    [VObj
       [("id", VStr ("ai-stub-" ++ string_of_Z now));
        ("name", VStr "Regional Carrier Suggestion");
        ("verified", VBool false);
        ("types", VArr [or_else (type params) (VStr "truck")]);
        ("lanes",
          VArr [VObj
                  [("origin", or_else (origin params) (VStr "FR"));
                   ("destination",
                     or_else (destination params) (VStr "ES"))]]);
        ("description",
          VStr "Unverified suggestion based on similar lanes in the region.");
        ("logoEmoji", VStr "🧭");
        ("source", VStr "ai");
        ("confidence", VNum (55 # 100))]].

(** *** AI fallback with guardrails *)

Definition MIN_FILTERS_FOR_AI : nat := 2.

Definition stub (params : Params) (reason : string)
  : M Env State (list jsval) :=
  do! console_log "AI: returning stub —" reason in
  stubSuggestion params.

(** [{ ...x, verified: false, source: "ai", confidence: 0.55 }] *)
Definition suggestion_of (x : jsval) : jsval :=
  VObj (set_prop "confidence" (VNum (55 # 100))
          (set_prop "source" (VStr "ai")
             (set_prop "verified" (VBool false) (own_props x)))).

(** [parsed.items.slice(0, 5).map(...)]; reading [slice] off something
    that is not an array is a [TypeError]. *)
Definition mapped_items (parsed : jsval) : M Env State (list jsval) :=
  match get "items" parsed with
  | Some (VArr items) => ret (map suggestion_of (firstn 5 items))
  | _ => throw "TypeError"
  end.

Definition first_message (c : Completion) : option Message :=
  match choices c with
  | Some (ch :: _) => message ch
  | _ => None
  end.

Definition is_function_call (tc : ToolCall) : bool :=
  String.eqb (tc_type tc) "function".

(** The three [try] bodies.  Each one ends by returning from
    [aiFallback] or by throwing into its [catch]. *)
Definition tryTools (params : Params) : M Env State (list jsval) :=
  let! completion := create Tools in
  let toolCalls :=
    default [] (mbind tool_calls (first_message completion)) in
  match List.find is_function_call toolCalls with
  | None => throw "no_function_tool_call"
  | Some fnCall =>
      match tc_function fnCall with
      | None => throw "TypeError"
      | Some f =>
          let argText := fn_arguments f in
          if negb (truthy argText) then throw "no_tool_call_arguments"
          else
            let! parsed := parse (default "" argText) in
            let (errors, parsed) := validateCarriers parsed in
            match errors with
            | _ :: _ =>
                do! console_log "AI: Ajv errors (tools):" "" in
                throw "ajv_validation_failed_tools"
            | [] =>
                let! mapped := mapped_items parsed in
                if (0 <? List.length mapped)%nat then
                  do! console_log "AI: tools suggestions:"
                        (string_of_Z (Z.of_nat (List.length mapped))) in
                  ret mapped
                else stub params "empty_model_output(tools)"
            end
      end
  end.

(** The text [{"items":[]}] that stands in for a missing content. *)
Definition empty_items_text : string :=
  "{" ++ dquote ++ "items" ++ dquote ++ ":[]}".

(** [completion.choices[0]?.message?.content ?? '{"items":[]}'] *)
Definition content_or_default (c : Completion) : M Env State string :=
  match choices c with
  | None => throw "TypeError"
  | Some _ =>
      ret (default empty_items_text (mbind content (first_message c)))
  end.

Definition tryJsonSchema (params : Params) : M Env State (list jsval) :=
  let! completion := create JsonSchema in
  let! raw := content_or_default completion in
  let text := sanitizeJsonString raw in
  let! parsed := parse text in
  let (errors, parsed) := validateCarriers parsed in
  match errors with
  | _ :: _ =>
      do! console_log "AI: Ajv errors (json_schema):" "" in
      throw "ajv_validation_failed_schema"
  | [] =>
      let! mapped := mapped_items parsed in
      if (0 <? List.length mapped)%nat then
        do! console_log "AI: json_schema suggestions:"
              (string_of_Z (Z.of_nat (List.length mapped))) in
        ret mapped
      else stub params "empty_model_output(json_schema)"
  end.

Definition tryJsonObject (params : Params) : M Env State (list jsval) :=
  let! completion2 := create JsonObject in
  let! raw2 := content_or_default completion2 in
  let text2 := sanitizeJsonString raw2 in
  let! parsed2 := parse text2 in
  let (errors, parsed2) := validateCarriers parsed2 in
  match errors with
  | _ :: _ =>
      do! console_log "AI: Ajv errors (json_object):" "" in
      stub params "json_object_validation_failed"
  | [] =>
      let! mapped2 := mapped_items parsed2 in
      if (0 <? List.length mapped2)%nat then
        do! console_log "AI: json_object suggestions:"
              (string_of_Z (Z.of_nat (List.length mapped2))) in
        ret mapped2
      else stub params "empty_model_output(json_object)"
  end.

Definition filled (params : Params) : nat :=
  List.length
    (List.filter truthy_js [type params; origin params; destination params]).

(** [new OpenAI({ apiKey: OPENAI_API_KEY })] *)
Definition new_OpenAI : M Env State unit :=
  let! env := ask in
  await (OpenAI_new env).

(** [${x || "ANY"}] *)
Definition template_value (x : option jsval) : M Env State string :=
  let! env := ask in
  await (ToString (Number_toString env) (or_else x (VStr "ANY"))).

Definition newline : string := String (ascii_of_nat 10) EmptyString.

(** The template literal [user]. *)
Definition user_prompt (params : Params) : M Env State string :=
  let! t := template_value (type params) in
  let! o := template_value (origin params) in
  let! d := template_value (destination params) in
  ret ("Filters:" ++ newline
       ++ "- type: " ++ t ++ newline
       ++ "- origin: " ++ o ++ newline
       ++ "- destination: " ++ d ++ newline
       ++ "Return at most 5 items. Keep descriptions ≤ 120 chars. No newlines in fields.").

(** What stands between the last gate and the first [try]: the client is
    built and the prompt written. *)
Definition setup (params : Params) : M Env State string :=
  do! new_OpenAI in
  user_prompt params.

(** The gates, then the client and the prompt, outside every [try], then
    the three strategies, each in its own [try]; the [catch] of one leads
    to the next.  The prompt is what the provider is sent; what the
    provider answers is the environment's, by the rank of the call. *)
Definition aiFallback (params : Params) (rateKey : string)
  : M Env State (list jsval) :=
  let! env := ask in
  if negb (String.eqb (default "true" (AI_FALLBACK_ENABLED env)) "true")
  then stub params "ai_disabled"
  else if (filled params <? MIN_FILTERS_FOR_AI)%nat
  then stub params
         ("min_filters(" ++ string_of_Z (Z.of_nat (filled params)) ++ ")")
  else
    let! allowed := allowAiCallM rateKey in
    if negb allowed then stub params "rate_limited"
    else if negb (truthy (OPENAI_API_KEY env)) then stub params "no_key"
    else
      do! setup params in
      try_catch (tryTools params) (fun err =>
        do! console_log "AI: tools call failed, degrading:" err in
        try_catch (tryJsonSchema params) (fun err =>
          do! console_log "AI: json_schema call failed, degrading:" err in
          try_catch (tryJsonObject params) (fun e2 =>
            do! console_log "AI: json_object call failed:" e2 in
            stub params "json_object_call_failed"))).

(** *** Handler *)

(** What the destructuring
    [const { type, origin, destination, verifiedOnly } = await req.json()]
    reads: the body is not validated, so each of the four is any JSON value,
    or [undefined]; [null] cannot be destructured. *)
Record SearchBody := {
  b_type : option jsval;
  b_origin : option jsval;
  b_destination : option jsval;
  b_verifiedOnly : option jsval
}.

Definition destructure (body : jsval) : SearchBody :=
  {| b_type := get "type" body;
     b_origin := get "origin" body;
     b_destination := get "destination" body;
     b_verifiedOnly := get "verifiedOnly" body |}.

Record Request := {
  (** the outcome of [req.json()]: any JSON value; it rejects when the body
      is not JSON *)
  req_json : result jsval;
  (** [req.headers.get(name)] *)
  req_header : string -> option string
}.

Definition lane_out (l : Lane) : jsval :=
  VObj [("origin", VStr (lane_origin l));
        ("destination", VStr (lane_destination l))].

Definition contact_out (c : Contact) : jsval :=
  VObj (List.filter (fun kv => negb (match snd kv with VUndef => true | _ => false end))
          [("email", opt_str (email c));
           ("phone", opt_str (phone c));
           ("website", opt_str (website c))]).

Definition carrier_out (c : CarrierDoc) : jsval :=
  VObj
    [("id", VStr (_id c));
     ("name", VStr (name c));
     ("types", VArr (map VStr (types c)));
     ("lanes", VArr (map lane_out (lanes c)));
     ("description", opt_str (description c));
     ("logoEmoji", opt_str (logoEmoji c));
     ("verified", VBool (verified c));
     ("rating", match rating c with Some r => VNum r | None => VUndef end);
     ("contact",
       match contact c with Some x => contact_out x | None => VUndef end);
     ("source", VStr "db")].

Definition duration_header (t0 t1 : Z) : list (string * string) :=
  [("x-duration-ms", string_of_Z (t1 - t0))].

Definition notice_unavailable : string :=
  "Database unavailable. Showing unverified AI suggestions.".
Definition notice_none_found : string :=
  "No verified carriers found for these filters. Showing unverified AI suggestions.".
Definition notice_query_error : string :=
  "We hit an error querying the database. Showing unverified AI suggestions.".

Definition ai_response (suggestions : list jsval) (notice : string)
    (t0 t1 : Z) : Response :=
  NextResponse_json
    (VObj [("carriers", VArr []);
           ("suggestions", VArr suggestions);
           ("usedAi", VBool true);
           ("notice", VStr notice)])
    200 (duration_header t0 t1).

Definition db_response (carriers : list CarrierDoc) (t0 t1 : Z) : Response :=
  NextResponse_json
    (VObj [("carriers", VArr (map carrier_out carriers));
           ("usedAi", VBool false)])
    200 (duration_header t0 t1).

(** [x-forwarded-for]'s first entry, trimmed, else [cf-connecting-ip],
    else ["local"]. *)
Definition client_ip (req : Request) : string :=
  let forwarded :=
    option_map (fun h => Str.trim (Str.first_segment h))
      (req_header req "x-forwarded-for") in
  if truthy forwarded then default "" forwarded
  else or_default (req_header req "cf-connecting-ip") "local".

(** Build DB query from provided filters only. *)
Definition build_query (b : SearchBody) : CarrierQuery :=
  {| q_types := if truthy_js (b_type b) then b_type b else None;
     q_lanes_origin := if truthy_js (b_origin b) then b_origin b else None;
     q_lanes_destination :=
       if truthy_js (b_destination b) then b_destination b else None;
     q_verified :=
       if truthy_js (b_verifiedOnly b) then Some true else None |}.

Definition params_of (b : SearchBody) : Params :=
  {| type := b_type b; origin := b_origin b; destination := b_destination b |}.

Definition POST (req : Request) : M Env State Response :=
  let! t0 := Date_now in
  let! parsed := await (req_json req) in
  if nullish parsed then throw "TypeError"
  else
      let b := destructure parsed in
      let rateKey := client_ip req in
      let! env := ask in
      (* connect DB (cached) *)
      let! early :=
        try_catch
          (do! await (dbConnect env) in ret None)
          (fun e =>
             do! console_log "Mongo connect error:" e in
             let! suggestions := aiFallback (params_of b) rateKey in
             let! t1 := Date_now in
             ret (Some (ai_response suggestions notice_unavailable t0 t1))) in
      match early with
      | Some response => ret response
      | None =>
          let q := build_query b in
          try_catch
            (let! carriers := await (Carrier_find env q 50) in
             let! t1 := Date_now in
             if (0 <? List.length carriers)%nat then
               ret (db_response carriers t0 t1)
             else
               let! suggestions := aiFallback (params_of b) rateKey in
               let! t2 := Date_now in
               ret (ai_response suggestions notice_none_found t0 t2))
            (fun e =>
               do! console_log "DB query error:" e in
               let! suggestions := aiFallback (params_of b) rateKey in
               let! t1 := Date_now in
               ret (ai_response suggestions notice_query_error t0 t1))
      end.

(** *** The persistence collaborator as an in-memory collection

    How a collection of carrier documents answers the handler's query:
    a query document is the conjunction of its keys; [types: t] holds when
    the array [types] contains [t]; ["lanes.origin": o] holds when some
    lane has origin [o], and likewise for the destination;
    [.limit(n)] keeps the first [n] matches.  The documents hold strings:
    a key that asks for another kind of value is equal to none of them. *)
Definition is_text (v : jsval) (s : string) : bool :=
  match v with
  | VStr t => String.eqb t s
  | _ => false
  end.

Definition matches (q : CarrierQuery) (c : CarrierDoc) : bool :=
  match q_types q with
  | Some t => existsb (is_text t) (types c)
  | None => true
  end
  && match q_lanes_origin q with
     | Some o => existsb (fun l => is_text o (lane_origin l)) (lanes c)
     | None => true
     end
  && match q_lanes_destination q with
     | Some d => existsb (fun l => is_text d (lane_destination l)) (lanes c)
     | None => true
     end
  && match q_verified q with
     | Some v => Bool.eqb v (verified c)
     | None => true
     end.

Definition collection_find (collection : list CarrierDoc)
    (q : CarrierQuery) (limit : nat) : result (list CarrierDoc) :=
  Ok (firstn limit (List.filter (matches q) collection)).

End Search.

(** ** The contact route: [app/api/contact/route.ts] *)

Module Contact.

(** [/.+@.+\..+/.test(email)]: somewhere in [email] a character, an [@],
    a character, a dot and a character, with no line terminator from the
    first to the last. *)
Definition is_line_terminator (c : ascii) : bool :=
  let n := nat_of_ascii c in (n =? 10)%nat || (n =? 13)%nat.

Fixpoint dot_then_char (l : list ascii) : bool :=
  match l with
  | [] => false
  | a :: rest =>
      if is_line_terminator a then false
      else if Ascii.eqb a "."
              && match rest with
                 | c :: _ => negb (is_line_terminator c)
                 | [] => false
                 end
      then true
      else dot_then_char rest
  end.

Definition after_at (l : list ascii) : bool :=
  match l with
  | c :: rest => negb (is_line_terminator c) && dot_then_char rest
  | [] => false
  end.

Fixpoint find_at (prev_ok : bool) (l : list ascii) : bool :=
  match l with
  | [] => false
  | c :: rest =>
      (prev_ok && Ascii.eqb c "@" && after_at rest)
      || find_at (negb (is_line_terminator c)) rest
  end.

Definition isValidEmail (email : string) : bool :=
  find_at false (list_ascii_of_string email).

(** [/[\u0000-\u001f\u007f-\u009f]/] *)
Definition is_control (c : ascii) : bool :=
  let n := nat_of_ascii c in
  (n <=? 31)%nat || ((127 <=? n)%nat && (n <=? 159)%nat).

Fixpoint remove_controls (s : string) : string :=
  match s with
  | EmptyString => EmptyString
  | String c rest =>
      if is_control c then remove_controls rest
      else String c (remove_controls rest)
  end.

Definition sanitize (input : string) : string :=
  Str.trim (remove_controls input).

(** *** Simple in-memory rate limit *)

Record RateEntry := { count : Z; ts : Z }.

(** [rateLimit(key, limit = 5, windowMs = 60 * 60 * 1000)], with the
    reading of [Date.now()] and the map [attempts] made explicit. *)
Definition rateLimit (key : string) (limit windowMs : Z) (now : Z)
    (attempts : gmap string RateEntry) : bool * gmap string RateEntry :=
  match attempts !! key with
  | None => (true, <[key := {| count := 1; ts := now |}]> attempts)
  | Some item =>
      if windowMs <? now - ts item then
        (true, <[key := {| count := 1; ts := now |}]> attempts)
      else if limit <=? count item then (false, attempts)
      else (true, <[key := {| count := count item + 1; ts := ts item |}]> attempts)
  end.

Definition default_limit : Z := 5.
Definition default_windowMs : Z := 60 * 60 * 1000.

(** *** Collaborators and state *)

Record Mail := {
  mail_from : string;
  mail_to : string;
  mail_replyTo : string;
  mail_subject : string;
  mail_text : string;
  mail_html : string
}.

Record Env := {
  ZOHO_USER : option string;
  ZOHO_PASS : option string;
  CONTACT_TO : option string;
  clock : nat -> Z;
  (** how [String] writes a number *)
  Number_toString : Q -> string;
  (** [transporter.sendMail(mail)] over the configured SMTP transport;
      host, port and TLS flag are the transport's own business *)
  sendMail : Mail -> result unit
}.

Record State := {
  attempts : gmap string RateEntry;
  clock_reads : nat;
  outbox : list Mail;
  console : list (string * string)
}.

Definition Date_now : M Env State Z :=
  fun e s =>
    (Ok (clock e (clock_reads s)),
     {| attempts := attempts s; clock_reads := S (clock_reads s);
        outbox := outbox s; console := console s |}).

Definition console_error (msg detail : string) : M Env State unit :=
  fun _ s =>
    (Ok tt,
     {| attempts := attempts s; clock_reads := clock_reads s;
        outbox := outbox s;
        console := (console s ++ [(msg, detail)])%list |}).

Definition rateLimitM (key : string) : M Env State bool :=
  let! now := Date_now in
  fun _ s =>
    let r := rateLimit key default_limit default_windowMs now (attempts s) in
    (Ok (fst r),
     {| attempts := snd r; clock_reads := clock_reads s;
        outbox := outbox s; console := console s |}).

(** A mail the transport accepts is on its way; a refused one is not. *)
Definition transporter_sendMail (m : Mail) : M Env State unit :=
  fun e s =>
    match sendMail e m with
    | Ok tt =>
        (Ok tt,
         {| attempts := attempts s; clock_reads := clock_reads s;
            outbox := (outbox s ++ [m])%list; console := console s |})
    | Throw err => (Throw err, s)
    end.

(** *** Handler *)

(** The eight properties the handler destructures from the body: each of
    them any JSON value, or missing. *)
Record ContactBody := {
  name : option jsval;
  email : option jsval;
  company : option jsval;
  phone : option jsval;
  subject : option jsval;
  message : option jsval;
  consent : option jsval;
  companyWebsite : option jsval
}.

(** [const { name = "", ... } = body || {}], before the defaults. *)
Definition destructure (body : jsval) : ContactBody :=
  let o := if truthy_val body then body else VObj [] in
  {| name := get "name" o;
     email := get "email" o;
     company := get "company" o;
     phone := get "phone" o;
     subject := get "subject" o;
     message := get "message" o;
     consent := get "consent" o;
     companyWebsite := get "companyWebsite" o |}.

Record Request := {
  (** the outcome of [req.json()]: any JSON value *)
  req_json : result jsval;
  req_header : string -> option string
}.

Record Form := {
  v_name : string;
  v_email : string;
  v_company : string;
  v_phone : string;
  v_subject : string;
  v_message : string;
  v_consent : bool
}.

Definition nl : string := String (ascii_of_nat 10) EmptyString.

Definition lines (ls : list string) : string := String.concat nl ls.

Definition mail_text_of (v : Form) : string :=
  lines
    [ "Name: " ++ v_name v;
      "Email: " ++ v_email v;
      "Company: " ++ v_company v;
      "Phone: " ++ v_phone v;
      "Subject: " ++ v_subject v;
      "";
      "Message:";
      v_message v ].

Definition attr (name value : string) : string :=
  name ++ "=" ++ dquote ++ value ++ dquote.

Definition mail_html_of (v : Form) (ip : string) : string :=
  lines
    [ "";
      "      <div " ++ attr "style" "font-family:Inter,system-ui,Segoe UI,Roboto,Arial,sans-serif" ++ ">";
      "        <h2>New contact from LaneList</h2>";
      "        <p><strong>Name:</strong> " ++ v_name v ++ "</p>";
      "        <p><strong>Email:</strong> " ++ v_email v ++ "</p>";
      "        " ++ (if String.eqb (v_company v) "" then ""
                     else "<p><strong>Company:</strong> " ++ v_company v ++ "</p>");
      "        " ++ (if String.eqb (v_phone v) "" then ""
                     else "<p><strong>Phone:</strong> " ++ v_phone v ++ "</p>");
      "        <p><strong>Subject:</strong> " ++ v_subject v ++ "</p>";
      "        <p><strong>Message:</strong></p>";
      "        <div " ++ attr "style" "white-space:pre-wrap;border:1px solid #e5e7eb;border-radius:12px;padding:12px;background:#fafafa" ++ ">" ++ v_message v ++ "</div>";
      "        <hr " ++ attr "style" "margin:16px 0;border:none;border-top:1px solid #e5e7eb" ++ "/>";
      "        <p " ++ attr "style" "color:#6b7280;font-size:12px" ++ ">IP: " ++ ip ++ "</p>";
      "      </div>";
      "    " ].

(** [String(v)] *)
Definition String_ (v : jsval) : M Env State string :=
  let! env := ask in
  await (ToString (Number_toString env) v).

(** [sanitize(String(v)).slice(0, n)] *)
Definition field (v : jsval) (n : Z) : M Env State string :=
  let! text := String_ v in
  ret (Str.slice0 n (sanitize text)).

(** The object [v] of the handler, its properties evaluated in order;
    each destructured property has its default ([""], or
    ["General question"] for the subject, [false] for the consent). *)
Definition form_of (b : ContactBody) : M Env State Form :=
  let! name := field (or_default_of (name b) (VStr "")) 80 in
  let! email := field (or_default_of (email b) (VStr "")) 120 in
  let! company := field (or_else (company b) (VStr "")) 120 in
  let! phone := field (or_else (phone b) (VStr "")) 40 in
  let! subject :=
    field (or_default_of (subject b) (VStr "General question")) 60 in
  let! message := field (or_default_of (message b) (VStr "")) 2000 in
  ret {| v_name := name; v_email := email; v_company := company;
         v_phone := phone; v_subject := subject; v_message := message;
         v_consent := truthy_val (or_default_of (consent b) (VBool false)) |}.

Definition client_ip (req : Request) : string :=
  let forwarded := or_default (req_header req "x-forwarded-for") "" in
  let first := Str.first_segment forwarded in
  if String.eqb first "" then "unknown" else first.

Definition error_body (msg : string) : jsval := VObj [("error", VStr msg)].
Definition ok_body : jsval := VObj [("ok", VBool true)].

Definition POST (req : Request) : M Env State Response :=
  try_catch
    (let ip := client_ip req in
     let! allowed := rateLimitM ip in
     if negb allowed then
       ret (NextResponse_json
              (error_body "Too many requests. Please try again later.") 429 [])
     else
       let! body := await (req_json req) in
       let b := destructure body in
       (* Honeypot check *)
       if truthy_val (or_default_of (companyWebsite b) (VStr "")) then
         ret (NextResponse_json ok_body 200 []) (* silently accept *)
       else
         (* Basic validation *)
         let! v := form_of b in
         if String.eqb (v_name v) "" || negb (isValidEmail (v_email v))
            || String.eqb (v_message v) "" || negb (v_consent v)
         then ret (NextResponse_json (error_body "Invalid form data.") 400 [])
         else
           let! env := ask in
           let user := ZOHO_USER env in
           let pass := ZOHO_PASS env in
           let to := if truthy (CONTACT_TO env) then CONTACT_TO env else user in
           if negb (truthy user) || negb (truthy pass) || negb (truthy to)
           then ret (NextResponse_json
                       (error_body "Email not configured on server.") 500 [])
           else
             do! transporter_sendMail
                   {| mail_from :=
                        "LaneList Contact <" ++ default "" user ++ ">";
                      mail_to := default "" to;
                      mail_replyTo := v_email v;
                      mail_subject :=
                        "[LaneList] " ++ v_subject v ++ " â€” "
                          ++ v_name v;
                      mail_text := mail_text_of v;
                      mail_html := mail_html_of v ip |} in
             ret (NextResponse_json ok_body 200 []))
    (fun err =>
       do! console_error "/api/contact error" err in
       ret (NextResponse_json (error_body "Failed to send message.") 500 [])).

End Contact.

(** ** A reader of JSON text

    [JSON.parse] is a field of the environment, so the theorems hold for
    every parser.  The reader below instantiates it in the worked examples:
    RFC 8259 text into [jsval], on strings of 8-bit code units. *)

Module JsonText.

Definition is_ws (c : ascii) : bool :=
  let n := nat_of_ascii c in
  (n =? 32)%nat || (n =? 9)%nat || (n =? 10)%nat || (n =? 13)%nat.

Fixpoint skip_ws (l : list ascii) : list ascii :=
  match l with
  | c :: rest => if is_ws c then skip_ws rest else l
  | [] => []
  end.

Definition digit_of (c : ascii) : option Z :=
  let n := nat_of_ascii c in
  if ((48 <=? n)%nat && (n <=? 57)%nat)%bool then Some (Z.of_nat n - 48)
  else None.

Definition hex_of (c : ascii) : option Z :=
  let n := Z.of_nat (nat_of_ascii c) in
  if (48 <=? n) && (n <=? 57) then Some (n - 48)
  else if (65 <=? n) && (n <=? 70) then Some (n - 55)
  else if (97 <=? n) && (n <=? 102) then Some (n - 87)
  else None.

(** Digits at the head of [l]: their value on top of [acc], how many
    there were, and the rest. *)
Fixpoint digits (l : list ascii) (acc : Z) (n : nat) : Z * nat * list ascii :=
  match l with
  | c :: rest =>
      match digit_of c with
      | Some d => digits rest (10 * acc + d) (S n)
      | None => (acc, n, l)
      end
  | [] => (acc, n, [])
  end.

Definition scale (m : Z) (e : Z) : Q :=
  if 0 <=? e then Qmake (m * 10 ^ e) 1
  else Qmake m (Z.to_pos (10 ^ (- e))).

Definition parse_exponent (l : list ascii) : option (Z * list ascii) :=
  match l with
  | c :: rest =>
      if Ascii.eqb c "e" || Ascii.eqb c "E" then
        let '(sign, rest) :=
          match rest with
          | s :: r =>
              if Ascii.eqb s "-" then (-1, r)
              else if Ascii.eqb s "+" then (1, r) else (1, rest)
          | [] => (1, rest)
          end in
        let '(e, n, rest) := digits rest 0 0%nat in
        if (n =? 0)%nat then None else Some (sign * e, rest)
      else Some (0, l)
  | [] => Some (0, l)
  end.

Definition parse_number (l : list ascii) : option (Q * list ascii) :=
  let '(sign, l) :=
    match l with
    | c :: rest => if Ascii.eqb c "-" then (-1, rest) else (1, l)
    | [] => (1, l)
    end in
  let '(int_part, n, rest) := digits l 0 0%nat in
  let leading_zero :=
    match l with
    | c :: _ => Ascii.eqb c "0" && (1 <? n)%nat
    | [] => false
    end in
  if (n =? 0)%nat || leading_zero then None
  else
    let frac :=
      match rest with
      | c :: rest' =>
          if Ascii.eqb c "." then
            let '(m, k, rest'') := digits rest' int_part 0%nat in
            if (k =? 0)%nat then None else Some (m, Z.of_nat k, rest'')
          else Some (int_part, 0, rest)
      | [] => Some (int_part, 0, rest)
      end in
    match frac with
    | None => None
    | Some (m, k, rest) =>
        match parse_exponent rest with
        | None => None
        | Some (e, rest) => Some (scale (sign * m) (e - k), rest)
        end
    end.

(** The characters of a string literal after its opening quote. *)
Fixpoint parse_string (l : list ascii) : option (string * list ascii) :=
  match l with
  | [] => None
  | c :: rest =>
      if Ascii.eqb c (ascii_of_nat 34) then Some (EmptyString, rest)
      else if (nat_of_ascii c <? 32)%nat then None
      else if Ascii.eqb c (ascii_of_nat 92) then
        match rest with
        | e :: rest' =>
            let simple (a : ascii) :=
              match parse_string rest' with
              | Some (s, r) => Some (String a s, r)
              | None => None
              end in
            if Ascii.eqb e (ascii_of_nat 34) then simple (ascii_of_nat 34)
            else if Ascii.eqb e (ascii_of_nat 92) then simple (ascii_of_nat 92)
            else if Ascii.eqb e "/" then simple "/"%char
            else if Ascii.eqb e "b" then simple (ascii_of_nat 8)
            else if Ascii.eqb e "f" then simple (ascii_of_nat 12)
            else if Ascii.eqb e "n" then simple (ascii_of_nat 10)
            else if Ascii.eqb e "r" then simple (ascii_of_nat 13)
            else if Ascii.eqb e "t" then simple (ascii_of_nat 9)
            else if Ascii.eqb e "u" then
              match rest' with
              | h1 :: h2 :: h3 :: h4 :: rest'' =>
                  match hex_of h1, hex_of h2, hex_of h3, hex_of h4 with
                  | Some a, Some b, Some c, Some d =>
                      let u := ((a * 16 + b) * 16 + c) * 16 + d in
                      if u <? 256 then
                        match parse_string rest'' with
                        | Some (s, r) =>
                            Some (String (ascii_of_nat (Z.to_nat u)) s, r)
                        | None => None
                        end
                      else None
                  | _, _, _, _ => None
                  end
              | _ => None
              end
            else None
        | [] => None
        end
      else
        match parse_string rest with
        | Some (s, r) => Some (String c s, r)
        | None => None
        end
  end.

Definition literal (word : string) (v : jsval) (l : list ascii)
  : option (jsval * list ascii) :=
  let w := list_ascii_of_string word in
  if String.eqb (string_of_list_ascii (firstn (List.length w) l)) word
  then Some (v, skipn (List.length w) l)
  else None.

Fixpoint parse_value (fuel : nat) (l : list ascii)
  : option (jsval * list ascii) :=
  match fuel with
  | O => None
  | S fuel =>
      match skip_ws l with
      | [] => None
      | c :: rest =>
          if Ascii.eqb c "{" then
            match skip_ws rest with
            | c' :: rest' =>
                if Ascii.eqb c' "}" then Some (VObj [], rest')
                else parse_members fuel (c' :: rest') []
            | [] => None
            end
          else if Ascii.eqb c "[" then
            match skip_ws rest with
            | c' :: rest' =>
                if Ascii.eqb c' "]" then Some (VArr [], rest')
                else parse_elements fuel (c' :: rest') []
            | [] => None
            end
          else if Ascii.eqb c (ascii_of_nat 34) then
            match parse_string rest with
            | Some (s, r) => Some (VStr s, r)
            | None => None
            end
          else if Ascii.eqb c "t" then literal "true" (VBool true) (c :: rest)
          else if Ascii.eqb c "f" then literal "false" (VBool false) (c :: rest)
          else if Ascii.eqb c "n" then literal "null" VNull (c :: rest)
          else
            match parse_number (c :: rest) with
            | Some (q, r) => Some (VNum q, r)
            | None => None
            end
      end
  end
with parse_elements (fuel : nat) (l : list ascii) (acc : list jsval)
  : option (jsval * list ascii) :=
  match fuel with
  | O => None
  | S fuel =>
      match parse_value fuel l with
      | Some (v, rest) =>
          match skip_ws rest with
          | c :: rest' =>
              if Ascii.eqb c "," then parse_elements fuel rest' (acc ++ [v])%list
              else if Ascii.eqb c "]" then Some (VArr (acc ++ [v])%list, rest')
              else None
          | [] => None
          end
      | None => None
      end
  end
with parse_members (fuel : nat) (l : list ascii) (acc : list (string * jsval))
  : option (jsval * list ascii) :=
  match fuel with
  | O => None
  | S fuel =>
      match skip_ws l with
      | q :: rest =>
          if Ascii.eqb q (ascii_of_nat 34) then
            match parse_string rest with
            | Some (k, rest) =>
                match skip_ws rest with
                | c :: rest =>
                    if Ascii.eqb c ":" then
                      match parse_value fuel rest with
                      | Some (v, rest) =>
                          let acc := set_prop k v acc in
                          match skip_ws rest with
                          | c' :: rest' =>
                              if Ascii.eqb c' "," then
                                parse_members fuel rest' acc
                              else if Ascii.eqb c' "}" then
                                Some (VObj acc, rest')
                              else None
                          | [] => None
                          end
                      | None => None
                      end
                    else None
                | [] => None
                end
            | None => None
            end
          else None
      | [] => None
      end
  end.

Definition parse_json (text : string) : result jsval :=
  let l := list_ascii_of_string text in
  match parse_value (S (List.length l)) l with
  | Some (v, rest) =>
      match skip_ws rest with
      | [] => Ok v
      | _ :: _ => Throw "SyntaxError"
      end
  | None => Throw "SyntaxError"
  end.

End JsonText.

(** ** Worked-example support *)

(** [calls key times m]: [allowAiCall(key)] once per reading of the clock
    in [times], in order: the answers and the map left behind. *)
Fixpoint calls (key : string) (times : list Z) (m : gmap string Search.Bucket)
  : list bool * gmap string Search.Bucket :=
  match times with
  | [] => ([], m)
  | now :: rest =>
      let (ok, m') := Search.allowAiCall key now m in
      let (oks, m'') := calls key rest m' in
      (ok :: oks, m'')
  end.

(** A call at [now] starts a window for [key]: the key has no bucket yet,
    or the stored window is more than [aiWindowMs] old. *)
Definition opens_window (key : string) (now : Z)
    (m : gmap string Search.Bucket) : Prop :=
  match m !! key with
  | None => True
  | Some b => Search.aiWindowMs < now - Search.since b
  end.

(** ** Vocabulary of the properties *)

(** [post m e s Q E]: run from [s], [m] returns a value and a state that
    satisfy [Q], or throws with an error and a state that satisfy [E]. *)
Definition post {E S A} (m : M E S A) (e : E) (s : S)
    (Q : A -> S -> Prop) (Ex : string -> S -> Prop) : Prop :=
  match m e s with
  | (Ok a, s') => Q a s'
  | (Throw err, s') => Ex err s'
  end.


Section Vocabulary.
Import Search.

(** What every AI-sourced record must look like. *)
Definition ai_item (e : jsval) : Prop :=
  get "source" e = Some (VStr "ai")
  /\ get "verified" e = Some (VBool false)
  /\ get "confidence" e = Some (VNum (55 # 100))
  /\ get "contact" e = None.

(** [l] is a list [stubSuggestion(params)] can return. *)
Definition is_stub_output (params : Params) (l : list jsval) : Prop :=
  exists env st, fst (stubSuggestion params env st) = Ok l.

(** [l] is the mapping of the first five items of a payload the validator
    accepted. *)
Definition from_provider (l : list jsval) : Prop :=
  exists parsed items,
    fst (validateCarriers parsed) = []
    /\ get "items" (snd (validateCarriers parsed)) = Some (VArr items)
    /\ l = map suggestion_of (firstn 5 items).

Definition good (params : Params) (l : list jsval) : Prop :=
  (1 <= List.length l <= 5)%nat
  /\ Forall ai_item l
  /\ (is_stub_output params l \/ from_provider l).

(** The run [r] is the stub closure's: the reason logged on top of [st0],
    one reading of the clock, a list [stubSuggestion] produces, and no
    provider call. *)
Definition returns_stub (params : Params) (reason : string) (st0 : State)
    (r : result (list jsval) * State) : Prop :=
  exists l,
    r = (Ok l, tick (logged "AI: returning stub —" reason st0))
    /\ is_stub_output params l.

Definition ai_enabled (env : Env) : bool :=
  String.eqb (default "true" (AI_FALLBACK_ENABLED env)) "true".

(** The arguments text of the function call Strategy A reads off a
    completion. *)
Definition tool_arguments (c : Completion) : option string :=
  match List.find is_function_call
          (default [] (mbind tool_calls (first_message c))) with
  | Some fnCall => mbind fn_arguments (tc_function fnCall)
  | None => None
  end.

(** The four gates of the engine let the run through. *)
Definition gates_open (params : Params) (rateKey : string)
    (env : Env) (st : State) : Prop :=
  ai_enabled env = true
  /\ (MIN_FILTERS_FOR_AI <= filled params)%nat
  /\ fst (allowAiCall rateKey (clock env (clock_reads st)) (aiBucket st)) = true
  /\ truthy (OPENAI_API_KEY env) = true.

(** The client is built and the prompt written: the constructor accepts
    the runtime and each supplied filter has a string form. *)
Definition sets_up (params : Params) (env : Env) : Prop :=
  exists user, forall st, setup params env st = (Ok user, st).

(** A filter that is missing or a string, as the search page sends it. *)
Definition textual (x : option jsval) : bool :=
  match x with
  | None | Some (VStr _) => true
  | Some _ => false
  end.

(** The constructor, or the template literal, throws [err]. *)
Definition setup_throws (params : Params) (env : Env) (err : string) : Prop :=
  forall st, setup params env st = (Throw err, st).

(** The state in which the engine leaves the gates behind: the clock read
    once, the caller's bucket charged. *)
Definition past_gates (rateKey : string) (env : Env) (st : State) : State :=
  with_aiBucket
    (snd (allowAiCall rateKey (clock env (clock_reads st)) (aiBucket st)))
    (tick st).

(** All four gates pass, the client is built, and the first provider
    call, Strategy A's, answers with arguments that parse and validate to
    an empty [items] array. *)
Definition strategyA_valid_but_empty (params : Params) (rateKey : string)
    (env : Env) (st : State) : Prop :=
  ai_enabled env = true
  /\ (MIN_FILTERS_FOR_AI <= filled params)%nat
  /\ fst (allowAiCall rateKey (clock env (clock_reads st)) (aiBucket st)) = true
  /\ truthy (OPENAI_API_KEY env) = true
  /\ sets_up params env
  /\ exists completion argText parsed,
       openai_create env (List.length (provider_calls st)) Tools = Ok completion
       /\ tool_arguments completion = Some argText
       /\ argText <> ""
       /\ JSON_parse env argText = Ok parsed
       /\ fst (validateCarriers parsed) = []
       /\ get "items" (snd (validateCarriers parsed)) = Some (VArr []).


(** The two shapes of a search result. *)
Definition db_result (body : jsval) : Prop :=
  exists carriers,
    body = VObj [("carriers", VArr carriers); ("usedAi", VBool false)]
    /\ carriers <> []
    /\ Forall (fun c => get "source" c = Some (VStr "db")) carriers.

Definition ai_result (body : jsval) : Prop :=
  exists suggestions notice,
    body = VObj [("carriers", VArr []);
                 ("suggestions", VArr suggestions);
                 ("usedAi", VBool true);
                 ("notice", VStr notice)]
    /\ (1 <= List.length suggestions)%nat
    /\ In notice [notice_unavailable; notice_none_found; notice_query_error].

Definition search_result (r : Response) : Prop :=
  status r = 200 /\ (db_result (body r) \/ ai_result (body r)).

End Vocabulary.

(** The entry the limiter leaves for a key whose call it lets through. *)
Definition charged (now : Z) (entry : option Contact.RateEntry) : Contact.RateEntry :=
  match entry with
  | None => {| Contact.count := 1; Contact.ts := now |}
  | Some item =>
      if Contact.default_windowMs <? now - Contact.ts item then {| Contact.count := 1; Contact.ts := now |}
      else {| Contact.count := Contact.count item + 1; Contact.ts := Contact.ts item |}
  end.


(** ** Worked examples: a provider, an environment, a request *)

Section Examples.
Import Search.

(** A completion whose single tool call carries [args]. *)
Definition completion_with_arguments (args : string) : Completion :=
  {| choices :=
       Some [{| message :=
                  Some {| content := None;
                          tool_calls :=
                            Some [{| tc_type := "function";
                                     tc_function :=
                                       Some {| fn_name := "return_carriers";
                                               fn_arguments := Some args |} |}]
                       |} |}] |}.

(** A completion whose message is the text [text]. *)
Definition completion_with_content (text : string) : Completion :=
  {| choices :=
       Some [{| message :=
                  Some {| content := Some text; tool_calls := None |} |}] |}.

(** A number as its integer part: how an integer is written. *)
Definition whole_number (q : Q) : string :=
  string_of_Z (Qnum q / Z.pos (Qden q)).

(** The feature toggle left at its default, a credential, a clock that
    advances one millisecond per reading, a reachable database holding
    [collection], and the provider [provider]. *)
Definition example_env (provider : nat -> Strategy -> result Completion)
    (collection : list CarrierDoc) : Env :=
  {| AI_FALLBACK_ENABLED := None;
     OPENAI_API_KEY := Some "sk-example";
     clock := fun n => 1700000000000 + Z.of_nat n;
     OpenAI_new := Ok tt;
     openai_create := provider;
     JSON_parse := JsonText.parse_json;
     Number_toString := whole_number;
     dbConnect := Ok tt;
     Carrier_find := collection_find collection |}.

Definition initial_state : State :=
  {| aiBucket := ∅; clock_reads := 0; provider_calls := []; console := [] |}.

Definition example_params : Params :=
  {| type := Some (VStr "truck"); origin := Some (VStr "FR");
     destination := Some (VStr "DE") |}.

(** A filter whose type is an object with a [toString] property that is
    not a function: it has no string form. *)
Definition odd_params : Params :=
  {| type := Some (VObj [("toString", VNum 1)]); origin := Some (VStr "FR");
     destination := Some (VStr "DE") |}.

(** A provider whose every answer is the valid, empty payload. *)
Definition empty_provider (n : nat) (strategy : Strategy) : result Completion :=
  match strategy with
  | Tools => Ok (completion_with_arguments empty_items_text)
  | _ => Ok (completion_with_content empty_items_text)
  end.

(** A provider that is unreachable. *)
Definition failing_provider (n : nat) (strategy : Strategy)
  : result Completion :=
  Throw "ECONNREFUSED".

(** The same environment with the feature toggle set to ["false"]. *)
Definition disabled_env : Env :=
  {| AI_FALLBACK_ENABLED := Some "false";
     OPENAI_API_KEY := Some "sk-example";
     clock := fun n => 1700000000000 + Z.of_nat n;
     OpenAI_new := Ok tt;
     openai_create := empty_provider;
     JSON_parse := JsonText.parse_json;
     Number_toString := whole_number;
     dbConnect := Ok tt;
     Carrier_find := collection_find [] |}.

Definition quoted (s : string) : string := dquote ++ s ++ dquote.

(** The text of a payload with one item that also claims to be verified
    and carries a contact block. *)
Definition boastful_text : string :=
  "{" ++ quoted "items" ++ ":[{"
    ++ quoted "id" ++ ":" ++ quoted "c-1" ++ ","
    ++ quoted "name" ++ ":" ++ quoted "Blue Freight" ++ ","
    ++ quoted "types" ++ ":[" ++ quoted "truck" ++ "],"
    ++ quoted "lanes" ++ ":[{" ++ quoted "origin" ++ ":" ++ quoted "FR" ++ ","
    ++ quoted "destination" ++ ":" ++ quoted "DE" ++ "}],"
    ++ quoted "verified" ++ ":true,"
    ++ quoted "contact" ++ ":{" ++ quoted "email" ++ ":"
    ++ quoted "ops@blue.example" ++ "}}]}".

(** A provider whose function call fails and whose schema-constrained
    completion is [boastful_text] inside a Markdown fence. *)
Definition boastful_provider (n : nat) (strategy : Strategy)
  : result Completion :=
  match strategy with
  | Tools => Throw "timeout"
  | _ => Ok (completion_with_content ("```json" ++ boastful_text ++ "```"))
  end.

(** A provider that answers with text that is not JSON. *)
Definition garbled_provider (n : nat) (strategy : Strategy)
  : result Completion :=
  match strategy with
  | Tools => Ok (completion_with_arguments "Sure! Here are some carriers")
  | _ => Ok (completion_with_content "Sure! Here are some carriers")
  end.

(** The text of a payload whose item has no [lanes]. *)
Definition laneless_text : string :=
  "{" ++ quoted "items" ++ ":[{"
    ++ quoted "id" ++ ":" ++ quoted "c-1" ++ ","
    ++ quoted "name" ++ ":" ++ quoted "Blue Freight" ++ ","
    ++ quoted "types" ++ ":[" ++ quoted "truck" ++ "]}]}".

(** A provider whose every answer fails the schema. *)
Definition laneless_provider (n : nat) (strategy : Strategy)
  : result Completion :=
  match strategy with
  | Tools => Ok (completion_with_arguments laneless_text)
  | _ => Ok (completion_with_content laneless_text)
  end.

Definition alpine : CarrierDoc :=
  {| _id := "65f0c0ffee0000000000a1";
     name := "Alpine Logistics";
     verified := true;
     rating := Some (47 # 10);
     types := ["truck"; "reefer"];
     lanes := [{| lane_origin := "FR"; lane_destination := "ES" |};
               {| lane_origin := "FR"; lane_destination := "DE" |}];
     description := Some "EU road freight with temperature control.";
     contact := Some {| email := Some "hello@alpine.example";
                        phone := Some "+33 1 23 45 67 89";
                        website := Some "#" |};
     logoEmoji := None |}.

Definition iberia : CarrierDoc :=
  {| _id := "65f0c0ffee0000000000a2";
     name := "Iberia Freight";
     verified := true;
     rating := Some (46 # 10);
     types := ["flatbed"];
     lanes := [{| lane_origin := "ES"; lane_destination := "FR" |};
               {| lane_origin := "PT"; lane_destination := "ES" |}];
     description := Some "Iberian peninsula specialists.";
     contact := None;
     logoEmoji := None |}.

Definition truck_body : jsval := VObj [("type", VStr "truck")].

Definition truck_request : Request :=
  {| req_json := Ok truck_body; req_header := fun _ => None |}.

Definition lane_request : Request :=
  {| req_json :=
       Ok (VObj [("type", VStr "truck"); ("origin", VStr "FR");
                 ("destination", VStr "DE")]);
     req_header := fun h =>
       if String.eqb h "x-forwarded-for" then Some " 203.0.113.7 , 10.0.0.1"
       else None |}.



(** [disabled_env] with the database out of reach. *)
Definition offline_env : Env :=
  {| AI_FALLBACK_ENABLED := Some "false";
     OPENAI_API_KEY := None;
     clock := fun n => 1700000000000 + Z.of_nat n;
     OpenAI_new := Ok tt;
     openai_create := failing_provider;
     JSON_parse := JsonText.parse_json;
     Number_toString := whole_number;
     dbConnect := Throw "Missing MONGODB_URI";
     Carrier_find := fun _ _ => Throw "not connected" |}.

(** A request whose body is not JSON: [req.json()] rejects. *)
Definition malformed_request : Request :=
  {| req_json := Throw "SyntaxError"; req_header := fun _ => None |}.

End Examples.

Section ContactExamples.
Import Contact.

Definition contact_env : Env :=
  {| ZOHO_USER := Some "desk@lanelist.example";
     ZOHO_PASS := Some "secret";
     CONTACT_TO := None;
     clock := fun n => 1700000000000 + Z.of_nat n;
     Number_toString := whole_number;
     sendMail := fun _ => Ok tt |}.

Definition contact_initial : State :=
  {| attempts := ∅; clock_reads := 0; outbox := []; console := [] |}.

(** A bot's submission: every visible field filled in and valid, and the
    hidden field too. *)
Definition bot_body : jsval :=
  VObj [("name", VStr "Ada");
        ("email", VStr "ada@example.org");
        ("message", VStr "Hello");
        ("consent", VBool true);
        ("companyWebsite", VStr "http://spam.example")].

Definition bot_request : Request :=
  {| req_json := Ok bot_body;
     req_header := fun h =>
       if String.eqb h "x-forwarded-for" then Some "198.51.100.9, 10.0.0.1"
       else None |}.

End ContactExamples.

(** The carrier schema as the specification words it: a top-level [items]
    array; each item an object with a string [id], a string [name], [types]
    an array of the five transport tags, [lanes] an array of objects with
    string [origin] and [destination]; [description] and [logoEmoji], when
    present, strings. *)
Definition is_string (v : jsval) : bool :=
  match v with VStr _ => true | _ => false end.

Definition is_transport_type (v : jsval) : bool :=
  match v with
  | VStr t => existsb (String.eqb t) Search.transportTypes
  | _ => false
  end.

Definition optional_string (o : option jsval) : bool :=
  match o with
  | None => true
  | Some v => is_string v
  end.

Definition required_string (o : option jsval) : bool :=
  match o with
  | Some v => is_string v
  | None => false
  end.

Definition is_lane (v : jsval) : bool :=
  match v with
  | VObj _ =>
      required_string (get "origin" v) && required_string (get "destination" v)
  | _ => false
  end.

Definition is_item (v : jsval) : bool :=
  match v with
  | VObj _ =>
      required_string (get "id" v)
      && required_string (get "name" v)
      && match get "types" v with
         | Some (VArr ts) => forallb is_transport_type ts
         | _ => false
         end
      && match get "lanes" v with
         | Some (VArr ls) => forallb is_lane ls
         | _ => false
         end
      && optional_string (get "description" v)
      && optional_string (get "logoEmoji" v)
  | _ => false
  end.

Definition satisfies_carrier_schema (payload : jsval) : bool :=
  match payload with
  | VObj _ =>
      match get "items" payload with
      | Some (VArr items) => forallb is_item items
      | _ => false
      end
  | _ => false
  end.

(** Three payloads: one that satisfies the schema, the same with a
    [contact] block slipped into its item, and one whose item has no
    [lanes]. *)
Definition example_item_fields : list (string * jsval) :=
  [("id", VStr "c-1");
   ("name", VStr "Blue Freight");
   ("types", VArr [VStr "truck"; VStr "reefer"]);
   ("lanes", VArr [VObj [("origin", VStr "FR"); ("destination", VStr "DE")]]);
   ("description", VStr "EU road freight")].

Definition example_payload : jsval :=
  VObj [("items", VArr [VObj example_item_fields])].

Definition example_contact : jsval :=
  VObj [("email", VStr "ops@blue.example"); ("phone", VStr "+33 1 00 00 00 00")].

Definition example_payload_with_contact : jsval :=
  VObj [("items",
          VArr [VObj (example_item_fields ++ [("contact", example_contact)])])].

Definition example_payload_without_lanes : jsval :=
  VObj [("items",
          VArr [VObj [("id", VStr "c-1");
                      ("name", VStr "Blue Freight");
                      ("types", VArr [VStr "truck"; VStr "reefer"])]])].

(** The loop of [Ajv.validate] over the elements of an array, by name. *)
Definition each_of (items : Ajv.schema) (path : string)
  : list jsval -> nat -> list Ajv.error * list jsval :=
  fix each (l : list jsval) (i : nat) : list Ajv.error * list jsval :=
    match l with
    | [] => ([], [])
    | x :: xs =>
        let (e, x') := Ajv.validate items (path ++ "/" ++ string_of_Z (Z.of_nat i)) x in
        let (es, xs') := each xs (S i) in
        (app e es, x' :: xs')
    end.

(** ** Further vocabulary, and the code around the two routes *)

(** Every code unit of [w] is white space. *)
Fixpoint all_space (w : string) : bool :=
  match w with
  | EmptyString => true
  | String c rest => Str.is_space c && all_space rest
  end.

(** [c] occurs in [s]. *)
Fixpoint occurs (c : ascii) (s : string) : bool :=
  match s with
  | EmptyString => false
  | String a rest => Ascii.eqb a c || occurs c rest
  end.

(** [trimEnd] by recursion from the front: a suffix of white space goes. *)
Fixpoint trimEnd_rec (s : string) : string :=
  match s with
  | EmptyString => EmptyString
  | String c rest =>
      match trimEnd_rec rest with
      | EmptyString => if Str.is_space c then EmptyString else String c EmptyString
      | r => String c r
      end
  end.

(** What [.replace(/```$/i, "")] leaves of [s]. *)
Definition drop_fence (s : string) : string :=
  match Str.strip_suffix "```" s with
  | Some r => r
  | None => s
  end.

(** The opening fences the two [replace] calls remove: none, three
    backticks, or three backticks and [json] in any case. *)
Definition opening_fence (f : string) : bool :=
  String.eqb f "" || String.eqb f "```"
  || match Str.strip_prefix_ci "```json" f with
     | Some EmptyString => true
     | _ => false
     end.

(** Every code unit of [s] satisfies [P]. *)
Fixpoint every (P : ascii -> bool) (s : string) : bool :=
  match s with
  | EmptyString => true
  | String c rest => P c && every P rest
  end.

Definition no_controls (s : string) : bool :=
  every (fun c => negb (Contact.is_control c)) s.

(** [submissions key limit windowMs times m]: [rateLimit(key, limit,
    windowMs)] once per reading of the clock in [times], in order: the
    answers and the map left behind. *)
Fixpoint submissions (key : string) (limit windowMs : Z) (times : list Z)
    (m : gmap string Contact.RateEntry)
  : list bool * gmap string Contact.RateEntry :=
  match times with
  | [] => ([], m)
  | now :: rest =>
      let r := Contact.rateLimit key limit windowMs now m in
      let rs := submissions key limit windowMs rest (snd r) in
      (fst r :: fst rs, snd rs)
  end.

(** A submission at [now] starts a window for [key]. *)
Definition starts_window (key : string) (windowMs now : Z)
    (m : gmap string Contact.RateEntry) : Prop :=
  match m !! key with
  | None => True
  | Some item => windowMs < now - Contact.ts item
  end.

(** [.] of a regular expression without the [s] flag. *)
Definition any_char (c : ascii) : bool := negb (Contact.is_line_terminator c).

(** [l] reads [x+ @ y+ . z] somewhere, every [x], [y] and [z] matched by [.]:
    the language of [/.+@.+\..+/] on code units, with one character kept on
    each side of the match's [@] and one behind its dot. *)
Definition email_shaped (l : list ascii) : Prop :=
  exists pre p q mid r post,
    l = (pre ++ p :: "@"%char :: q :: mid ++ "."%char :: r :: post)%list
    /\ any_char p = true /\ any_char q = true
    /\ forallb any_char mid = true /\ any_char r = true.

(** The state once the limiter has answered: one reading of the clock, and
    the limiter's map. *)
Definition limited (ip : string) (env : Contact.Env) (st : Contact.State)
  : bool * Contact.State :=
  let r := Contact.rateLimit ip Contact.default_limit Contact.default_windowMs
             (Contact.clock env (Contact.clock_reads st)) (Contact.attempts st) in
  (fst r,
   {| Contact.attempts := snd r;
      Contact.clock_reads := S (Contact.clock_reads st);
      Contact.outbox := Contact.outbox st;
      Contact.console := Contact.console st |}).

(** The mail the handler hands to the transport. *)
Definition composed_mail (env : Contact.Env) (v : Contact.Form) (ip : string)
  : Contact.Mail :=
  let user := Contact.ZOHO_USER env in
  let to := if truthy (Contact.CONTACT_TO env) then Contact.CONTACT_TO env else user in
  {| Contact.mail_from := "LaneList Contact <" ++ default "" user ++ ">";
     Contact.mail_to := default "" to;
     Contact.mail_replyTo := Contact.v_email v;
     Contact.mail_subject :=
       "[LaneList] " ++ Contact.v_subject v ++ " â€” " ++ Contact.v_name v;
     Contact.mail_text := Contact.mail_text_of v;
     Contact.mail_html := Contact.mail_html_of v ip |}.

(** The form the handler builds from a body, or the error of a field
    that has no string form; building it touches no state. *)
Definition form_outcome (b : Contact.ContactBody) (env : Contact.Env)
  : result Contact.Form :=
  fst (Contact.form_of b env contact_initial).

(** [companyWebsite], with its default, read as a condition. *)
Definition honeypot_set (b : Contact.ContactBody) : bool :=
  truthy_val (or_default_of (Contact.companyWebsite b) (VStr "")).

Definition invalid_form (v : Contact.Form) : bool :=
  String.eqb (Contact.v_name v) "" || negb (Contact.isValidEmail (Contact.v_email v))
  || String.eqb (Contact.v_message v) "" || negb (Contact.v_consent v).

Definition not_configured (env : Contact.Env) : bool :=
  let user := Contact.ZOHO_USER env in
  let to := if truthy (Contact.CONTACT_TO env) then Contact.CONTACT_TO env else user in
  negb (truthy user) || negb (truthy (Contact.ZOHO_PASS env)) || negb (truthy to).

Definition with_error (err : string) (st : Contact.State) : Contact.State :=
  {| Contact.attempts := Contact.attempts st;
     Contact.clock_reads := Contact.clock_reads st;
     Contact.outbox := Contact.outbox st;
     Contact.console := (Contact.console st ++ [("/api/contact error", err)])%list |}.

Definition with_mail (m : Contact.Mail) (st : Contact.State) : Contact.State :=
  {| Contact.attempts := Contact.attempts st;
     Contact.clock_reads := Contact.clock_reads st;
     Contact.outbox := (Contact.outbox st ++ [m])%list;
     Contact.console := Contact.console st |}.

Definition answer (status : Z) (body : jsval) : Response :=
  {| status := status; headers := []; body := body |}.

(** A client that used up its five submissions a minute ago. *)
Definition contact_exhausted : Contact.State :=
  {| Contact.attempts :=
       {[ "198.51.100.9" := {| Contact.count := 5; Contact.ts := 1699999940000 |} ]};
     Contact.clock_reads := 0; Contact.outbox := []; Contact.console := [] |}.

Definition human_body : jsval :=
  VObj [("name", VStr "Ada"); ("email", VStr "ada@example.org");
        ("message", VStr "Hello"); ("consent", VBool true)].

Definition human_request : Contact.Request :=
  {| Contact.req_json := Ok human_body;
     Contact.req_header := Contact.req_header bot_request |}.

Definition unreadable_request : Contact.Request :=
  {| Contact.req_json := Throw "SyntaxError: Unexpected end of JSON input";
     Contact.req_header := Contact.req_header bot_request |}.

(** [s'] is [s] after exactly the provider calls [p], with the rate-limit
    map untouched. *)
Definition after_calls (p : list Search.Strategy) (s s' : Search.State) : Prop :=
  Search.provider_calls s' = (Search.provider_calls s ++ p)%list
  /\ Search.aiBucket s' = Search.aiBucket s.

(** The provider calls one run of the engine can make, in order. *)
Definition call_sequences : list (list Search.Strategy) :=
  [[]; [Search.Tools]; [Search.Tools; Search.JsonSchema];
   [Search.Tools; Search.JsonSchema; Search.JsonObject]].

(** What one run of the engine for [rateKey] may do to the provider's call
    log and to the rate-limit map of [st]. *)
Definition engine_footprint (rateKey : string) (env : Search.Env)
    (st st' : Search.State) : Prop :=
  exists p m,
    In p call_sequences
    /\ In m [Search.aiBucket st;
             snd (Search.allowAiCall rateKey
                    (Search.clock env (Search.clock_reads st)) (Search.aiBucket st))]
    /\ Search.provider_calls st' = (Search.provider_calls st ++ p)%list
    /\ Search.aiBucket st' = m.

Section EngineVocabulary.
Import Search.

(** Strategy A answers with arguments that parse and validate to at least
    one item, all four gates being open and the client built. *)
Definition strategyA_succeeds (params : Params) (rateKey : string)
    (env : Env) (st : State) (items : list jsval) : Prop :=
  ai_enabled env = true
  /\ (MIN_FILTERS_FOR_AI <= filled params)%nat
  /\ fst (allowAiCall rateKey (clock env (clock_reads st)) (aiBucket st)) = true
  /\ truthy (OPENAI_API_KEY env) = true
  /\ sets_up params env
  /\ exists completion argText parsed,
       openai_create env (List.length (provider_calls st)) Tools = Ok completion
       /\ tool_arguments completion = Some argText
       /\ argText <> ""
       /\ JSON_parse env argText = Ok parsed
       /\ fst (validateCarriers parsed) = []
       /\ get "items" (snd (validateCarriers parsed)) = Some (VArr items)
       /\ items <> [].

(** A provider whose function call carries a valid payload of one item. *)
Definition helpful_provider (n : nat) (strategy : Strategy)
  : result Completion :=
  match strategy with
  | Tools => Ok (completion_with_arguments boastful_text)
  | _ => Throw "not reached"
  end.

End EngineVocabulary.

Section FencedVocabulary.
Import Search.

(** The text the JSON strategies read off a completion. *)
Definition answer_text (c : Completion) : option string :=
  match choices c with
  | None => None
  | Some _ => Some (default empty_items_text (mbind content (first_message c)))
  end.

(** [text] is [document], a bracketed JSON text, inside an optional
    Markdown fence, with white space around and anything without a closing
    bracket behind. *)
Definition fenced (text document : string) : Prop :=
  exists w0 fence w1 a m z g,
    all_space w0 = true /\ opening_fence fence = true /\ all_space w1 = true
    /\ (a = "{" \/ a = "[")%char /\ (z = "}" \/ z = "]")%char
    /\ occurs "}" g = false /\ occurs "]" g = false
    /\ document = String a (m ++ String z "")
    /\ text = w0 ++ fence ++ w1 ++ document ++ g.

End FencedVocabulary.

(** The validator never changes what kind of value it was given. *)
Definition same_kind (d d' : jsval) : Prop :=
  match d, d' with
  | VUndef, VUndef | VNull, VNull => True
  | VBool b, VBool b' => b = b'
  | VNum q, VNum q' => q = q'
  | VStr s, VStr s' => s = s'
  | VArr l, VArr l' => List.length l = List.length l'
  | VObj _, VObj _ => True
  | _, _ => False
  end.

(** What [validateCarriers] accepts, exactly: as [satisfies_carrier_schema],
    except that [description] and [logoEmoji] may also be [null]
    ([nullable: true]). *)
Definition nullable_string (o : option jsval) : bool :=
  match o with
  | None | Some VNull | Some (VStr _) => true
  | Some _ => false
  end.

Definition item_accepted (v : jsval) : bool :=
  match v with
  | VObj _ =>
      required_string (get "id" v)
      && required_string (get "name" v)
      && match get "types" v with
         | Some (VArr ts) => forallb is_transport_type ts
         | _ => false
         end
      && match get "lanes" v with
         | Some (VArr ls) => forallb is_lane ls
         | _ => false
         end
      && nullable_string (get "description" v)
      && nullable_string (get "logoEmoji" v)
  | _ => false
  end.

Definition payload_accepted (payload : jsval) : bool :=
  match payload with
  | VObj _ =>
      match get "items" payload with
      | Some (VArr items) => forallb item_accepted items
      | _ => false
      end
  | _ => false
  end.

(** The state in which the handler starts the engine once the database
    has failed: the clock read once, the failure on the log. *)
Definition after_failure (msg err : string) (st : Search.State) : Search.State :=
  Search.logged msg err (Search.tick st).

(** [disabled_env] with a database that connects and then fails the
    query. *)
Definition flaky_env : Search.Env :=
  {| Search.AI_FALLBACK_ENABLED := Some "false";
     Search.OPENAI_API_KEY := None;
     Search.clock := fun n => 1700000000000 + Z.of_nat n;
     Search.OpenAI_new := Ok tt;
     Search.openai_create := failing_provider;
     Search.JSON_parse := JsonText.parse_json;
     Search.Number_toString := whole_number;
     Search.dbConnect := Ok tt;
     Search.Carrier_find := fun _ _ => Throw "MongoNetworkError" |}.

(** What the handler makes of a run of the engine outside every [try]:
    the suggestions under a notice, or the engine's error. *)
Definition relayed (notice : string) (t0 : Z) (env : Search.Env)
    (run : result (list jsval) * Search.State)
  : result Response * Search.State :=
  match run with
  | (Ok suggestions, st1) =>
      (Ok (Search.ai_response suggestions notice t0 (Search.clock env (Search.clock_reads st1))),
       Search.tick st1)
  | (Throw e, st1) => (Throw e, st1)
  end.

(** [requests events m]: one [allowAiCall(key)] per event [(key, now)], in
    order, whatever the keys: the answers, each with its key, and the map
    left behind. *)
Fixpoint requests (events : list (string * Z)) (m : gmap string Search.Bucket)
  : list (string * bool) * gmap string Search.Bucket :=
  match events with
  | [] => ([], m)
  | (key, now) :: rest =>
      let r := Search.allowAiCall key now m in
      let rs := requests rest (snd r) in
      ((key, fst r) :: fst rs, snd rs)
  end.

(** The entries of [l] that belong to [key], in order. *)
Definition of_key {A} (key : string) (l : list (string * A)) : list A :=
  map snd (List.filter (fun e => String.eqb key (fst e)) l).

(** ** The connection cache: [src/lib/db.ts] *)

Module Db.

Section Connection.

(** The Mongoose instance a connection resolves to. *)
Context {Mongoose : Type}.

Record Env := {
  MONGODB_URI : option string;
  (** the promise the n-th [mongoose.connect(uri, ...)] returns, by the
      way it settles *)
  mongoose_connect : nat -> string -> result Mongoose
}.

(** [cached], and the URIs [mongoose.connect] has been called with. *)
Record State := {
  conn : option Mongoose;
  promise : option (result Mongoose);
  connects : list string
}.

(** [globalThis._mongoose ??= { conn: null, promise: null }] *)
Definition fresh : State := {| conn := None; promise := None; connects := [] |}.

Definition dbConnect : M Env State Mongoose :=
  fun e s =>
    match conn s with
    | Some c => (Ok c, s)
    | None =>
        if negb (truthy (MONGODB_URI e)) then (Throw "Missing MONGODB_URI", s)
        else
          let uri := default "" (MONGODB_URI e) in
          (* if (!cached.promise) cached.promise = mongoose.connect(uri, ...) *)
          let s1 :=
            match promise s with
            | Some p => (p, connects s)
            | None =>
                (mongoose_connect e (List.length (connects s)) uri,
                 (connects s ++ [uri])%list)
            end in
          (* cached.conn = await cached.promise *)
          match fst s1 with
          | Ok c =>
              (Ok c, {| conn := Some c; promise := Some (fst s1);
                        connects := snd s1 |})
          | Throw err =>
              (Throw err, {| conn := None; promise := Some (fst s1);
                             connects := snd s1 |})
          end
    end.

End Connection.

End Db.

(** [m] run [n] times in a row: the outcomes, in order, and the state left
    behind. *)
Fixpoint repeatedly {E S A} (n : nat) (m : M E S A) (e : E) (s : S)
  : list (result A) * S :=
  match n with
  | O => ([], s)
  | S n' =>
      let r := m e s in
      let rs := repeatedly n' m e (snd r) in
      (fst r :: fst rs, snd rs)
  end.

(** A cache that has settled for [outcome], after one call of
    [mongoose.connect] with [uri]. *)
Definition settled {Mongoose} (uri : string) (outcome : result Mongoose)
  : @Db.State Mongoose :=
  {| Db.conn := match outcome with Ok c => Some c | Throw _ => None end;
     Db.promise := Some outcome;
     Db.connects := [uri] |}.

(** A database that refuses the first connection and would accept the
    second. *)
Definition waking_database : @Db.Env nat :=
  {| Db.MONGODB_URI := Some "mongodb://db.example/lanelist";
     Db.mongoose_connect := fun n _ =>
       match n with
       | O => Throw "MongoServerSelectionError"
       | S _ => Ok n
       end |}.

(** ** What a JSON response carries

    [NextResponse.json(body)] writes [JSON.stringify(body)] and the client's
    [res.json()] parses it back: a property holding [undefined] is gone, an
    [undefined] array element has become [null]. *)
Fixpoint wire (v : jsval) : jsval :=
  match v with
  | VUndef => VNull
  | VArr l => VArr (map wire l)
  | VObj ps =>
      VObj ((fix fields (ps : list (string * jsval)) : list (string * jsval) :=
               match ps with
               | [] => []
               | (k, VUndef) :: rest => fields rest
               | (k, x) :: rest => (k, wire x) :: fields rest
               end) ps)
  | _ => v
  end.

(** ** The search page: [LaneListMockup] *)

Module LaneListMockup.

Record Filters := {
  selectedType : string;
  origin : string;
  destination : string;
  showVerifiedOnly : bool
}.

(** [`${selectedType}|${origin}|${destination}|${showVerifiedOnly}`] *)
Definition key (f : Filters) : string :=
  selectedType f ++ "|" ++ origin f ++ "|" ++ destination f ++ "|"
    ++ (if showVerifiedOnly f then "true" else "false").

Record Shown := {
  results : list jsval;
  usedAi : bool;
  notice : jsval
}.

Record State := {
  shown : Shown;
  loading : bool;
  error : string;
  (** [cacheRef.current] *)
  cache : gmap string Shown
}.

(** [x || undefined] on a string. *)
Definition or_undefined (x : string) : jsval :=
  if String.eqb x "" then VUndef else VStr x.

(** The body: [JSON.stringify] of
    [{type: selectedType || undefined, ...}], as [req.json()] reads it
    back. *)
Definition request_body (f : Filters) : jsval :=
  wire (VObj [("type", or_undefined (selectedType f));
              ("origin", or_undefined (origin f));
              ("destination", or_undefined (destination f));
              ("verifiedOnly",
                if showVerifiedOnly f then VBool true else VUndef)]).

(** [await fetch(...)] followed by [await res.json()]. *)
Inductive Fetched :=
| Answered (data : jsval)
| Rejected.

Record Env := {
  fetch : jsval -> Fetched;
  (** the effect was cleaned up while the request was in flight *)
  aborted : bool
}.

(** [Array.isArray(x) ? x : []] *)
Definition array_or_empty (x : option jsval) : list jsval :=
  match x with
  | Some (VArr l) => l
  | _ => []
  end.

(** From [data] to what [setResults], [setUsedAi] and [setNotice] receive;
    a [TypeError] when [data], or an element the filter visits, is [null]. *)
Definition present (f : Filters) (data : jsval) : result Shown :=
  if nullish data then Throw "TypeError"
  else
    let carriers := array_or_empty (get "carriers" data) in
    let suggestions := array_or_empty (get "suggestions" data) in
    (* Prefer DB results; if none, show AI suggestions (clearly labeled) *)
    let list := if (0 <? List.length carriers)%nat then carriers else suggestions in
    let usedAiResponse := (List.length carriers =? 0)%nat in
    let info :=
      if usedAiResponse then
        match get "notice" data with
        | Some v => if truthy_val v then v else VStr "Unverified AI suggestions."
        | None => VStr "Unverified AI suggestions."
        end
      else VStr "" in
    (* Apply verified-only on client too, just in case *)
    if showVerifiedOnly f && negb usedAiResponse then
      if existsb nullish list then Throw "TypeError"
      else
        Ok {| results :=
                List.filter
                  (fun c => match get "verified" c with
                            | Some v => truthy_val v
                            | None => false
                            end) list;
              usedAi := usedAiResponse; notice := info |}
    else Ok {| results := list; usedAi := usedAiResponse; notice := info |}.

Definition failed (s : State) : State :=
  {| shown := shown s; loading := false;
     error := "Could not load results. Please try again.";
     cache := cache s |}.

(** [run()], once the debounce has fired. *)
Definition run (f : Filters) (e : Env) (s : State) : State :=
  (* setError("") *)
  let s := {| shown := shown s; loading := loading s; error := "";
              cache := cache s |} in
  (* Cache first *)
  match cache s !! key f with
  | Some cached =>
      {| shown := cached; loading := loading s; error := error s;
         cache := cache s |}
  | None =>
      (* setLoading(true) *)
      let s := {| shown := shown s; loading := true; error := error s;
                  cache := cache s |} in
      if aborted e then s
      else
        match fetch e (request_body f) with
        | Rejected => failed s
        | Answered data =>
            match present f data with
            | Throw _ => failed s
            | Ok filtered =>
                {| shown := filtered; loading := false; error := error s;
                   cache := <[key f := filtered]> (cache s) |}
            end
        end
  end.

End LaneListMockup.

(** The page's request as the route receives it, and the page's fetch
    when the route runs from [st] in [env]. *)
Definition page_request (f : LaneListMockup.Filters)
    (headers : string -> option string) : Search.Request :=
  {| Search.req_json := Ok (LaneListMockup.request_body f);
     Search.req_header := headers |}.

Definition served_by (env : Search.Env) (st : Search.State)
    (headers : string -> option string) (json : jsval)
  : LaneListMockup.Fetched :=
  match Search.POST {| Search.req_json := Ok json;
                       Search.req_header := headers |} env st with
  | (Ok r, _) => LaneListMockup.Answered (wire (body r))
  | (Throw _, _) => LaneListMockup.Rejected
  end.

(** What the page keeps of a carrier list when the verified-only box is
    ticked. *)
Definition verified_only (l : list jsval) : list jsval :=
  List.filter (fun c => match get "verified" c with
                        | Some v => truthy_val v
                        | None => false
                        end) l.

(** The separator of the cache key occurs in no field of [f]. *)
Definition separator_free (f : LaneListMockup.Filters) : Prop :=
  occurs "|" (LaneListMockup.selectedType f) = false
  /\ occurs "|" (LaneListMockup.origin f) = false
  /\ occurs "|" (LaneListMockup.destination f) = false.

(** The page as it is first rendered. *)
Definition first_render : LaneListMockup.State :=
  {| LaneListMockup.shown :=
       {| LaneListMockup.results := []; LaneListMockup.usedAi := false;
          LaneListMockup.notice := VStr "" |};
     LaneListMockup.loading := false;
     LaneListMockup.error := "";
     LaneListMockup.cache := ∅ |}.

Definition verified_trucks : LaneListMockup.Filters :=
  {| LaneListMockup.selectedType := "truck";
     LaneListMockup.origin := "";
     LaneListMockup.destination := "";
     LaneListMockup.showVerifiedOnly := true |}.

(** ** The contact form: [app/contact/ContactForm.tsx] *)

Module ContactForm.

Record FormState := {
  name : string;
  email : string;
  company : string;
  phone : string;
  subject : string;
  message : string;
  consent : bool;
  (** Honeypot (bot trap) *)
  companyWebsite : string
}.

Definition blank : FormState :=
  {| name := ""; email := ""; company := ""; phone := "";
     subject := "General question"; message := ""; consent := false;
     companyWebsite := "" |}.

Record State := {
  form : FormState;
  loading : bool;
  success : option string;
  error : option string
}.

(** [JSON.stringify(form)], as [req.json()] reads it back. *)
Definition request_body (f : FormState) : jsval :=
  wire (VObj [("name", VStr (name f));
              ("email", VStr (email f));
              ("company", VStr (company f));
              ("phone", VStr (phone f));
              ("subject", VStr (subject f));
              ("message", VStr (message f));
              ("consent", VBool (consent f));
              ("companyWebsite", VStr (companyWebsite f))]).

(** What a rejected [fetch] throws. *)
Inductive Thrown :=
| ErrorObject (message : string)
| ThrownString (s : string)
| ThrownOther.

(** [await fetch(...)]: a response, with its status and the outcome of
    [res.json()], or a rejection. *)
Inductive Fetched :=
| Responded (status : Z) (json : result jsval)
| Failed (err : Thrown).

Record Env := {
  fetch : jsval -> Fetched;
  (** [String(v)] for a value that is not a string, as [new Error(v)]
      converts its message *)
  String_of : jsval -> string
}.

(** [res.ok] *)
Definition res_ok (status : Z) : bool := (200 <=? status) && (status <=? 299).

(** [data?.error || "Failed to send. Please try again."], as the message
    of the [Error] that is thrown. *)
Definition error_message (e : Env) (data : jsval) : string :=
  match (if nullish data then None else get "error" data) with
  | Some (VStr s) => if String.eqb s "" then "Failed to send. Please try again." else s
  | Some v => if truthy_val v then String_of e v else "Failed to send. Please try again."
  | None => "Failed to send. Please try again."
  end.

Definition onSubmit (e : Env) (s : State) : State :=
  (* setLoading(true); setError(null); setSuccess(null) *)
  let s := {| form := form s; loading := true; success := None; error := None |} in
  match fetch e (request_body (form s)) with
  | Failed err =>
      {| form := form s; loading := false; success := success s;
         error :=
           Some match err with
                | ErrorObject msg => msg
                | ThrownString str => str
                | ThrownOther => "Something went wrong."
                end |}
  | Responded status json =>
      if negb (res_ok status) then
        (* res.json().catch(() => ({})) *)
        let data := match json with Ok d => d | Throw _ => VObj [] end in
        {| form := form s; loading := false; success := success s;
           error := Some (error_message e data) |}
      else
        {| form := blank; loading := false;
           success := Some "Thanks! Your message has been sent.";
           error := error s |}
  end.

End ContactForm.

(** The form's fetch when the contact route runs from [st] in [env]. *)
Definition contact_request (json : jsval)
    (headers : string -> option string) : Contact.Request :=
  {| Contact.req_json := Ok json; Contact.req_header := headers |}.

Definition contact_served_by (env : Contact.Env) (st : Contact.State)
    (headers : string -> option string) (json : jsval)
  : ContactForm.Fetched :=
  match Contact.POST (contact_request json headers) env st with
  | (Ok r, _) => ContactForm.Responded (status r) (Ok (wire (body r)))
  | (Throw _, _) => ContactForm.Responded 500 (Throw "SyntaxError")
  end.

(** * Properties *)

(** ** Rate limiter *)

Section RateLimiter.
Import Search.

Lemma allowAiCall_step key now (m : gmap string Bucket) :
  let b := default {| count := 0; since := now |} (m !! key) in
  let expired := aiWindowMs <? now - since b in
  let b' := {| count := (if expired then 0 else count b) + 1;
               since := if expired then now else since b |} in
  allowAiCall key now m = (count b' <=? aiMaxCalls, <[key := b']> m).
Proof.
  cbv zeta. unfold allowAiCall.
  destruct (aiWindowMs <? now - since (default _ (m !! key))); reflexivity.
Qed.

Lemma allowAiCall_other key key' now (m : gmap string Bucket) :
  key <> key' -> snd (allowAiCall key now m) !! key' = m !! key'.
Proof.
  intros Hne. unfold allowAiCall. cbn. by rewrite lookup_insert_ne.
Qed.

Lemma allowAiCall_in_window key now b (m : gmap string Bucket) :
  m !! key = Some b ->
  now - since b <= aiWindowMs ->
  allowAiCall key now m
    = (count b + 1 <=? aiMaxCalls,
       <[key := {| count := count b + 1; since := since b |}]> m).
Proof.
  intros Hm Hin. rewrite allowAiCall_step, Hm. cbn.
  assert ((aiWindowMs <? now - since b) = false) as -> by (apply Z.ltb_ge; lia).
  reflexivity.
Qed.

Lemma allowAiCall_opens key now (m : gmap string Bucket) :
  opens_window key now m ->
  allowAiCall key now m = (true, <[key := {| count := 1; since := now |}]> m).
Proof.
  unfold opens_window. intros Hopen. rewrite allowAiCall_step.
  destruct (m !! key) as [b|]; cbn.
  - apply Z.ltb_lt in Hopen. rewrite Hopen. reflexivity.
  - rewrite Z.sub_diag. reflexivity.
Qed.

(** Inside a window that began at [t0], with [k] calls counted so far,
    the next calls are answered by comparing their rank with the cap. *)
Lemma calls_in_window key t0 ts : forall k (m : gmap string Bucket),
  m !! key = Some {| count := k; since := t0 |} ->
  Forall (fun t => t - t0 <= aiWindowMs) ts ->
  fst (calls key ts m)
    = map (fun i => k + Z.of_nat i + 1 <=? aiMaxCalls) (seq 0 (List.length ts))
  /\ snd (calls key ts m) !! key
      = Some {| count := k + Z.of_nat (List.length ts); since := t0 |}.
Proof.
  induction ts as [|t ts IH]; intros k m Hm Hin.
  - cbn. split; [reflexivity|]. rewrite Hm. do 2 f_equal. lia.
  - apply Forall_cons in Hin as [Ht Hin].
    cbn [calls]. rewrite (allowAiCall_in_window _ _ _ _ Hm Ht). cbn [since count].
    specialize (IH (k + 1) (<[key := {| count := k + 1; since := t0 |}]> m)).
    destruct IH as [IH1 IH2]; [apply lookup_insert_eq | assumption |].
    destruct (calls key ts _) as [oks m''] eqn:E. cbn [fst snd] in *.
    split.
    + cbn [List.length seq map]. f_equal.
      * f_equal. lia.
      * rewrite IH1. rewrite <- seq_shift, map_map.
        apply map_ext. intros i. f_equal. lia.
    + rewrite IH2. do 2 f_equal. cbn [List.length]. lia.
Qed.

(** C5.  Each call of [allowAiCall] resets the bucket of its key when
    strictly more than 60,000 ms have passed since the stored window
    start, then increments the count and answers whether the count is at
    most 20.  Hence, from a call at [t0] that starts a window, as long as
    the following calls stay inside that window, exactly the first 20 calls
    are allowed and every later one (the 21st first) is denied; and a call
    made once the window has elapsed is allowed again. *)
Theorem allowAiCall_fixed_window key (m : gmap string Bucket) t0 ts :
  opens_window key t0 m ->
  Forall (fun t => t - t0 <= aiWindowMs) ts ->
  aiWindowMs = 60000 /\ aiMaxCalls = 20
  /\ (forall now (m' : gmap string Bucket),
        let b := default {| count := 0; since := now |} (m' !! key) in
        let expired := aiWindowMs <? now - since b in
        let b' := {| count := (if expired then 0 else count b) + 1;
                     since := if expired then now else since b |} in
        allowAiCall key now m' = (count b' <=? aiMaxCalls, <[key := b']> m'))
  /\ fst (calls key (t0 :: ts) m)
      = map (fun i => (i <? 20)%nat) (seq 0 (S (List.length ts)))
  /\ (forall t', aiWindowMs < t' - t0 ->
        fst (allowAiCall key t' (snd (calls key (t0 :: ts) m))) = true).
Proof.
  intros Hopen Hin. split; [reflexivity|]. split; [reflexivity|].
  split; [intros; apply allowAiCall_step|].
  cbn [calls]. rewrite (allowAiCall_opens _ _ _ Hopen).
  destruct (calls_in_window key t0 ts 1
              (<[key := {| count := 1; since := t0 |}]> m)) as [H1 H2];
    [apply lookup_insert_eq | assumption |].
  destruct (calls key ts _) as [oks m''] eqn:E. cbn [fst snd] in *.
  split.
  - cbn [seq map]. f_equal. rewrite H1, <- seq_shift, map_map.
    apply map_ext. intros i. unfold aiMaxCalls.
    destruct (Nat.ltb_spec (S i) 20); [apply Z.leb_le | apply Z.leb_gt]; lia.
  - intros t' Ht'. rewrite allowAiCall_opens; [reflexivity|].
    unfold opens_window. rewrite H2. exact Ht'.
Qed.

Lemma allowAiCall_fixed_window_example :
  fst (calls "203.0.113.7" (1000 :: repeat 1500 20) ∅)
    = (repeat true 20 ++ [false])%list
  /\ fst (allowAiCall "203.0.113.7" 61001
            (snd (calls "203.0.113.7" (1000 :: repeat 1500 20) ∅))) = true.
Proof.
  destruct (allowAiCall_fixed_window "203.0.113.7" ∅ 1000 (repeat 1500 20))
    as (_ & _ & _ & Hfirst & Hagain).
  - exact I.
  - repeat constructor; unfold aiWindowMs; lia.
  - split; [exact Hfirst | apply Hagain; unfold aiWindowMs; lia].
Defined.

End RateLimiter.

(** ** Output validator: the schema interpreter *)

Section AjvFacts.
Import Ajv.

Scheme schema_props_ind := Induction for schema Sort Prop
  with props_schema_ind := Induction for props Sort Prop.
Combined Scheme schema_mutind from schema_props_ind, props_schema_ind.

Lemma lookup_prop_app k f1 f2 :
  lookup_prop k (f1 ++ f2) =
    match lookup_prop k f1 with
    | Some v => Some v
    | None => lookup_prop k f2
    end.
Proof.
  induction f1 as [|[k' v'] f1 IH]; cbn; [reflexivity|].
  destruct (String.eqb k k'); [reflexivity | exact IH].
Qed.

Lemma lookup_set_prop_eq k v fs : lookup_prop k (set_prop k v fs) = Some v.
Proof.
  induction fs as [|[k' v'] fs IH]; cbn.
  - rewrite String.eqb_refl. reflexivity.
  - destruct (String.eqb k k') eqn:E; cbn; rewrite E; [reflexivity | exact IH].
Qed.

Lemma lookup_set_prop_ne k k' v fs :
  String.eqb k' k = false ->
  lookup_prop k' (set_prop k v fs) = lookup_prop k' fs.
Proof.
  intros Hne. induction fs as [|[k0 v0] fs IH]; cbn.
  - rewrite Hne. reflexivity.
  - destruct (String.eqb k k0) eqn:E; cbn.
    + apply String.eqb_eq in E. subst k0. rewrite Hne. reflexivity.
    + destruct (String.eqb k' k0); [reflexivity | exact IH].
Qed.

Lemma set_prop_keys k v v0 fs :
  lookup_prop k fs = Some v0 -> map fst (set_prop k v fs) = map fst fs.
Proof.
  induction fs as [|[k' v'] fs IH]; cbn; [discriminate|].
  destruct (String.eqb k k') eqn:E; cbn; [reflexivity|].
  intros H. f_equal. apply IH, H.
Qed.

Lemma set_prop_same k v fs :
  lookup_prop k fs = Some v -> set_prop k v fs = fs.
Proof.
  induction fs as [|[k' v'] fs IH]; cbn; [discriminate|].
  destruct (String.eqb k k') eqn:E.
  - intros [= ->]. reflexivity.
  - intros H. f_equal. apply IH, H.
Qed.

Lemma set_prop_app k v f1 f2 :
  set_prop k v (f1 ++ f2) =
    match lookup_prop k f1 with
    | Some _ => (set_prop k v f1 ++ f2)%list
    | None => (f1 ++ set_prop k v f2)%list
    end.
Proof.
  induction f1 as [|[k' v'] f1 IH]; cbn; [reflexivity|].
  destruct (String.eqb k k') eqn:E; cbn; [reflexivity|].
  rewrite IH. destruct (lookup_prop k f1); reflexivity.
Qed.

Lemma get_VObj k fs :
  get k (VObj fs) =
    match lookup_prop k fs with
    | Some VUndef => None
    | r => r
    end.
Proof. reflexivity. Qed.

Lemma get_Some_lookup k fs v :
  get k (VObj fs) = Some v -> lookup_prop k fs = Some v /\ v <> VUndef.
Proof.
  rewrite get_VObj. destruct (lookup_prop k fs) as [[]|]; intros [= <-]; split; congruence.
Qed.

Lemma get_set_prop_ne k k' v fs :
  String.eqb k' k = false ->
  get k' (VObj (set_prop k v fs)) = get k' (VObj fs).
Proof. intros H. rewrite !get_VObj, lookup_set_prop_ne by exact H. reflexivity. Qed.

Lemma lookup_prop_filter_known k ps fs :
  has_prop k ps = true ->
  lookup_prop k (List.filter (fun kv => has_prop (fst kv) ps) fs) = lookup_prop k fs.
Proof.
  intros Hk. induction fs as [|[k' v'] fs IH]; cbn; [reflexivity|].
  destruct (String.eqb k k') eqn:E.
  - apply String.eqb_eq in E. subst k'. rewrite Hk. cbn. rewrite String.eqb_refl. reflexivity.
  - destruct (has_prop k' ps); cbn; [rewrite E|]; exact IH.
Qed.

Lemma find_prop_has k ps sub : find_prop k ps = Some sub -> has_prop k ps = true.
Proof.
  induction ps as [|k' s rest IH]; cbn; [discriminate|].
  destruct (String.eqb k k'); [reflexivity|]. exact IH.
Qed.

Lemma validate_array items path l :
  validate (SArray items) path (VArr l)
    = (fst (each_of items path l 0%nat), VArr (snd (each_of items path l 0%nat))).
Proof. reflexivity. Qed.

Lemma validate_object a req ps path fs :
  validate (SObject a req ps) path (VObj fs)
    = let kept := List.filter (fun kv => has_prop (fst kv) ps) fs in
      let r := validate_props ps path kept in
      (app (flat_map
              (fun r =>
                 if is_some (get r (VObj fs)) then []
                 else [{| instancePath := path;
                          message := "must have required property '" ++ r ++ "'" |}])
              req) (fst r),
       VObj (snd r)).
Proof. cbn. destruct (validate_props ps path _); reflexivity. Qed.

Lemma validate_props_cons k s rest path fs :
  validate_props (PCons k s rest) path fs
    = match get k (VObj fs) with
      | Some v =>
          let r := validate s (path ++ "/" ++ k) v in
          let r' := validate_props rest path (set_prop k (snd r) fs) in
          (app (fst r) (fst r'), snd r')
      | None => validate_props rest path fs
      end.
Proof.
  cbn [validate_props]. destruct (get k (VObj fs)); [|reflexivity].
  destruct (validate s _ j). cbn. destruct (validate_props rest path _). reflexivity.
Qed.

Lemma each_of_cons items path x xs i :
  each_of items path (x :: xs) i
    = let r := validate items (path ++ "/" ++ string_of_Z (Z.of_nat i)) x in
      let r' := each_of items path xs (S i) in
      (app (fst r) (fst r'), snd r :: snd r').
Proof.
  change (each_of items path (x :: xs) i)
    with (let (e, x') := validate items (path ++ "/" ++ string_of_Z (Z.of_nat i)) x in
          let (es, xs') := each_of items path xs (S i) in
          (app e es, x' :: xs')).
  destruct (validate items _ x). destruct (each_of items path xs (S i)). reflexivity.
Qed.

Lemma filter_all {A} (f : A -> bool) l : forallb f l = true -> List.filter f l = l.
Proof.
  induction l as [|x l IH]; cbn; [reflexivity|].
  intros [Hx Hl]%andb_prop. rewrite Hx. f_equal. auto.
Qed.

(** A pruned value comes back from the validator as it went in. *)
Lemma validate_pruned_id :
  (forall s path d, pruned s d = true -> snd (validate s path d) = d)
  /\ (forall ps path fs,
        pruned_props ps (VObj fs) = true -> snd (validate_props ps path fs) = fs).
Proof.
  apply schema_mutind.
  - reflexivity.
  - intros items IH path d Hd. destruct d; try reflexivity.
    rewrite validate_array. cbn [snd]. f_equal. cbn [pruned] in Hd.
    generalize 0%nat. induction l as [|x l IHl]; intros i; [reflexivity|].
    cbn [forallb] in Hd. apply andb_prop in Hd as [Hx Hl].
    rewrite each_of_cons. cbn [snd]. rewrite IH by exact Hx. f_equal. apply IHl, Hl.
  - intros a req ps IH path d Hd. destruct d; try reflexivity.
    rewrite validate_object. cbn [snd]. cbn [pruned] in Hd.
    apply andb_prop in Hd as [Hk Hp]. rewrite (filter_all _ _ Hk).
    f_equal. apply IH, Hp.
  - reflexivity.
  - intros k s IHs rest IHrest path fs Hp. cbn [pruned_props] in Hp.
    apply andb_prop in Hp as [Hv Hrest]. rewrite validate_props_cons.
    destruct (get k (VObj fs)) as [v|] eqn:G; [|apply IHrest, Hrest].
    cbn [snd]. rewrite IHs by exact Hv.
    apply get_Some_lookup in G as [G _]. rewrite (set_prop_same _ _ _ G).
    apply IHrest, Hrest.
Qed.

Lemma app_nil_iff {A} (l1 l2 : list A) : (l1 ++ l2)%list = [] <-> l1 = [] /\ l2 = [].
Proof.
  split; [apply app_eq_nil | intros [-> ->]; reflexivity].
Qed.

Lemma missing_nil_iff path req d :
  flat_map
    (fun r =>
       if is_some (get r d) then []
       else [{| instancePath := path;
                message := "must have required property '" ++ r ++ "'" |}])
    req = []
  <-> forallb (fun r => is_some (get r d)) req = true.
Proof.
  induction req as [|r req IH]; cbn; [tauto|].
  destruct (is_some (get r d)); cbn; [exact IH|].
  split; discriminate.
Qed.

Lemma conforms_props_set_prop k v ps fs :
  has_prop k ps = false ->
  conforms_props ps (VObj (set_prop k v fs)) = conforms_props ps (VObj fs).
Proof.
  induction ps as [|k' s rest IH]; cbn [conforms_props has_prop]; [reflexivity|].
  intros [Hk Hrest]%orb_false_elim.
  rewrite get_set_prop_ne, IH; [reflexivity | exact Hrest |].
  rewrite String.eqb_sym. exact Hk.
Qed.

Lemma conforms_props_filter ps ps' fs :
  (forall k, has_prop k ps' = true -> has_prop k ps = true) ->
  conforms_props ps' (VObj (List.filter (fun kv => has_prop (fst kv) ps) fs))
    = conforms_props ps' (VObj fs).
Proof.
  induction ps' as [|k s rest IH]; cbn [conforms_props]; [reflexivity|].
  intros Hsub. rewrite IH.
  - rewrite !get_VObj, lookup_prop_filter_known; [reflexivity|].
    apply Hsub. cbn. rewrite String.eqb_refl. reflexivity.
  - intros k' Hk'. apply Hsub. cbn. rewrite Hk'. apply orb_true_r.
Qed.

(** The validator reports no error exactly on the values that conform. *)
Lemma validate_conforms :
  (forall s, wf s = true -> forall path d,
      fst (validate s path d) = [] <-> conforms s d = true)
  /\ (forall ps, wf_props ps = true -> forall path fs,
        fst (validate_props ps path fs) = []
        <-> conforms_props ps (VObj fs) = true).
Proof.
  apply schema_mutind.
  - intros nullable enum _ path d. cbn.
    destruct (string_type_ok nullable d), (enum_ok enum d); cbn;
      split; (reflexivity || discriminate).
  - intros items IH Hwf path d. cbn [wf] in Hwf.
    destruct d; try (cbn; split; discriminate).
    rewrite validate_array. cbn [fst conforms].
    generalize 0%nat. induction l as [|x l IHl]; intros i; [cbn; tauto|].
    rewrite each_of_cons. cbn [fst forallb].
    rewrite app_nil_iff, andb_true_iff, (IH Hwf), IHl. reflexivity.
  - intros a req ps IH Hwf path d. cbn [wf] in Hwf.
    apply andb_prop in Hwf as [_ Hwf].
    destruct d; try (cbn; split; discriminate).
    rewrite validate_object. cbn [fst conforms].
    rewrite app_nil_iff, andb_true_iff, missing_nil_iff, (IH Hwf).
    rewrite conforms_props_filter by auto. reflexivity.
  - intros _ path fs. cbn. tauto.
  - intros k s IHs rest IHrest Hwf path fs. cbn [wf_props] in Hwf.
    apply andb_prop in Hwf as [[Hk Hs]%andb_prop Hrest].
    apply negb_true_iff in Hk.
    rewrite validate_props_cons. cbn [conforms_props].
    destruct (get k (VObj fs)) as [v|] eqn:G.
    + cbn [fst]. rewrite app_nil_iff, andb_true_iff, (IHs Hs), (IHrest Hrest).
      rewrite conforms_props_set_prop by exact Hk. reflexivity.
    + rewrite (IHrest Hrest). cbn. reflexivity.
Qed.

Lemma validate_props_keys ps : forall path fs,
  map fst (snd (validate_props ps path fs)) = map fst fs.
Proof.
  induction ps as [|k s rest IH]; intros path fs; [reflexivity|].
  rewrite validate_props_cons.
  destruct (get k (VObj fs)) as [v|] eqn:G; [|apply IH].
  cbn [snd]. rewrite IH. apply get_Some_lookup in G as [G _].
  eapply set_prop_keys, G.
Qed.

Lemma validate_props_get_other k ps : forall path fs,
  has_prop k ps = false ->
  get k (VObj (snd (validate_props ps path fs))) = get k (VObj fs).
Proof.
  induction ps as [|k' s rest IH]; intros path fs Hk; [reflexivity|].
  cbn [has_prop] in Hk. apply orb_false_elim in Hk as [Hne Hrest].
  rewrite validate_props_cons.
  destruct (get k' (VObj fs)) as [v|] eqn:G; [|apply IH, Hrest].
  cbn [snd]. rewrite IH by exact Hrest. apply get_set_prop_ne, Hne.
Qed.

Lemma forallb_keys (f : string -> bool) (fs fs' : list (string * jsval)) :
  map fst fs' = map fst fs ->
  forallb (fun kv => f (fst kv)) fs = true ->
  forallb (fun kv => f (fst kv)) fs' = true.
Proof.
  revert fs'. induction fs as [|[k v] fs IH]; intros [|[k' v'] fs']; cbn;
    try discriminate; [reflexivity|].
  intros [= -> Hm] [Hk Hfs]%andb_prop. rewrite Hk. cbn. apply IH; assumption.
Qed.

Lemma forallb_filter {A} (f : A -> bool) l : forallb f (List.filter f l) = true.
Proof.
  induction l as [|x l IH]; cbn; [reflexivity|].
  destruct (f x) eqn:E; cbn; [rewrite E|]; exact IH.
Qed.

(** What the validator hands back is pruned. *)
Lemma validate_pruned :
  (forall s, wf s = true -> forall path d,
      pruned s (snd (validate s path d)) = true)
  /\ (forall ps, wf_props ps = true -> forall path fs,
        pruned_props ps (VObj (snd (validate_props ps path fs))) = true).
Proof.
  apply schema_mutind.
  - reflexivity.
  - intros items IH Hwf path d. cbn [wf] in Hwf.
    destruct d; try reflexivity.
    rewrite validate_array. cbn [snd pruned].
    generalize 0%nat. induction l as [|x l IHl]; intros i; [reflexivity|].
    rewrite each_of_cons. cbn [snd forallb]. rewrite (IH Hwf), IHl. reflexivity.
  - intros a req ps IH Hwf path d. cbn [wf] in Hwf.
    apply andb_prop in Hwf as [_ Hwf].
    destruct d; try reflexivity.
    rewrite validate_object. cbn [snd pruned].
    rewrite (IH Hwf), andb_true_r.
    apply (forallb_keys (fun k => has_prop k ps)
             (List.filter (fun kv => has_prop (fst kv) ps) ps0));
      [apply validate_props_keys|].
    apply (forallb_filter (fun kv => has_prop (fst kv) ps)).
  - reflexivity.
  - intros k s IHs rest IHrest Hwf path fs. cbn [wf_props] in Hwf.
    apply andb_prop in Hwf as [[Hk Hs]%andb_prop Hrest].
    apply negb_true_iff in Hk.
    rewrite validate_props_cons. cbn [pruned_props].
    destruct (get k (VObj fs)) as [v|] eqn:G.
    + cbn [snd]. rewrite (IHrest Hrest), andb_true_r.
      rewrite validate_props_get_other by exact Hk.
      rewrite get_VObj, lookup_set_prop_eq.
      specialize (IHs Hs (path ++ "/" ++ k) v).
      destruct (snd (validate s (path ++ "/" ++ k) v)); try exact IHs; reflexivity.
    + rewrite (IHrest Hrest), andb_true_r.
      rewrite validate_props_get_other by exact Hk. rewrite G. reflexivity.
Qed.

Lemma inject_defined s v v' : inject s v v' -> v <> VUndef /\ v' <> VUndef.
Proof. intros []; split; discriminate. Qed.

Lemma wf_find_prop k ps sub :
  wf_props ps = true -> find_prop k ps = Some sub -> wf sub = true.
Proof.
  induction ps as [|k' s rest IH]; cbn; [discriminate|].
  intros [[_ Hs]%andb_prop Hrest]%andb_prop.
  destruct (String.eqb k k'); [intros [= <-]; exact Hs | apply IH, Hrest].
Qed.

Lemma lookup_prop_filter_none (g : string * jsval -> bool) k fs :
  lookup_prop k fs = None -> lookup_prop k (List.filter g fs) = None.
Proof.
  induction fs as [|[k' v'] fs IH]; cbn; [reflexivity|].
  destruct (String.eqb k k') eqn:E; [discriminate|].
  intros H. destruct (g (k', v')); cbn; [rewrite E|]; apply IH, H.
Qed.

Lemma get_app_mid k f1 f2 x :
  lookup_prop k f1 = None -> x <> VUndef ->
  get k (VObj (f1 ++ (k, x) :: f2)) = Some x.
Proof.
  intros H Hx. rewrite get_VObj, lookup_prop_app, H. cbn.
  rewrite String.eqb_refl. destruct x; congruence.
Qed.

Lemma get_app_other k k0 f1 f2 x y :
  String.eqb k0 k = false ->
  get k0 (VObj (f1 ++ (k, x) :: f2)) = get k0 (VObj (f1 ++ (k, y) :: f2)).
Proof.
  intros H. rewrite !get_VObj, !lookup_prop_app. cbn. rewrite H. reflexivity.
Qed.

Lemma validate_props_inject ps : forall path f1 f2 k sub v v',
  find_prop k ps = Some sub ->
  lookup_prop k f1 = None ->
  v <> VUndef -> v' <> VUndef ->
  (forall path, validate sub path v' = validate sub path v) ->
  validate_props ps path (f1 ++ (k, v') :: f2)
    = validate_props ps path (f1 ++ (k, v) :: f2).
Proof.
  induction ps as [|k0 s0 rest IH]; intros path f1 f2 k sub v v' Hfind Hf1 Hv Hv' Hsub;
    [discriminate Hfind|].
  cbn [find_prop] in Hfind. rewrite !validate_props_cons.
  destruct (String.eqb k k0) eqn:E.
  - apply String.eqb_eq in E. subst k0. injection Hfind as ->.
    rewrite !get_app_mid by assumption. cbv zeta. rewrite Hsub.
    rewrite !set_prop_app, Hf1. cbn [set_prop]. rewrite String.eqb_refl. reflexivity.
  - assert (String.eqb k0 k = false) as E' by (rewrite String.eqb_sym; exact E).
    rewrite (get_app_other k k0 f1 f2 v' v E').
    destruct (get k0 (VObj (f1 ++ (k, v) :: f2))) as [v0|]; [|eapply IH; eassumption].
    cbn zeta. rewrite !set_prop_app.
    destruct (lookup_prop k0 f1) eqn:L.
    + rewrite (IH path (set_prop k0 (snd (validate s0 (path ++ "/" ++ k0) v0)) f1)
                 f2 k sub v v' Hfind); try assumption; [reflexivity|].
      rewrite lookup_set_prop_ne by exact E. exact Hf1.
    + cbn [set_prop]. rewrite E'.
      rewrite (IH path f1
                 (set_prop k0 (snd (validate s0 (path ++ "/" ++ k0) v0)) f2)
                 k sub v v' Hfind); try assumption; reflexivity.
Qed.

Lemma each_of_inject items path v v' l2 :
  (forall path, validate items path v' = validate items path v) ->
  forall l1 i,
    each_of items path (l1 ++ v' :: l2) i = each_of items path (l1 ++ v :: l2) i.
Proof.
  intros H. induction l1 as [|x l1 IH]; intros i.
  - cbn [app]. rewrite !each_of_cons, H. reflexivity.
  - cbn [app]. rewrite !each_of_cons, IH. reflexivity.
Qed.

Lemma required_inject_here req ps f1 f2 k v :
  forallb (fun r => has_prop r ps) req = true ->
  has_prop k ps = false ->
  forall g : string -> list error,
  flat_map (fun r => if is_some (get r (VObj (f1 ++ (k, v) :: f2))) then [] else g r) req
  = flat_map (fun r => if is_some (get r (VObj (f1 ++ f2))) then [] else g r) req.
Proof.
  intros Hreq Hk g. induction req as [|r req IH]; [reflexivity|].
  cbn [forallb] in Hreq. apply andb_prop in Hreq as [Hr Hreq].
  cbn [flat_map]. rewrite IH by exact Hreq. f_equal.
  assert (String.eqb r k = false) as E.
  { destruct (String.eqb r k) eqn:E; [|reflexivity].
    apply String.eqb_eq in E. congruence. }
  rewrite !get_VObj, !lookup_prop_app. cbn. rewrite E. reflexivity.
Qed.

Lemma required_inject_prop req f1 f2 k v v' :
  lookup_prop k f1 = None -> v <> VUndef -> v' <> VUndef ->
  forall g : string -> list error,
  flat_map (fun r => if is_some (get r (VObj (f1 ++ (k, v') :: f2))) then [] else g r) req
  = flat_map (fun r => if is_some (get r (VObj (f1 ++ (k, v) :: f2))) then [] else g r) req.
Proof.
  intros Hf1 Hv Hv' g. induction req as [|r req IH]; [reflexivity|].
  cbn [flat_map]. rewrite IH. f_equal.
  destruct (String.eqb r k) eqn:E.
  - apply String.eqb_eq in E. subst r. rewrite !get_app_mid by assumption. reflexivity.
  - rewrite (get_app_other k r f1 f2 v' v E). reflexivity.
Qed.

(** A property the schema does not name changes nothing: neither the
    errors nor the value handed back. *)
Lemma validate_inject s d d' :
  inject s d d' -> wf s = true ->
  forall path, validate s path d' = validate s path d.
Proof.
  induction 1 as [a req ps f1 f2 k v Hk
                 |a req ps f1 f2 k sub v v' Hfind Hf1 Hinj IH
                 |items l1 l2 v v' Hinj IH];
    intros Hwf path; cbn [wf] in Hwf.
  - apply andb_prop in Hwf as [Hreq _].
    rewrite !validate_object. cbv zeta.
    rewrite (required_inject_here req ps f1 f2 k v Hreq Hk).
    rewrite !List.filter_app. cbn [List.filter fst]. rewrite Hk. reflexivity.
  - apply andb_prop in Hwf as [_ Hps].
    destruct (inject_defined _ _ _ Hinj) as [Hv Hv'].
    rewrite !validate_object. cbv zeta.
    rewrite (required_inject_prop req f1 f2 k v v' Hf1 Hv Hv').
    rewrite !List.filter_app. cbn [List.filter fst].
    rewrite (find_prop_has _ _ _ Hfind).
    rewrite (validate_props_inject ps path _ _ k sub v v' Hfind); try assumption.
    + reflexivity.
    + apply lookup_prop_filter_none, Hf1.
    + apply IH. eapply wf_find_prop; eassumption.
  - rewrite !validate_array, (each_of_inject items path v v' l2 (IH Hwf)).
    reflexivity.
Qed.

End AjvFacts.

(** ** Output validator: the carrier schema *)

Section CarrierSchema.
Import Ajv Search.

Lemma carriersJsonSchema_wf : wf carriersJsonSchema = true.
Proof. reflexivity. Qed.

Lemma is_lane_conforms v : is_lane v = true -> conforms laneSchema v = true.
Proof.
  destruct v; try discriminate. unfold is_lane, required_string, is_string.
  cbn [conforms conforms_props laneSchema forallb string_type_ok enum_ok].
  destruct (get "origin" (VObj ps)) as [[]|]; try discriminate;
    destruct (get "destination" (VObj ps)) as [[]|]; try discriminate;
    reflexivity.
Qed.

Lemma is_transport_type_conforms v :
  is_transport_type v = true ->
  conforms (SString false (Some transportTypes)) v = true.
Proof. destruct v; try discriminate. cbn. intros ->. reflexivity. Qed.

Lemma forallb_impl {A} (f g : A -> bool) l :
  (forall x, f x = true -> g x = true) ->
  forallb f l = true -> forallb g l = true.
Proof.
  intros H. induction l as [|x l IH]; cbn; [reflexivity|].
  intros [Hx Hl]%andb_prop. rewrite (H _ Hx), (IH Hl). reflexivity.
Qed.

Lemma conforms_array items l :
  conforms (SArray items) (VArr l) = forallb (conforms items) l.
Proof. reflexivity. Qed.

Lemma conforms_itemSchema ps :
  conforms itemSchema (VObj ps)
  = (forallb (fun r => is_some (get r (VObj ps))) ["id"; "name"; "types"; "lanes"]
     && (match get "id" (VObj ps) with
         | Some v => conforms (SString false None) v
         | None => true
         end
     && (match get "name" (VObj ps) with
         | Some v => conforms (SString false None) v
         | None => true
         end
     && (match get "types" (VObj ps) with
         | Some v => conforms (SArray (SString false (Some transportTypes))) v
         | None => true
         end
     && (match get "lanes" (VObj ps) with
         | Some v => conforms (SArray laneSchema) v
         | None => true
         end
     && (match get "description" (VObj ps) with
         | Some v => conforms (SString true None) v
         | None => true
         end
     && (match get "logoEmoji" (VObj ps) with
         | Some v => conforms (SString true None) v
         | None => true
         end
     && true))))))).
Proof. reflexivity. Qed.

Lemma is_item_conforms v : is_item v = true -> conforms itemSchema v = true.
Proof.
  destruct v; try discriminate. intros H. rewrite conforms_itemSchema.
  unfold is_item, required_string, optional_string in H. cbn [forallb].
  destruct (get "id" (VObj ps)) as [[]|]; cbn [is_string andb] in H;
    try discriminate H.
  destruct (get "name" (VObj ps)) as [[]|]; cbn [is_string andb] in H;
    try discriminate H.
  destruct (get "types" (VObj ps)) as [[]|]; cbn [andb] in H;
    try discriminate H.
  destruct (get "lanes" (VObj ps)) as [[]|];
    rewrite ?andb_false_r in H; cbn [andb] in H; try discriminate H.
  apply andb_prop in H as [[[Hty Hla]%andb_prop Hd]%andb_prop Hl].
  rewrite !conforms_array.
  rewrite (forallb_impl _ _ _ is_transport_type_conforms Hty).
  rewrite (forallb_impl _ _ _ is_lane_conforms Hla).
  destruct (get "description" (VObj ps)) as [[]|]; try discriminate Hd;
    destruct (get "logoEmoji" (VObj ps)) as [[]|]; try discriminate Hl;
    reflexivity.
Qed.

Lemma satisfies_conforms p :
  satisfies_carrier_schema p = true -> conforms carriersJsonSchema p = true.
Proof.
  destruct p; try discriminate. unfold satisfies_carrier_schema.
  cbn [conforms conforms_props carriersJsonSchema forallb].
  destruct (get "items" (VObj ps)) as [[]|]; try discriminate.
  intros H. cbn [is_some andb].
  rewrite (forallb_impl _ _ _ is_item_conforms H). reflexivity.
Qed.

Lemma accepted_conforms p :
  fst (validateCarriers p) = [] <-> conforms carriersJsonSchema p = true.
Proof. apply (proj1 validate_conforms), carriersJsonSchema_wf. Qed.

(** C7.  (a) Every payload that satisfies the carrier schema is accepted.
    (b) Such a payload with one more, unknown property in any of its objects
    is accepted as well and comes back as the payload without that property:
    the validator answers as on the original payload, and a payload with no
    unknown property comes back unchanged.  (c) A payload with an item that
    lacks [lanes] is rejected, the error list being non-empty. *)
Theorem validateCarriers_round_trip :
  (forall p, satisfies_carrier_schema p = true -> fst (validateCarriers p) = [])
  /\ (forall p p',
        satisfies_carrier_schema p = true ->
        inject carriersJsonSchema p p' ->
        fst (validateCarriers p') = []
        /\ snd (validateCarriers p') = snd (validateCarriers p)
        /\ (pruned carriersJsonSchema p = true -> snd (validateCarriers p') = p))
  /\ (forall p items item,
        get "items" p = Some (VArr items) ->
        In item items ->
        get "lanes" item = None ->
        fst (validateCarriers p) <> []).
Proof.
  split; [|split].
  - intros p Hp. apply accepted_conforms, satisfies_conforms, Hp.
  - intros p p' Hp Hinj. unfold validateCarriers.
    rewrite (validate_inject _ _ _ Hinj carriersJsonSchema_wf).
    split; [apply accepted_conforms, satisfies_conforms, Hp|].
    split; [reflexivity|].
    intros Hpr. apply (proj1 validate_pruned_id), Hpr.
  - intros p items item Hitems Hin Hlanes Hacc.
    apply accepted_conforms in Hacc.
    destruct p; try discriminate.
    cbn [conforms conforms_props carriersJsonSchema forallb] in Hacc.
    rewrite Hitems in Hacc. cbn [is_some andb conforms] in Hacc.
    rewrite andb_true_r in Hacc.
    rewrite forallb_forall in Hacc. specialize (Hacc item Hin).
    destruct item; try discriminate.
    cbn [conforms itemSchema forallb] in Hacc. rewrite Hlanes in Hacc.
    cbn in Hacc. rewrite !andb_false_r in Hacc. discriminate.
Qed.

Lemma validateCarriers_round_trip_example :
  fst (Search.validateCarriers example_payload) = []
  /\ (fst (Search.validateCarriers example_payload_with_contact) = []
      /\ snd (Search.validateCarriers example_payload_with_contact)
         = example_payload)
  /\ fst (Search.validateCarriers example_payload_without_lanes) <> [].
Proof.
  destruct validateCarriers_round_trip as (Ha & Hb & Hc).
  split; [|split].
  - apply Ha. reflexivity.
  - destruct (Hb example_payload example_payload_with_contact) as (H1 & _ & H2).
    + reflexivity.
    + apply (inject_prop false ["items"] _ [] [] "items" (SArray itemSchema));
        [reflexivity | reflexivity |].
      apply (inject_elem itemSchema [] []).
      apply (inject_here false _ _ example_item_fields [] "contact").
      reflexivity.
    + split; [exact H1 | apply H2; reflexivity].
  - apply (Hc example_payload_without_lanes
             [VObj [("id", VStr "c-1"); ("name", VStr "Blue Freight");
                    ("types", VArr [VStr "truck"; VStr "reefer"])]]
             (VObj [("id", VStr "c-1"); ("name", VStr "Blue Freight");
                    ("types", VArr [VStr "truck"; VStr "reefer"])])).
    + reflexivity.
    + left. reflexivity.
    + reflexivity.
Defined.

End CarrierSchema.

(** ** Reasoning about runs *)

Section Post.
Context {E S : Type}.

Lemma post_ret {A} (a : A) (e : E) (s : S) Q Ex : Q a s -> post (ret a) e s Q Ex.
Proof. exact id. Qed.

Lemma post_throw {A} err (e : E) (s : S) (Q : A -> S -> Prop) Ex :
  Ex err s -> post (throw err) e s Q Ex.
Proof. exact id. Qed.

Lemma post_bind {A B} (m : M E S A) (f : A -> M E S B) e s Q Ex :
  post m e s (fun a s' => post (f a) e s' Q Ex) Ex -> post (bind m f) e s Q Ex.
Proof. unfold post, bind. destruct (m e s) as [[a|err] s']; exact id. Qed.

Lemma post_try_catch {A} (body : M E S A) handler e s Q Ex :
  post body e s Q (fun err s' => post (handler err) e s' Q Ex) ->
  post (try_catch body handler) e s Q Ex.
Proof. unfold post, try_catch. destruct (body e s) as [[a|err] s']; exact id. Qed.

Lemma post_ask (e : E) (s : S) Q Ex : Q e s -> post ask e s Q Ex.
Proof. exact id. Qed.

Lemma post_await {A} (r : result A) (e : E) (s : S) Q Ex :
  match r with Ok a => Q a s | Throw err => Ex err s end ->
  post (await r) e s Q Ex.
Proof. unfold post, await. destruct r; exact id. Qed.

Lemma post_weaken {A} (m : M E S A) e s (Q Q' : A -> S -> Prop) (Ex Ex' : string -> S -> Prop) :
  post m e s Q Ex ->
  (forall a s', Q a s' -> Q' a s') ->
  (forall err s', Ex err s' -> Ex' err s') ->
  post m e s Q' Ex'.
Proof. unfold post. destruct (m e s) as [[a|err] s']; auto. Qed.

Lemma post_returns {A} (m : M E S A) e s Q :
  post m e s Q (fun _ _ => False) ->
  exists a s', m e s = (Ok a, s') /\ Q a s'.
Proof. unfold post. destruct (m e s) as [[a|err] s']; [eauto | tauto]. Qed.

End Post.

(** ** The AI suggestion engine *)

Section SearchRoute.
Import Search.

Lemma post_Date_now env st (Q : Z -> State -> Prop) Ex :
  Q (clock env (clock_reads st)) (tick st) -> post Date_now env st Q Ex.
Proof. exact id. Qed.

Lemma post_console_log msg detail env st (Q : unit -> State -> Prop) Ex :
  Q tt (logged msg detail st) -> post (console_log msg detail) env st Q Ex.
Proof. exact id. Qed.

Lemma post_create strategy env st (Q : Completion -> State -> Prop) Ex :
  match openai_create env (List.length (provider_calls st)) strategy with
  | Ok c => Q c (called strategy st)
  | Throw err => Ex err (called strategy st)
  end ->
  post (create strategy) env st Q Ex.
Proof.
  unfold post, create.
  destruct (openai_create env _ strategy); exact id.
Qed.

Lemma post_parse text env st (Q : jsval -> State -> Prop) Ex :
  match JSON_parse env text with
  | Ok v => Q v st
  | Throw err => Ex err st
  end ->
  post (parse text) env st Q Ex.
Proof. unfold post, parse. destruct (JSON_parse env text); exact id. Qed.

Lemma post_allowAiCallM key env st (Q : bool -> State -> Prop) Ex :
  (let r := allowAiCall key (clock env (clock_reads st)) (aiBucket st) in
   Q (fst r) (with_aiBucket (snd r) (tick st))) ->
  post (allowAiCallM key) env st Q Ex.
Proof. exact id. Qed.


Lemma stub_run params reason env st :
  stub params reason env st
    = stubSuggestion params env (logged "AI: returning stub —" reason st).
Proof. reflexivity. Qed.

Lemma stubSuggestion_run params env st :
  exists item,
    stubSuggestion params env st = (Ok [item], tick st)
    /\ ai_item item.
Proof.
  eexists. split; [reflexivity|]. repeat split.
Qed.

Lemma stubSuggestion_good params env st :
  exists l, stubSuggestion params env st = (Ok l, tick st) /\ good params l.
Proof.
  destruct (stubSuggestion_run params env st) as (item & Hrun & Hitem).
  exists [item]. split; [exact Hrun|]. split; [cbn; lia|].
  split; [constructor; [exact Hitem | constructor]|].
  left. exists env, st. rewrite Hrun. reflexivity.
Qed.

Lemma post_stub params reason env st (Q : list jsval -> State -> Prop) Ex :
  (forall l, good params l ->
             Q l (tick (logged "AI: returning stub —" reason st))) ->
  post (stub params reason) env st Q Ex.
Proof.
  intros H. unfold post. rewrite stub_run.
  destruct (stubSuggestion_good params env (logged "AI: returning stub —" reason st))
    as (l & -> & Hl).
  apply H, Hl.
Qed.

Lemma lookup_prop_unknown (f : string -> bool) k fs :
  forallb (fun kv => f (fst kv)) fs = true -> f k = false ->
  lookup_prop k fs = None.
Proof.
  intros Hall Hk. induction fs as [|[k' v'] fs IH]; [reflexivity|].
  cbn in Hall. apply andb_prop in Hall as [Hk' Hfs]. cbn.
  destruct (String.eqb k k') eqn:E; [|apply IH, Hfs].
  apply String.eqb_eq in E. congruence.
Qed.

Lemma suggestion_of_ai_item x :
  Ajv.pruned itemSchema x = true -> ai_item (suggestion_of x).
Proof.
  intros Hx. unfold ai_item, suggestion_of.
  rewrite !get_VObj.
  rewrite (lookup_set_prop_ne "confidence" "source") by reflexivity.
  rewrite (lookup_set_prop_ne "confidence" "verified") by reflexivity.
  rewrite (lookup_set_prop_ne "source" "verified") by reflexivity.
  rewrite (lookup_set_prop_ne "confidence" "contact") by reflexivity.
  rewrite (lookup_set_prop_ne "source" "contact") by reflexivity.
  rewrite (lookup_set_prop_ne "verified" "contact") by reflexivity.
  rewrite !lookup_set_prop_eq.
  repeat split.
  destruct x; try reflexivity. cbn [own_props].
  cbn [Ajv.pruned itemSchema] in Hx. apply andb_prop in Hx as [Hx _].
  match type of Hx with
  | forallb (fun kv => Ajv.has_prop (fst kv) ?props) _ = true =>
      rewrite (lookup_prop_unknown (fun k => Ajv.has_prop k props)
                 "contact" ps Hx); reflexivity
  end.
Qed.

Lemma validated_items_pruned parsed items :
  get "items" (snd (validateCarriers parsed)) = Some (VArr items) ->
  forallb (Ajv.pruned itemSchema) items = true.
Proof.
  intros Hitems.
  pose proof (proj1 validate_pruned carriersJsonSchema carriersJsonSchema_wf "" parsed) as Hp.
  fold (validateCarriers parsed) in Hp.
  destruct (snd (validateCarriers parsed)); try discriminate.
  cbn [Ajv.pruned Ajv.pruned_props carriersJsonSchema] in Hp.
  rewrite Hitems in Hp. cbn [Ajv.pruned] in Hp.
  apply andb_prop in Hp as [_ Hp]. apply andb_prop in Hp as [Hp _]. exact Hp.
Qed.

Lemma In_firstn {A} n : forall (l : list A) x, In x (firstn n l) -> In x l.
Proof.
  induction n as [|n IH]; intros [|y l] x; cbn; try tauto.
  intros [->|H]; [left; reflexivity | right; apply IH, H].
Qed.

Lemma mapped_good params parsed items :
  fst (validateCarriers parsed) = [] ->
  get "items" (snd (validateCarriers parsed)) = Some (VArr items) ->
  (0 <? List.length (map suggestion_of (firstn 5 items)))%nat = true ->
  good params (map suggestion_of (firstn 5 items)).
Proof.
  intros Hacc Hitems Hlen. apply Nat.ltb_lt in Hlen.
  split; [|split].
  - split; [lia|]. rewrite length_map. apply firstn_le_length.
  - apply List.Forall_map. apply List.Forall_forall. intros x Hx.
    apply suggestion_of_ai_item.
    pose proof (validated_items_pruned _ _ Hitems) as Hp.
    rewrite forallb_forall in Hp. apply Hp.
    eapply In_firstn, Hx.
  - right. exists parsed, items. auto.
Qed.

Lemma post_mapped_items parsed env st (Q : list jsval -> State -> Prop) Ex :
  match get "items" parsed with
  | Some (VArr items) => Q (map suggestion_of (firstn 5 items)) st
  | _ => Ex "TypeError" st
  end ->
  post (mapped_items parsed) env st Q Ex.
Proof.
  unfold mapped_items. destruct (get "items" parsed) as [[]|]; exact id.
Qed.

Lemma post_content_or_default c env st (Q : string -> State -> Prop) Ex :
  (forall text, Q text st) -> Ex "TypeError" st ->
  post (content_or_default c) env st Q Ex.
Proof.
  intros HQ HE. unfold content_or_default. destruct (choices c); [apply HQ | apply HE].
Qed.


(** One step of a run: the rule of the head construct, or a case split on
    the value the code branches on. *)
Ltac post_step :=
  lazymatch goal with
  | |- post (bind _ _) _ _ _ _ => apply post_bind
  | |- post (ret _) _ _ _ _ => apply post_ret
  | |- post (throw _) _ _ _ _ => apply post_throw
  | |- post (try_catch _ _) _ _ _ _ => apply post_try_catch
  | |- post ask _ _ _ _ => apply post_ask
  | |- post (await _) _ _ _ _ => apply post_await
  | |- post Date_now _ _ _ _ => apply post_Date_now
  | |- post (console_log _ _) _ _ _ _ => apply post_console_log
  | |- post (create _) _ _ _ _ => apply post_create
  | |- post (parse _) _ _ _ _ => apply post_parse
  | |- post (allowAiCallM _) _ _ _ _ => apply post_allowAiCallM
  | |- post (mapped_items _) _ _ _ _ => apply post_mapped_items
  | |- post (content_or_default _) _ _ _ _ =>
      apply post_content_or_default; [intros ?|]
  | |- post (stub _ _) _ _ _ _ => apply post_stub; intros ? ?
  | |- post (match ?x with _ => _ end) _ _ _ _ => destruct x eqn:?
  | |- let _ := _ in _ => cbv beta zeta
  | |- match ?x with _ => _ end => destruct x eqn:?
  end.


(** The mapped list a strategy returns is non-empty by the test that
    guards the return, and made of validated items. *)
Ltac mapped_case :=
  lazymatch goal with
  | V : validateCarriers ?p = ([], ?j), G : get "items" ?j = Some (VArr ?items),
    L : (0 <? _)%nat = true |- good _ _ =>
      apply (mapped_good _ p items);
      [ rewrite V; reflexivity | rewrite V; exact G | exact L ]
  end.

Ltac run_strategy :=
  repeat post_step; try exact I; try assumption; try mapped_case.

Lemma tryTools_good params env st :
  post (tryTools params) env st (fun l _ => good params l) (fun _ _ => True).
Proof. unfold tryTools. run_strategy. Qed.

Lemma tryJsonSchema_good params env st :
  post (tryJsonSchema params) env st (fun l _ => good params l) (fun _ _ => True).
Proof. unfold tryJsonSchema. run_strategy. Qed.

Lemma tryJsonObject_good params env st :
  post (tryJsonObject params) env st (fun l _ => good params l) (fun _ _ => True).
Proof. unfold tryJsonObject. run_strategy. Qed.

(** The client and the prompt: the outcome is the environment's and the
    filter's, the state is left alone. *)
Lemma setup_cases params env :
  sets_up params env \/ exists err, setup_throws params env err.
Proof.
  unfold sets_up, setup_throws, setup, new_OpenAI, user_prompt, template_value.
  unfold bind, ask, await, ret.
  destruct (OpenAI_new env) as [[]|err]; [|right; exists err; reflexivity].
  destruct (ToString _ (or_else (type params) _)) as [t|err];
    [|right; exists err; reflexivity].
  destruct (ToString _ (or_else (origin params) _)) as [o|err];
    [|right; exists err; reflexivity].
  destruct (ToString _ (or_else (destination params) _)) as [d|err];
    [|right; exists err; reflexivity].
  left. eexists. reflexivity.
Qed.

Lemma sets_up_not_throws params env err :
  sets_up params env -> setup_throws params env err -> False.
Proof.
  intros [user Hok] Hthrow.
  specialize (Hok {| aiBucket := ∅; clock_reads := 0; provider_calls := [];
                     console := [] |}).
  rewrite Hthrow in Hok. discriminate.
Qed.

Lemma post_setup params env st (Q : string -> State -> Prop) Ex :
  (sets_up params env -> forall user, Q user st) ->
  (forall err, setup_throws params env err -> Ex err st) ->
  post (setup params) env st Q Ex.
Proof.
  intros HQ HE. unfold post.
  destruct (setup_cases params env) as [Hok | [err Herr]].
  - destruct (Hok) as [user Hrun]. rewrite Hrun. apply HQ. exact Hok.
  - rewrite Herr. apply HE, Herr.
Qed.

(** What a run of the engine comes to: a good list, or the error of the
    client or of the prompt, thrown past the gates with nothing else done. *)
Definition thrown_at_setup (params : Params) (rateKey : string) (env : Env)
    (st : State) (err : string) (st' : State) : Prop :=
  gates_open params rateKey env st
  /\ setup_throws params env err
  /\ st' = past_gates rateKey env st.

Lemma aiFallback_outcome params rateKey env st :
  post (aiFallback params rateKey) env st
    (fun l _ => good params l) (thrown_at_setup params rateKey env st).
Proof.
  unfold aiFallback. repeat post_step; try assumption.
  - (* the client and the prompt *)
    apply post_setup.
    + intros _ user.
      apply post_try_catch.
      eapply post_weaken; [apply tryTools_good | auto |]. intros err s1 _.
      repeat post_step.
      eapply post_weaken; [apply tryJsonSchema_good | auto |]. intros err' s2 _.
      repeat post_step.
      eapply post_weaken; [apply tryJsonObject_good | auto |]. intros e2 s3 _.
      repeat post_step. assumption.
    + intros err Herr. split; [|split; [exact Herr | reflexivity]].
      unfold gates_open, ai_enabled.
      repeat match goal with
             | H : negb _ = false |- _ => apply negb_false_iff in H
             end.
      repeat split; try assumption.
      apply Nat.ltb_ge. assumption.
Qed.

(** A run whose client is built returns. *)
Lemma aiFallback_good params rateKey env st :
  sets_up params env ->
  post (aiFallback params rateKey) env st
    (fun l _ => good params l) (fun _ _ => False).
Proof.
  intros Hok. eapply post_weaken; [apply aiFallback_outcome | auto |].
  intros err s' (_ & Herr & _). exact (sets_up_not_throws _ _ _ Hok Herr).
Qed.

Lemma stub_returns_stub params reason env st :
  returns_stub params reason st (stub params reason env st).
Proof.
  unfold returns_stub. rewrite stub_run.
  destruct (stubSuggestion_good params env (logged "AI: returning stub —" reason st))
    as (l & Hrun & _ & _ & [Hs|Hp]).
  - exists l. split; [exact Hrun | exact Hs].
  - exists l. split; [exact Hrun|]. exists env, (logged "AI: returning stub —" reason st).
    rewrite Hrun. reflexivity.
Qed.


Lemma aiFallback_unfold params rateKey env st :
  aiFallback params rateKey env st
  = if negb (ai_enabled env) then stub params "ai_disabled" env st
    else if (filled params <? MIN_FILTERS_FOR_AI)%nat
    then stub params
           ("min_filters(" ++ string_of_Z (Z.of_nat (filled params)) ++ ")") env st
    else
      let r := allowAiCall rateKey (clock env (clock_reads st)) (aiBucket st) in
      let st1 := with_aiBucket (snd r) (tick st) in
      if negb (fst r) then stub params "rate_limited" env st1
      else if negb (truthy (OPENAI_API_KEY env)) then stub params "no_key" env st1
      else
        match setup params env st1 with
        | (Throw err, st2) => (Throw err, st2)
        | (Ok _, st2) =>
            try_catch (tryTools params) (fun err =>
              do! console_log "AI: tools call failed, degrading:" err in
              try_catch (tryJsonSchema params) (fun err =>
                do! console_log "AI: json_schema call failed, degrading:" err in
                try_catch (tryJsonObject params) (fun e2 =>
                  do! console_log "AI: json_object call failed:" e2 in
                  stub params "json_object_call_failed"))) env st2
        end.
Proof.
  unfold aiFallback, ai_enabled, bind at 1, ask.
  destruct (negb _); [reflexivity|].
  destruct (_ <? _)%nat; [reflexivity|].
  unfold bind at 1, allowAiCallM, bind at 1, Date_now. cbv zeta.
  destruct (negb (fst _)); [reflexivity|].
  destruct (negb (truthy _)); [reflexivity|].
  unfold bind at 1. destruct (setup params env _) as [[user|err] st2]; reflexivity.
Qed.

(** Past the gates, a client or a prompt that throws ends the run: the
    error leaves the engine, the caller's bucket is charged, no provider
    call is made and nothing is logged. *)
Lemma aiFallback_throws params rateKey env st err :
  gates_open params rateKey env st ->
  setup_throws params env err ->
  aiFallback params rateKey env st = (Throw err, past_gates rateKey env st).
Proof.
  intros (Hon & Hfilled & Hallowed & Hkey) Hthrow.
  rewrite aiFallback_unfold. cbv zeta.
  apply Nat.ltb_ge in Hfilled. rewrite Hon, Hfilled, Hallowed, Hkey. cbn [negb].
  rewrite Hthrow. reflexivity.
Qed.

(** With a gate shut the run is the stub's. *)
Lemma aiFallback_gate_shut params rateKey env st :
  ~ gates_open params rateKey env st ->
  exists l st', aiFallback params rateKey env st = (Ok l, st').
Proof.
  intros Hshut.
  destruct (aiFallback params rateKey env st) as [[l|err] st'] eqn:Hrun;
    [eauto|].
  pose proof (aiFallback_outcome params rateKey env st) as H.
  unfold post in H. rewrite Hrun in H. destruct H as (Hopen & _). contradiction.
Qed.


Lemma truthy_nonempty s : s <> "" -> truthy (Some s) = true.
Proof.
  intros H. cbn. destruct (String.eqb_spec s ""); [contradiction | reflexivity].
Qed.

Lemma tryTools_valid_but_empty params env st completion argText parsed :
  openai_create env (List.length (provider_calls st)) Tools = Ok completion ->
  tool_arguments completion = Some argText ->
  argText <> "" ->
  JSON_parse env argText = Ok parsed ->
  fst (validateCarriers parsed) = [] ->
  get "items" (snd (validateCarriers parsed)) = Some (VArr []) ->
  tryTools params env st
    = stub params "empty_model_output(tools)" env (called Tools st).
Proof.
  intros Hcreate Hargs Hne Hparse Hvalid Hitems.
  unfold tool_arguments in Hargs.
  unfold tryTools, bind at 1, create. rewrite Hcreate.
  destruct (List.find _ _) as [fnCall|]; [|discriminate].
  destruct (tc_function fnCall) as [f|]; [|discriminate].
  cbn in Hargs. rewrite Hargs, (truthy_nonempty _ Hne). cbn [negb default].
  unfold bind at 1, parse. cbn [id]. rewrite Hparse.
  destruct (validateCarriers parsed) as [errors parsed'] eqn:V.
  cbn [fst snd] in Hvalid, Hitems. subst errors.
  unfold bind at 1, mapped_items. rewrite Hitems. reflexivity.
Qed.

(** C3, as the code has it.  When Strategy A answers with a payload that
    parses and validates but has no item, [aiFallback] returns the stub at
    once, with the reason [empty_model_output(tools)]: the only provider
    call of the run is Strategy A's; Strategies B and C are not attempted. *)
Theorem aiFallback_empty_tools_returns_stub params rateKey env st :
  strategyA_valid_but_empty params rateKey env st ->
  let r := allowAiCall rateKey (clock env (clock_reads st)) (aiBucket st) in
  let st1 := called Tools (with_aiBucket (snd r) (tick st)) in
  let run := aiFallback params rateKey env st in
  returns_stub params "empty_model_output(tools)" st1 run
  /\ provider_calls (snd run) = (provider_calls st ++ [Tools])%list
  /\ ~ In JsonSchema (skipn (List.length (provider_calls st)) (provider_calls (snd run)))
  /\ ~ In JsonObject (skipn (List.length (provider_calls st)) (provider_calls (snd run))).
Proof.
  intros (Hon & Hfilled & Hallowed & Hkey & (user & Hsetup)
          & completion & argText & parsed
          & Hcreate & Hargs & Hne & Hparse & Hvalid & Hitems).
  cbv zeta. rewrite aiFallback_unfold. cbv zeta.
  apply Nat.ltb_ge in Hfilled. rewrite Hon, Hfilled, Hallowed, Hkey. cbn [negb].
  rewrite Hsetup. unfold try_catch.
  rewrite (tryTools_valid_but_empty params env _ completion argText parsed);
    try assumption.
  match goal with |- context [stub ?p ?reason ?e ?s] =>
    pose proof (stub_returns_stub p reason e s) as H;
    destruct H as (l & Hrun & Hstub); rewrite Hrun end.
  split; [exists l; split; [reflexivity | exact Hstub]|].
  cbn [snd provider_calls tick logged called with_aiBucket].
  split; [reflexivity|].
  rewrite skipn_app, skipn_all, Nat.sub_diag. cbn.
  split; intros [H|[]]; discriminate.
Qed.

(** The claim C3 as stated, refuted: with all gates open and a provider
    whose Strategy A answer is the valid, empty payload, the run makes no
    Strategy B call. *)
Lemma empty_tools_output_skips_json_schema :
  ~ (forall params rateKey env st,
        strategyA_valid_but_empty params rateKey env st ->
        In JsonSchema
          (skipn (List.length (provider_calls st))
             (provider_calls (snd (aiFallback params rateKey env st))))).
Proof.
  intros H.
  specialize (H example_params "203.0.113.7"
                (example_env empty_provider []) initial_state).
  assert (strategyA_valid_but_empty example_params "203.0.113.7"
            (example_env empty_provider []) initial_state) as Hpre.
  { repeat split; try (vm_compute; lia).
    - eexists. intros st. reflexivity.
    - exists (completion_with_arguments empty_items_text), empty_items_text,
             (VObj [("items", VArr [])]).
      repeat split; try reflexivity. discriminate. }
  specialize (H Hpre). vm_compute in H. destruct H as [H|[]]. discriminate.
Qed.

Lemma aiFallback_empty_tools_example :
  provider_calls
    (snd (aiFallback example_params "203.0.113.7"
            (example_env empty_provider []) initial_state)) = [Tools].
Proof.
  destruct (aiFallback_empty_tools_returns_stub example_params "203.0.113.7"
              (example_env empty_provider []) initial_state) as (_ & H & _).
  - repeat split; try (vm_compute; lia).
    + eexists. intros st. reflexivity.
    + exists (completion_with_arguments empty_items_text), empty_items_text,
             (VObj [("items", VArr [])]).
      repeat split; try reflexivity. discriminate.
  - exact H.
Defined.

Lemma setup_throws_constructor params env err :
  OpenAI_new env = Throw err -> setup_throws params env err.
Proof.
  intros H st. unfold setup, new_OpenAI, bind, ask, await. rewrite H. reflexivity.
Qed.

Lemma setup_throws_type_object params env ps :
  OpenAI_new env = Ok tt ->
  type params = Some (VObj ps) ->
  has_own "toString" ps = true ->
  setup_throws params env "TypeError".
Proof.
  intros Hnew Htype Hown st.
  unfold setup, new_OpenAI, user_prompt, template_value, bind, ask, await.
  rewrite Hnew, Htype. cbn [or_else truthy_val ToString]. rewrite Hown. reflexivity.
Qed.

Lemma ToString_textual num x d :
  textual x = true -> exists s, ToString num (or_else x (VStr d)) = Ok s.
Proof.
  destruct x as [[]|]; try discriminate; intros _; cbn [or_else truthy_val].
  - destruct (negb _); eexists; reflexivity.
  - eexists; reflexivity.
Qed.

(** String filters and a constructor that accepts the runtime: the
    client is built and the prompt written. *)
Lemma sets_up_textual params env :
  OpenAI_new env = Ok tt ->
  textual (type params) = true ->
  textual (origin params) = true ->
  textual (destination params) = true ->
  sets_up params env.
Proof.
  intros Hnew Ht Ho Hd.
  destruct (ToString_textual (Number_toString env) _ "ANY" Ht) as [t Et].
  destruct (ToString_textual (Number_toString env) _ "ANY" Ho) as [o Eo].
  destruct (ToString_textual (Number_toString env) _ "ANY" Hd) as [d Ed].
  eexists. intros st.
  unfold setup, new_OpenAI, user_prompt, template_value, bind, ask, await, ret.
  rewrite Hnew, Et, Eo, Ed. reflexivity.
Qed.

(** C1, with the run that breaks it.  Every list [aiFallback] returns has
    at least one item and is either a list the stub generator produces or
    the mapping of a payload the validator accepted; the run returns
    whenever a gate is shut, and whenever the client is built and the
    prompt written, whatever the provider does then (a call that throws,
    text that does not parse, output that fails the schema, valid-but-empty
    output).  But the client is built and the prompt written after the
    gates and outside every [try]: when the constructor throws, or a filter
    has no string form (an object whose [toString] is not a function), a
    run whose gates are open throws that error, with the caller's bucket
    charged, no provider call made and nothing logged. *)
Theorem aiFallback_throws_past_gates params rateKey env st :
  let run := aiFallback params rateKey env st in
  (forall l st',
      run = (Ok l, st') ->
      (1 <= List.length l)%nat /\ (is_stub_output params l \/ from_provider l))
  /\ (sets_up params env -> exists l st', run = (Ok l, st'))
  /\ (~ gates_open params rateKey env st -> exists l st', run = (Ok l, st'))
  /\ (forall err,
        gates_open params rateKey env st ->
        setup_throws params env err ->
        run = (Throw err, past_gates rateKey env st)
        /\ provider_calls (past_gates rateKey env st) = provider_calls st
        /\ console (past_gates rateKey env st) = console st
        /\ aiBucket (past_gates rateKey env st)
           = snd (allowAiCall rateKey (clock env (clock_reads st)) (aiBucket st)))
  /\ (forall err, OpenAI_new env = Throw err -> setup_throws params env err)
  /\ (forall ps,
        OpenAI_new env = Ok tt ->
        type params = Some (VObj ps) ->
        has_own "toString" ps = true ->
        setup_throws params env "TypeError").
Proof.
  cbv zeta. split; [|split; [|split; [|split; [|split]]]].
  - intros l st' Hrun.
    pose proof (aiFallback_outcome params rateKey env st) as H.
    unfold post in H. rewrite Hrun in H.
    destruct H as (Hlen & _ & Hwhere). split; [lia | exact Hwhere].
  - intros Hok.
    destruct (post_returns _ _ _ _ (aiFallback_good params rateKey env st Hok))
      as (l & st' & Hrun & _).
    exists l, st'. exact Hrun.
  - apply aiFallback_gate_shut.
  - intros err Hopen Hthrow.
    split; [apply aiFallback_throws; assumption|].
    repeat split; reflexivity.
  - intros err. apply setup_throws_constructor.
  - intros ps. apply setup_throws_type_object.
Qed.

Lemma aiFallback_throws_example :
  aiFallback odd_params "203.0.113.7" (example_env failing_provider [])
    initial_state
  = (Throw "TypeError",
     past_gates "203.0.113.7" (example_env failing_provider []) initial_state).
Proof.
  destruct (aiFallback_throws_past_gates odd_params "203.0.113.7"
              (example_env failing_provider []) initial_state)
    as (_ & _ & _ & Hthrow & _ & Hodd).
  apply Hthrow.
  - repeat split; vm_compute; lia.
  - apply (Hodd [("toString", VNum 1)]); reflexivity.
Defined.

Lemma validated_item_no_contact parsed items x :
  get "items" (snd (validateCarriers parsed)) = Some (VArr items) ->
  In x items ->
  get "contact" x = None.
Proof.
  intros Hitems Hin.
  pose proof (validated_items_pruned _ _ Hitems) as Hp.
  rewrite forallb_forall in Hp. specialize (Hp x Hin).
  destruct x; try reflexivity. rewrite get_VObj.
  cbn [Ajv.pruned itemSchema] in Hp. apply andb_prop in Hp as [Hp _].
  match type of Hp with
  | forallb (fun kv => Ajv.has_prop (fst kv) ?props) _ = true =>
      rewrite (lookup_prop_unknown (fun k => Ajv.has_prop k props)
                 "contact" ps Hp); reflexivity
  end.
Qed.

(** C8.  Every list [aiFallback] returns has at most five items, and each
    item has [source = "ai"], [verified = false], [confidence = 0.55] and no
    [contact] property: the validator has deleted any [contact] from the
    items of a provider payload, and the stub has none.  (The strings the
    provider puts in [name] and [description] are passed on as they are.) *)
Theorem aiFallback_items_unverified_without_contact params rateKey env st :
  (forall l st',
      aiFallback params rateKey env st = (Ok l, st') ->
      (List.length l <= 5)%nat /\ Forall ai_item l)
  /\ (forall parsed items x,
        get "items" (snd (validateCarriers parsed)) = Some (VArr items) ->
        In x items -> get "contact" x = None)
  /\ (forall l, is_stub_output params l ->
                Forall (fun e => get "contact" e = None) l).
Proof.
  split; [|split].
  - intros l st' Hrun.
    pose proof (aiFallback_outcome params rateKey env st) as H.
    unfold post in H. rewrite Hrun in H.
    destruct H as (Hlen & Hitems & _). split; [lia | exact Hitems].
  - apply validated_item_no_contact.
  - intros l (env' & st' & Hl). cbn in Hl. injection Hl as <-.
    constructor; [reflexivity | constructor].
Qed.

(** C9.  For every filter, [stubSuggestion] returns exactly one item and
    cannot fail; it reads the clock once and touches nothing else (no
    provider call, no rate-limit bucket, no log line).  The item is
    unverified, its [types] is the filter's type alone, or ["truck"] when
    the type is absent (undefined, empty or any other falsy value, which
    is how the code tests presence), its single lane echoes origin and
    destination with the defaults ["FR"] and ["ES"], and its confidence is
    0.55; for a filter of strings that is the string itself unless it is
    empty.  Two runs on the same filter differ at most in [id], which is
    derived from the clock. *)
Theorem stubSuggestion_contract params env st :
  exists item,
    stubSuggestion params env st = (Ok [item], tick st)
    /\ aiBucket (tick st) = aiBucket st
    /\ provider_calls (tick st) = provider_calls st
    /\ console (tick st) = console st
    /\ get "verified" item = Some (VBool false)
    /\ get "types" item = Some (VArr [or_else (type params) (VStr "truck")])
    /\ get "lanes" item
       = Some (VArr [VObj [("origin", or_else (origin params) (VStr "FR"));
                           ("destination",
                             or_else (destination params) (VStr "ES"))]])
    /\ (forall (x : option string) d,
          or_else (option_map VStr x) (VStr d)
          = VStr (match x with
                  | Some t => if String.eqb t "" then d else t
                  | None => d
                  end))
    /\ get "confidence" item = Some (VNum (55 # 100))
    /\ get "id" item
       = Some (VStr ("ai-stub-" ++ string_of_Z (clock env (clock_reads st))))
    /\ (forall env' st' item',
          stubSuggestion params env' st' = (Ok [item'], tick st') ->
          forall k, k <> "id" -> get k item' = get k item).
Proof.
  eexists. split; [reflexivity|].
  repeat (split; [reflexivity|]).
  split.
  { intros [t|] d; cbn; [|reflexivity]. destruct (String.eqb t ""); reflexivity. }
  repeat (split; [reflexivity|]).
  intros env' st' item' Hrun k Hk. cbn in Hrun. injection Hrun as <-.
  rewrite !get_VObj. cbn [lookup_prop].
  destruct (String.eqb_spec k "id"); [contradiction | reflexivity].
Qed.

(** *** The handler *)

Lemma post_aiFallback params rateKey env st (Q : list jsval -> State -> Prop) Ex :
  (forall l st', good params l -> Q l st') ->
  (forall err st', setup_throws params env err -> Ex err st') ->
  post (aiFallback params rateKey) env st Q Ex.
Proof.
  intros HQ HE. eapply post_weaken; [apply aiFallback_outcome | |].
  - intros l st' Hl. apply HQ, Hl.
  - intros err st' (_ & Hthrow & _). apply HE, Hthrow.
Qed.

Lemma ai_response_result suggestions notice t0 t1 params :
  good params suggestions ->
  In notice [notice_unavailable; notice_none_found; notice_query_error] ->
  search_result (ai_response suggestions notice t0 t1).
Proof.
  intros (Hlen & _) Hn. split; [reflexivity|]. right.
  exists suggestions, notice. split; [reflexivity|]. split; [lia | exact Hn].
Qed.

Lemma carrier_out_source c : get "source" (carrier_out c) = Some (VStr "db").
Proof. reflexivity. Qed.

Lemma db_response_result carriers t0 t1 :
  (0 <? List.length carriers)%nat = true ->
  search_result (db_response carriers t0 t1).
Proof.
  intros Hlen. split; [reflexivity|]. left.
  exists (map carrier_out carriers). split; [reflexivity|]. split.
  - destruct carriers; [discriminate | discriminate].
  - apply List.Forall_map, List.Forall_forall. intros c _. apply carrier_out_source.
Qed.

(** Once the body has been read, a path of the handler answers, or ends in
    the error of the engine's client or prompt. *)
Lemma search_POST_outcome req body env st :
  req_json req = Ok body ->
  nullish body = false ->
  post (POST req) env st
    (fun r _ => search_result r)
    (fun err _ => setup_throws (params_of (destructure body)) env err).
Proof.
  intros Hbody Hobject. unfold POST. rewrite Hbody.
  repeat first
    [ apply post_aiFallback; [intros ? ? ? | intros ? ? ?]
    | post_step ];
    try discriminate; try congruence; try assumption;
    try match goal with H : Ok _ = Ok _ |- _ => injection H as <- end.
  all: try (eapply ai_response_result; [eassumption | cbn; tauto]).
  all: try (eapply db_response_result; eassumption).
Qed.

(** With the client built, every path of the handler answers. *)
Lemma search_POST_resolves req body env st :
  req_json req = Ok body ->
  nullish body = false ->
  sets_up (params_of (destructure body)) env ->
  exists r st', POST req env st = (Ok r, st') /\ search_result r.
Proof.
  intros Hbody Hobject Hok. apply post_returns.
  eapply post_weaken; [apply (search_POST_outcome _ _ _ _ Hbody Hobject) | auto |].
  intros err s' Hthrow. exact (sets_up_not_throws _ _ _ Hok Hthrow).
Qed.

(** C2, at the failing input.  The handler reads the body before its first
    [try]: when [req.json()] rejects (the body is not JSON), or yields
    [null], nothing catches the error and the handler itself rejects; no
    JSON response is produced. *)
Theorem search_POST_unreadable_body req env st :
  (forall err, req_json req = Throw err ->
               POST req env st = (Throw err, tick st))
  /\ (req_json req = Ok VNull ->
      POST req env st = (Throw "TypeError", tick st)).
Proof.
  split; [intros err H | intros H]; unfold POST, bind at 1, Date_now;
    unfold bind at 1, await; rewrite H; reflexivity.
Qed.

Lemma existsb_is_text v l :
  existsb (is_text v) l = true <-> exists t, v = VStr t /\ In t l.
Proof.
  rewrite existsb_exists. split.
  - intros (x & Hx & E). destruct v; try discriminate.
    apply String.eqb_eq in E. subst. eauto.
  - intros (t & -> & Hin). exists t. split; [exact Hin | apply String.eqb_refl].
Qed.

Lemma existsb_lane_text (f : Lane -> string) v l :
  existsb (fun x => is_text v (f x)) l = true
  <-> exists t, v = VStr t /\ exists x, In x l /\ f x = t.
Proof.
  rewrite existsb_exists. split.
  - intros (x & Hx & E). destruct v; try discriminate.
    apply String.eqb_eq in E. subst. eauto.
  - intros (t & -> & x & Hin & <-). exists x. split; [exact Hin | apply String.eqb_refl].
Qed.

(** What the query built from a body demands of a document. *)
Lemma matches_build_query b c :
  matches (build_query b) c = true
  <-> (forall v, b_type b = Some v -> truthy_val v = true ->
                 exists t, v = VStr t /\ In t (types c))
      /\ (forall v, b_origin b = Some v -> truthy_val v = true ->
                    exists o, v = VStr o
                              /\ exists l, In l (lanes c) /\ lane_origin l = o)
      /\ (forall v, b_destination b = Some v -> truthy_val v = true ->
                    exists d, v = VStr d
                              /\ exists l, In l (lanes c) /\ lane_destination l = d)
      /\ (truthy_js (b_verifiedOnly b) = true -> verified c = true).
Proof.
  unfold matches, build_query. cbn [q_types q_lanes_origin q_lanes_destination q_verified].
  rewrite !andb_true_iff.
  assert (forall (o : option jsval) (P : jsval -> bool) (R : jsval -> Prop),
             (forall v, P v = true <-> R v) ->
             (match (if truthy_js o then o else None) with
              | Some v => P v
              | None => true
              end = true
              <-> (forall v, o = Some v -> truthy_val v = true -> R v))) as Hfield.
  { intros o P R HPR. destruct o as [v|]; cbn [truthy_js].
    - destruct (truthy_val v) eqn:Hv.
      + rewrite HPR. split; [intros H v' [= <-] _; exact H | intros H; apply H; auto].
      + split; [intros _ v' [= <-] Hne; congruence | reflexivity].
    - split; [intros _ v' [=] | reflexivity]. }
  rewrite (Hfield (b_type b) (fun t => existsb (is_text t) (types c))
             (fun v => exists t, v = VStr t /\ In t (types c)))
    by (intros; apply existsb_is_text).
  rewrite (Hfield (b_origin b)
             (fun o => existsb (fun l => is_text o (lane_origin l)) (lanes c))
             (fun v => exists o, v = VStr o
                                 /\ exists l, In l (lanes c) /\ lane_origin l = o))
    by (intros; apply existsb_lane_text).
  rewrite (Hfield (b_destination b)
             (fun d => existsb (fun l => is_text d (lane_destination l)) (lanes c))
             (fun v => exists d, v = VStr d
                                 /\ exists l, In l (lanes c) /\ lane_destination l = d))
    by (intros; apply existsb_lane_text).
  assert (match (if truthy_js (b_verifiedOnly b) then Some true else None) with
          | Some v => Bool.eqb v (verified c)
          | None => true
          end = true <-> (truthy_js (b_verifiedOnly b) = true -> verified c = true)) as ->.
  { destruct (truthy_js (b_verifiedOnly b)).
    - destruct (verified c); cbn; split; auto; discriminate.
    - split; [discriminate | reflexivity]. }
  tauto.
Qed.

(** The handler once the body is read and the database has answered the
    query: the two branches on the result, and what an engine that throws
    in the second one sets off. *)
Lemma search_POST_after_query req body env st carriers :
  req_json req = Ok body ->
  nullish body = false ->
  dbConnect env = Ok tt ->
  Carrier_find env (build_query (destructure body)) 50 = Ok carriers ->
  POST req env st
  = let params := params_of (destructure body) in
    if (0 <? List.length carriers)%nat
    then (Ok (db_response carriers (clock env (clock_reads st))
                (clock env (S (clock_reads st)))), tick (tick st))
    else
      match aiFallback params (client_ip req) env (tick (tick st)) with
      | (Ok suggestions, st3) =>
          (Ok (ai_response suggestions notice_none_found
                 (clock env (clock_reads st))
                 (clock env (clock_reads st3))), tick st3)
      | (Throw e, st3) =>
          match aiFallback params (client_ip req) env
                  (logged "DB query error:" e st3) with
          | (Ok suggestions, st4) =>
              (Ok (ai_response suggestions notice_query_error
                     (clock env (clock_reads st))
                     (clock env (clock_reads st4))), tick st4)
          | (Throw e', st4) => (Throw e', st4)
          end
      end.
Proof.
  intros Hbody Hobject Hconn Hfind.
  unfold POST, bind at 1, Date_now. unfold bind at 1, await. rewrite Hbody, Hobject.
  unfold bind at 1, ask. unfold bind at 1, try_catch at 1, bind at 1, await.
  rewrite Hconn. unfold ret at 1. unfold try_catch at 1, bind at 1, await.
  rewrite Hfind. unfold bind at 1, Date_now. cbv zeta.
  destruct (0 <? _)%nat; [reflexivity|].
  unfold bind at 1.
  destruct (aiFallback _ _ env (tick (tick st))) as [[suggestions|e] st3]; [reflexivity|].
  unfold bind at 1, console_log. unfold bind at 1.
  destruct (aiFallback _ _ env _) as [[suggestions|e'] st4]; reflexivity.
Qed.


Lemma search_POST_malformed_json_example :
  POST malformed_request (example_env failing_provider []) initial_state
    = (Throw "SyntaxError", tick initial_state).
Proof.
  apply (proj1 (search_POST_unreadable_body malformed_request
                  (example_env failing_provider []) initial_state)).
  reflexivity.
Defined.



(** Worked runs.  A provider that is down: the stub, after three attempts. *)
Example aiFallback_provider_down :
  let run := aiFallback example_params "203.0.113.7"
               (example_env failing_provider []) initial_state in
  provider_calls (snd run) = [Tools; JsonSchema; JsonObject]
  /\ option_map (map (get "name"))
       (match fst run with Ok l => Some l | Throw _ => None end)
     = Some [Some (VStr "Regional Carrier Suggestion")].
Proof. vm_compute. split; reflexivity. Qed.

(** Text that does not parse, and output that fails the schema: the stub,
    after three attempts; the last one names the failed validation. *)
Example aiFallback_garbled_provider :
  let run := aiFallback example_params "203.0.113.7"
               (example_env garbled_provider []) initial_state in
  provider_calls (snd run) = [Tools; JsonSchema; JsonObject]
  /\ option_map (map (get "name"))
       (match fst run with Ok l => Some l | Throw _ => None end)
     = Some [Some (VStr "Regional Carrier Suggestion")]
  /\ List.last (console (snd run)) ("", "")
     = ("AI: returning stub —", "json_object_call_failed").
Proof. vm_compute. repeat split; reflexivity. Qed.

Example aiFallback_laneless_provider :
  let run := aiFallback example_params "203.0.113.7"
               (example_env laneless_provider []) initial_state in
  provider_calls (snd run) = [Tools; JsonSchema; JsonObject]
  /\ option_map (map (get "name"))
       (match fst run with Ok l => Some l | Throw _ => None end)
     = Some [Some (VStr "Regional Carrier Suggestion")]
  /\ List.last (console (snd run)) ("", "")
     = ("AI: returning stub —", "json_object_validation_failed").
Proof. vm_compute. repeat split; reflexivity. Qed.

(** A provider whose second strategy succeeds with an item that claims to
    be verified and carries a contact block: both are gone from the
    suggestion, and Strategy C is not attempted. *)
Example aiFallback_boastful_provider :
  aiFallback example_params "203.0.113.7"
    (example_env boastful_provider []) initial_state
  = (Ok [VObj [("id", VStr "c-1");
               ("name", VStr "Blue Freight");
               ("types", VArr [VStr "truck"]);
               ("lanes", VArr [VObj [("origin", VStr "FR");
                                     ("destination", VStr "DE")]]);
               ("verified", VBool false);
               ("source", VStr "ai");
               ("confidence", VNum (55 # 100))]],
     snd (aiFallback example_params "203.0.113.7"
            (example_env boastful_provider []) initial_state))
  /\ provider_calls
       (snd (aiFallback example_params "203.0.113.7"
               (example_env boastful_provider []) initial_state))
     = [Tools; JsonSchema].
Proof. vm_compute. split; reflexivity. Qed.

(** An empty collection and the toggle off: [usedAi: true], one stub
    suggestion echoing the filter, the no-verified-carriers notice. *)
Example search_POST_empty_database :
  let run := POST lane_request disabled_env initial_state in
  option_map (fun r => (status r, get "usedAi" (body r), get "notice" (body r),
                        get "carriers" (body r)))
    (match fst run with Ok r => Some r | Throw _ => None end)
  = Some (200, Some (VBool true), Some (VStr notice_none_found), Some (VArr []))
  /\ option_map (fun r =>
         match get "suggestions" (body r) with
         | Some (VArr [x]) => (get "source" x, get "types" x, get "lanes" x)
         | _ => (None, None, None)
         end)
       (match fst run with Ok r => Some r | Throw _ => None end)
     = Some (Some (VStr "ai"), Some (VArr [VStr "truck"]),
             Some (VArr [VObj [("origin", VStr "FR");
                               ("destination", VStr "DE")]]))
  /\ provider_calls (snd run) = [].
Proof. vm_compute. repeat split; reflexivity. Qed.

(** The database out of reach: the same, with the unavailable notice. *)
Example search_POST_database_down :
  let run := POST lane_request offline_env initial_state in
  option_map (fun r => (get "usedAi" (body r), get "notice" (body r)))
    (match fst run with Ok r => Some r | Throw _ => None end)
  = Some (Some (VBool true), Some (VStr notice_unavailable))
  /\ console (snd run)
     = [("Mongo connect error:", "Missing MONGODB_URI");
        ("AI: returning stub —", "ai_disabled")].
Proof. vm_compute. split; reflexivity. Qed.

Example client_ip_forwarded : client_ip lane_request = "203.0.113.7".
Proof. reflexivity. Qed.

End SearchRoute.

(** ** The contact route *)

Section ContactRoute.
Import Contact.

Lemma rateLimit_pass key now (m : gmap string RateEntry) :
  fst (rateLimit key default_limit default_windowMs now m) = true ->
  snd (rateLimit key default_limit default_windowMs now m)
    = <[key := charged now (m !! key)]> m.
Proof.
  unfold rateLimit, charged. destruct (m !! key) as [item|]; [|reflexivity].
  destruct (default_windowMs <? now - ts item); [reflexivity|].
  destruct (default_limit <=? count item); [discriminate | reflexivity].
Qed.

(** C10.  A submission whose honeypot field [companyWebsite] is a non-empty
    string (or any other value the code reads as true), and that the
    per-IP limiter lets through, is answered with status 200 and body
    [{ok: true}], whatever its other fields hold (they are not validated,
    not even converted to strings) and whatever the mail configuration: no
    mail is sent, nothing is logged; the only change is the limiter's entry
    for the caller's IP, charged with one call. *)
Theorem contact_POST_honeypot req json w env st :
  let ip := client_ip req in
  let now := clock env (clock_reads st) in
  req_json req = Ok json ->
  companyWebsite (destructure json) = Some w ->
  truthy_val w = true ->
  fst (rateLimit ip default_limit default_windowMs now (attempts st)) = true ->
  exists st',
    POST req env st
      = (Ok {| status := 200; headers := []; body := VObj [("ok", VBool true)] |},
         st')
    /\ outbox st' = outbox st
    /\ console st' = console st
    /\ attempts st' = <[ip := charged now (attempts st !! ip)]> (attempts st)
    /\ (forall other, other <> ip -> attempts st' !! other = attempts st !! other).
Proof.
  cbv zeta. intros Hbody Hw Hne Hpass.
  assert (truthy_val (or_default_of (Some w) (VStr "")) = true) as Htrap
    by (destruct w; try discriminate; exact Hne).
  eexists. split.
  - unfold POST, try_catch, bind at 1, rateLimitM, bind at 1, Date_now.
    cbv zeta. cbn [attempts]. rewrite Hpass. cbn [negb].
    unfold bind at 1, await. rewrite Hbody, Hw, Htrap.
    reflexivity.
  - cbn [outbox console attempts].
    rewrite (rateLimit_pass _ _ _ Hpass).
    repeat split. intros other Hother. rewrite lookup_insert_ne; [reflexivity | auto].
Qed.

Lemma contact_POST_honeypot_example :
  exists st',
    POST bot_request contact_env contact_initial
      = (Ok {| status := 200; headers := []; body := VObj [("ok", VBool true)] |},
         st')
    /\ outbox st' = []
    /\ attempts st' !! "198.51.100.9"
       = Some {| count := 1; ts := 1700000000000 |}.
Proof.
  destruct (contact_POST_honeypot bot_request bot_body
              (VStr "http://spam.example") contact_env contact_initial)
    as (st' & Hrun & Hout & _ & Hattempts & _);
    [reflexivity | reflexivity | reflexivity | reflexivity |].
  exists st'. split; [exact Hrun|]. split; [exact Hout|].
  rewrite Hattempts. apply lookup_insert_eq.
Defined.

(** The same submission without the hidden field is relayed. *)
Example contact_POST_human :
  let human :=
    {| req_json :=
         Ok (VObj [("name", VStr "Ada"); ("email", VStr "ada@example.org");
                   ("message", VStr "Hello"); ("consent", VBool true)]);
       req_header := req_header bot_request |} in
  let run := POST human contact_env contact_initial in
  fst run
    = Ok {| status := 200; headers := []; body := VObj [("ok", VBool true)] |}
  /\ List.length (outbox (snd run)) = 1%nat.
Proof. vm_compute. split; reflexivity. Qed.

End ContactRoute.

(** * Further properties *)

(** ** Strings: reversal, trimming, occurrence *)

Lemma append_cons c a b : String c a ++ b = String c (a ++ b).
Proof. reflexivity. Qed.

Lemma append_nil_l s : "" ++ s = s.
Proof. reflexivity. Qed.

Lemma append_nil_r s : s ++ "" = s.
Proof. induction s as [|c s IH]; [reflexivity | change (String c (s ++ "") = String c s); rewrite IH; reflexivity]. Qed.

Lemma append_assoc a b c : (a ++ b) ++ c = a ++ (b ++ c).
Proof. induction a as [|x a IH]; [reflexivity | change (String x ((a ++ b) ++ c) = String x (a ++ (b ++ c))); rewrite IH; reflexivity]. Qed.

Lemma rev_app_append s t : String.rev_app s t = String.rev s ++ t.
Proof.
  unfold String.rev. revert t. induction s as [|c s IH]; intros t; [reflexivity|].
  cbn. rewrite (IH (String c t)), (IH (String c "")), append_assoc. reflexivity.
Qed.

Lemma rev_cons c s : String.rev (String c s) = String.rev s ++ String c "".
Proof. unfold String.rev at 1. cbn. apply rev_app_append. Qed.

Lemma rev_append a b : String.rev (a ++ b) = String.rev b ++ String.rev a.
Proof.
  induction a as [|c a IH]; cbn [append].
  - change (String.rev "") with "". rewrite append_nil_r. reflexivity.
  - rewrite append_cons, !rev_cons, IH, append_assoc. reflexivity.
Qed.

Lemma rev_involutive s : String.rev (String.rev s) = s.
Proof.
  induction s as [|c s IH]; [reflexivity|].
  rewrite rev_cons, rev_append, IH. reflexivity.
Qed.

Lemma all_space_append a b : all_space (a ++ b) = all_space a && all_space b.
Proof.
  induction a as [|c a IH]; [reflexivity|].
  rewrite append_cons. cbn [all_space]. rewrite IH, andb_assoc. reflexivity.
Qed.

Lemma all_space_rev s : all_space (String.rev s) = all_space s.
Proof.
  induction s as [|c s IH]; [reflexivity|].
  rewrite rev_cons, all_space_append, IH. cbn. rewrite andb_true_r, andb_comm. reflexivity.
Qed.

Lemma trimStart_append a b :
  Str.trimStart (a ++ b)
  = if all_space a then Str.trimStart b else Str.trimStart a ++ b.
Proof.
  induction a as [|c a IH]; [reflexivity|].
  rewrite append_cons. cbn [all_space Str.trimStart]. destruct (Str.is_space c); cbn [andb]; [exact IH | reflexivity].
Qed.

Lemma trimEnd_rec_empty s : trimEnd_rec s = "" <-> all_space s = true.
Proof.
  induction s as [|c s IH]; cbn; [tauto|].
  destruct (trimEnd_rec s) eqn:E.
  - destruct (Str.is_space c); cbn.
    + split; [intros _; apply IH; reflexivity | reflexivity].
    + split; discriminate.
  - split; [discriminate|]. intros [_ H]%andb_prop. apply IH in H. discriminate.
Qed.

Lemma trimEnd_trimEnd_rec s : Str.trimEnd s = trimEnd_rec s.
Proof.
  unfold Str.trimEnd. induction s as [|c s IH]; [reflexivity|].
  rewrite rev_cons, trimStart_append, all_space_rev. cbn [trimEnd_rec].
  destruct (all_space s) eqn:A.
  - apply trimEnd_rec_empty in A. rewrite A. cbn.
    destruct (Str.is_space c); reflexivity.
  - rewrite rev_append, IH. cbn.
    destruct (trimEnd_rec s) eqn:E; [|reflexivity].
    apply trimEnd_rec_empty in E. congruence.
Qed.

Lemma trimEnd_append t g z :
  Str.is_space z = false ->
  Str.trimEnd ((t ++ String z "") ++ g) = (t ++ String z "") ++ Str.trimEnd g.
Proof.
  intros Hz. rewrite !trimEnd_trimEnd_rec.
  induction t as [|c t IH].
  - change (("" ++ String z "") ++ g) with (String z g).
    change ("" ++ String z "") with (String z ""). rewrite append_cons.
    cbn [trimEnd_rec]. change ("" ++ trimEnd_rec g) with (trimEnd_rec g).
    destruct (trimEnd_rec g); [rewrite Hz|]; reflexivity.
  - rewrite !append_cons. cbn [trimEnd_rec]. rewrite IH.
    destruct t; reflexivity.
Qed.

Lemma occurs_append c a b : occurs c (a ++ b) = occurs c a || occurs c b.
Proof.
  induction a as [|x a IH]; [reflexivity|].
  rewrite append_cons. cbn [occurs]. rewrite IH, orb_assoc. reflexivity.
Qed.

Lemma occurs_trimStart c s : occurs c (Str.trimStart s) = true -> occurs c s = true.
Proof.
  induction s as [|x s IH]; cbn; [auto|].
  destruct (Str.is_space x); cbn; [|auto].
  intros H. rewrite (IH H). apply orb_true_r.
Qed.

Lemma occurs_rev c s : occurs c (String.rev s) = occurs c s.
Proof.
  induction s as [|x s IH]; [reflexivity|].
  rewrite rev_cons, occurs_append, IH. cbn. rewrite orb_false_r, orb_comm. reflexivity.
Qed.

Lemma occurs_trimEnd c s : occurs c (Str.trimEnd s) = true -> occurs c s = true.
Proof.
  unfold Str.trimEnd. rewrite occurs_rev. intros H%occurs_trimStart.
  rewrite occurs_rev in H. exact H.
Qed.

(** ** Sanitising provider text *)

Section SanitizeJson.
Import Search.

Lemma eqb_append_nonempty a c b g : String.eqb ((a ++ String c b) ++ g) "" = false.
Proof. destruct a; reflexivity. Qed.

Lemma trim_framed w0 c h z g :
  all_space w0 = true -> Str.is_space c = false -> Str.is_space z = false ->
  Str.trim (w0 ++ (String c h ++ String z "") ++ g)
  = (String c h ++ String z "") ++ Str.trimEnd g.
Proof.
  intros Hw Hc Hz. unfold Str.trim.
  rewrite trimStart_append, Hw, !append_cons. cbn [Str.trimStart]. rewrite Hc.
  rewrite <- !append_cons. apply trimEnd_append, Hz.
Qed.

Lemma strip_prefix_ci_append p f x :
  Str.strip_prefix_ci p f = Some "" -> Str.strip_prefix_ci p (f ++ x) = Some x.
Proof.
  revert f. induction p as [|a p IH]; intros f.
  - cbn. intros [= ->]. reflexivity.
  - destruct f as [|b f]; [discriminate|]. rewrite append_cons. cbn.
    destruct (Ascii.eqb (Str.lower a) (Str.lower b)); [apply IH | discriminate].
Qed.

Lemma occurs_strip_prefix_ci c p s r :
  Str.strip_prefix_ci p s = Some r -> occurs c r = true -> occurs c s = true.
Proof.
  revert s. induction p as [|a p IH]; intros s.
  - cbn. intros [= ->]. auto.
  - destruct s as [|b s]; [discriminate|]. cbn.
    destruct (Ascii.eqb (Str.lower a) (Str.lower b)); [|discriminate].
    intros H1 H2. rewrite (IH _ H1 H2). apply orb_true_r.
Qed.

Lemma occurs_drop_fence c s : occurs c (drop_fence s) = true -> occurs c s = true.
Proof.
  unfold drop_fence, Str.strip_suffix.
  destruct (Str.strip_prefix_ci _ (String.rev s)) as [r|] eqn:E; [|auto].
  rewrite occurs_rev. intros H. rewrite <- occurs_rev.
  exact (occurs_strip_prefix_ci _ _ _ _ E H).
Qed.

(** A closing fence is looked for at the very end only: behind a closing
    bracket it is taken from what follows the bracket. *)
Lemma drop_fence_append b z g :
  (z = "}" \/ z = "]")%char ->
  drop_fence ((b ++ String z "") ++ g) = (b ++ String z "") ++ drop_fence g.
Proof.
  intros Hz. unfold drop_fence, Str.strip_suffix.
  rewrite rev_append, rev_append. change (String.rev (String z "")) with (String z "").
  rewrite append_cons. change ("" ++ String.rev b) with (String.rev b).
  change (String.rev "```") with "```".
  assert (H : Str.strip_prefix_ci "```" (String.rev g ++ String z (String.rev b))
              = match Str.strip_prefix_ci "```" (String.rev g) with
                | Some r => Some (r ++ String z (String.rev b))
                | None => None
                end).
  { assert (Hz' : Ascii.eqb (Str.lower "`") (Str.lower z) = false)
      by (destruct Hz; subst z; reflexivity).
    destruct (String.rev g) as [|x1 [|x2 [|x3 r]]];
      rewrite ?append_cons, ?append_nil_l;
      cbn [Str.strip_prefix_ci]; rewrite ?Hz';
      repeat match goal with
             | |- context [Ascii.eqb ?a (Str.lower ?b)] =>
                 destruct (Ascii.eqb a (Str.lower b)) eqn:?
             end; try reflexivity; try congruence. }
  rewrite H. destruct (Str.strip_prefix_ci "```" (String.rev g)) as [r|]; [|reflexivity].
  rewrite rev_append, rev_cons, rev_involutive. reflexivity.
Qed.

Lemma lastIndexOf_from_absent c s i found :
  occurs c s = false -> Str.lastIndexOf_from c s i found = found.
Proof.
  revert i found. induction s as [|a s IH]; intros i found; [reflexivity|].
  cbn. intros [-> H]%orb_false_elim. apply IH, H.
Qed.

Lemma lastIndexOf_from_append c x y i found :
  Str.lastIndexOf_from c (x ++ y) i found
  = Str.lastIndexOf_from c y (i + Z.of_nat (String.length x))
      (Str.lastIndexOf_from c x i found).
Proof.
  revert i found. induction x as [|a x IH]; intros i found.
  - cbn. rewrite Z.add_0_r. reflexivity.
  - rewrite append_cons. cbn [Str.lastIndexOf_from String.length]. rewrite IH.
    f_equal. lia.
Qed.

Lemma lastIndexOf_from_bound c s i found :
  found < i -> Str.lastIndexOf_from c s i found < i + Z.of_nat (String.length s).
Proof.
  revert i found. induction s as [|a s IH]; intros i found H.
  - cbn. lia.
  - cbn [Str.lastIndexOf_from String.length].
    specialize (IH (i + 1) (if Ascii.eqb a c then i else found)).
    destruct (Ascii.eqb a c); lia.
Qed.

Lemma substring_prefix t g : String.substring 0 (String.length t) (t ++ g) = t.
Proof.
  induction t as [|c t IH].
  - destruct g; reflexivity.
  - rewrite append_cons. cbn. rewrite IH. reflexivity.
Qed.

Lemma length_append a b : String.length (a ++ b) = (String.length a + String.length b)%nat.
Proof.
  induction a as [|c a IH]; [reflexivity|]. rewrite append_cons. cbn. rewrite IH. reflexivity.
Qed.

(** The cut: behind the last closing bracket of the text, everything goes. *)
Lemma cut_at_last_bracket b z g :
  (z = "}" \/ z = "]")%char -> b <> "" ->
  occurs "}" g = false -> occurs "]" g = false ->
  let s5 := (b ++ String z "") ++ g in
  let cut := Z.max (Str.lastIndexOf "}" s5) (Str.lastIndexOf "]" s5) in
  (if 0 <? cut then Str.slice0 (cut + 1) s5 else s5) = b ++ String z "".
Proof.
  intros Hz Hb Hg1 Hg2 s5 cut.
  assert (Hcut : cut = Z.of_nat (String.length b)).
  { subst cut s5. unfold Str.lastIndexOf.
    rewrite !(lastIndexOf_from_append _ (b ++ String z "") g).
    rewrite (lastIndexOf_from_absent "}" g) by assumption.
    rewrite (lastIndexOf_from_absent "]" g) by assumption.
    pose proof (lastIndexOf_from_bound "}" (b ++ String z "") 0 (-1) ltac:(lia)) as B1.
    pose proof (lastIndexOf_from_bound "]" (b ++ String z "") 0 (-1) ltac:(lia)) as B2.
    rewrite length_append in B1, B2. cbn [String.length] in B1, B2.
    rewrite !lastIndexOf_from_append in *. cbn [Str.lastIndexOf_from] in *.
    destruct Hz; subst z;
      change (Ascii.eqb "}" "}") with true in *;
      change (Ascii.eqb "]" "]") with true in *;
      change (Ascii.eqb "}" "]") with false in *;
      change (Ascii.eqb "]" "}") with false in *; cbv iota in *; lia. }
  assert (0 < cut).
  { rewrite Hcut. destruct b; [congruence | cbn; lia]. }
  destruct (0 <? cut) eqn:E; [|apply Z.ltb_ge in E; lia].
  unfold Str.slice0. subst s5. rewrite Hcut.
  replace (Z.to_nat (Z.of_nat (String.length b) + 1)) with (String.length (b ++ String z "")).
  - apply substring_prefix.
  - rewrite length_append. cbn. lia.
Qed.

Lemma strip_if_bracket p c a r :
  (a = "{" \/ a = "[")%char -> c = "`"%char ->
  strip_if (String c p) (String a r) = String a r.
Proof. intros [-> | ->] ->; reflexivity. Qed.

Lemma trimStart_bracket w a r :
  all_space w = true -> (a = "{" \/ a = "[")%char ->
  Str.trimStart (w ++ String a r) = String a r.
Proof.
  intros Hw Ha. rewrite trimStart_append, Hw. destruct Ha; subst a; reflexivity.
Qed.

Lemma space_not_j x :
  Str.is_space x = true -> Ascii.eqb (Str.lower "j") (Str.lower x) = false.
Proof.
  destruct x as [[] [] [] [] [] [] [] []]; vm_compute; congruence.
Qed.

Lemma strip_json_fence_absent w a r :
  all_space w = true -> (a = "{" \/ a = "[")%char ->
  Str.strip_prefix_ci "```json" ("```" ++ w ++ String a r) = None.
Proof.
  intros Hw Ha.
  change (Str.strip_prefix_ci "json" (w ++ String a r) = None).
  destruct w as [|x w].
  - destruct Ha; subst a; reflexivity.
  - rewrite append_cons. cbn [all_space] in Hw. apply andb_prop in Hw as [Hx _].
    cbn [Str.strip_prefix_ci]. rewrite (space_not_j _ Hx). reflexivity.
Qed.

Lemma fence_not_space b p f :
  Str.strip_prefix_ci (String "`" p) (String b f) <> None -> Str.is_space b = false.
Proof.
  cbn [Str.strip_prefix_ci].
  destruct (Ascii.eqb (Str.lower "`") (Str.lower b)) eqn:E; [intros _ | congruence].
  destruct b as [[] [] [] [] [] [] [] []]; vm_compute in E |- *; congruence.
Qed.

(** The text once the opening fence is gone: the closing fence, the
    margin and whatever follows the last closing bracket go. *)
Lemma tail_removed a m z g :
  (a = "{" \/ a = "[")%char -> (z = "}" \/ z = "]")%char ->
  occurs "}" g = false -> occurs "]" g = false ->
  let s3 := (String a m ++ String z "") ++ g in
  let s5 := Str.trim (drop_fence s3) in
  let cut := Z.max (Str.lastIndexOf "}" s5) (Str.lastIndexOf "]" s5) in
  (if 0 <? cut then Str.slice0 (cut + 1) s5 else s5) = String a m ++ String z "".
Proof.
  intros Ha Hz Hg1 Hg2 s3 s5.
  assert (Hs5 : s5 = (String a m ++ String z "") ++ Str.trimEnd (drop_fence g)).
  { subst s5 s3. rewrite drop_fence_append by assumption.
    apply (trim_framed "" a m z); [reflexivity | |];
      [destruct Ha | destruct Hz]; subst; reflexivity. }
  rewrite Hs5. apply cut_at_last_bracket; [assumption | discriminate | |].
  - destruct (occurs "}" (Str.trimEnd (drop_fence g))) eqn:E; [|reflexivity].
    apply occurs_trimEnd, occurs_drop_fence in E. congruence.
  - destruct (occurs "]" (Str.trimEnd (drop_fence g))) eqn:E; [|reflexivity].
    apply occurs_trimEnd, occurs_drop_fence in E. congruence.
Qed.

(** The first trim and the two anchored [replace] calls at the start. *)
Lemma fences_removed w0 fence w1 a m z g :
  all_space w0 = true -> opening_fence fence = true -> all_space w1 = true ->
  (a = "{" \/ a = "[")%char -> (z = "}" \/ z = "]")%char ->
  strip_if "```" (strip_if "```json"
    (Str.trim (w0 ++ fence ++ w1 ++ (String a m ++ String z "") ++ g)))
  = (String a m ++ String z "") ++ Str.trimEnd g.
Proof.
  intros Hw0 Hf Hw1 Ha Hz.
  assert (Hsa : Str.is_space a = false) by (destruct Ha; subst; reflexivity).
  assert (Hsz : Str.is_space z = false) by (destruct Hz; subst; reflexivity).
  assert (Hnone : forall p r, strip_if (String "`" p) (String a r) = String a r)
    by (intros; apply strip_if_bracket; auto).
  unfold opening_fence in Hf.
  apply orb_prop in Hf as [Hf | Hf]; [apply orb_prop in Hf as [Hf | Hf]|].
  - (* no fence: the white space on both sides of it is one margin *)
    apply String.eqb_eq in Hf. subst fence. rewrite append_nil_l.
    rewrite <- (append_assoc w0 w1).
    rewrite trim_framed by (rewrite ?all_space_append, ?Hw0, ?Hw1; auto).
    rewrite !append_cons, !Hnone. reflexivity.
  - (* three backticks *)
    apply String.eqb_eq in Hf. subst fence.
    replace ("```" ++ w1 ++ (String a m ++ String z "") ++ g)
      with ((String "`" ("``" ++ w1 ++ String a m) ++ String z "") ++ g)
      by (rewrite !append_cons, !append_nil_l, !append_assoc, !append_cons; reflexivity).
    rewrite trim_framed by auto.
    replace ((String "`" ("``" ++ w1 ++ String a m) ++ String z "") ++ Str.trimEnd g)
      with ("```" ++ w1 ++ String a ((m ++ String z "") ++ Str.trimEnd g))
      by (rewrite !append_cons, !append_nil_l, !append_assoc, !append_cons; reflexivity).
    unfold strip_if at 2. rewrite strip_json_fence_absent by assumption.
    unfold strip_if. rewrite (strip_prefix_ci_append "```" "```") by reflexivity.
    rewrite trimStart_bracket by assumption. reflexivity.
  - (* three backticks and json, in any case *)
    destruct (Str.strip_prefix_ci "```json" fence) as [[|]|] eqn:E; try discriminate.
    destruct fence as [|b f]; [discriminate|].
    assert (Hb : Str.is_space b = false)
      by (apply (fence_not_space b "``json" f); congruence).
    replace (String b f ++ w1 ++ (String a m ++ String z "") ++ g)
      with ((String b (f ++ w1 ++ String a m) ++ String z "") ++ g)
      by (rewrite !append_cons, !append_assoc, !append_cons; reflexivity).
    rewrite trim_framed by auto.
    replace ((String b (f ++ w1 ++ String a m) ++ String z "") ++ Str.trimEnd g)
      with (String b f ++ w1 ++ String a ((m ++ String z "") ++ Str.trimEnd g))
      by (rewrite !append_cons, !append_assoc, !append_cons; reflexivity).
    unfold strip_if at 2. rewrite (strip_prefix_ci_append _ _ _ E).
    rewrite trimStart_bracket by assumption. apply Hnone.
Qed.

(** X6.  [sanitizeJsonString] extracts the JSON document from a provider
    answer: for a text that is white space, an optional opening fence
    (three backticks, with or without [json] in any case), white space, a
    document that opens with a brace or bracket and ends with a closing
    brace or bracket, and then anything that holds no closing brace or
    bracket (a closing fence, a remark), the result is the document
    itself, whatever it holds inside. *)
Theorem sanitizeJsonString_extracts w0 fence w1 a m z g :
  all_space w0 = true -> opening_fence fence = true -> all_space w1 = true ->
  (a = "{" \/ a = "[")%char -> (z = "}" \/ z = "]")%char ->
  occurs "}" g = false -> occurs "]" g = false ->
  let document := String a (m ++ String z "") in
  sanitizeJsonString (w0 ++ fence ++ w1 ++ document ++ g) = document.
Proof.
  intros Hw0 Hf Hw1 Ha Hz Hg1 Hg2 document. subst document.
  change (String a (m ++ String z "")) with (String a m ++ String z "").
  unfold sanitizeJsonString.
  replace (String.eqb (w0 ++ fence ++ w1 ++ (String a m ++ String z "") ++ g) "")
    with false.
  2:{ symmetry. rewrite append_cons, <- !append_assoc. apply eqb_append_nonempty. }
  cbv zeta. rewrite fences_removed by assumption.
  fold (drop_fence ((String a m ++ String z "") ++ Str.trimEnd g)).
  apply tail_removed; try assumption.
  - destruct (occurs "}" (Str.trimEnd g)) eqn:E; [|reflexivity].
    apply occurs_trimEnd in E. congruence.
  - destruct (occurs "]" (Str.trimEnd g)) eqn:E; [|reflexivity].
    apply occurs_trimEnd in E. congruence.
Qed.

Lemma sanitizeJsonString_extracts_example :
  sanitizeJsonString
    (" " ++ "```JSON" ++ Contact.nl
       ++ String "{" ((quoted "items" ++ ":[]") ++ String "}" "")
       ++ Contact.nl ++ "```" ++ Contact.nl ++ "Hope this helps.")
  = String "{" ((quoted "items" ++ ":[]") ++ String "}" "").
Proof.
  apply (sanitizeJsonString_extracts " " "```JSON" Contact.nl "{"
           (quoted "items" ++ ":[]") "}"
           (Contact.nl ++ "```" ++ Contact.nl ++ "Hope this helps."));
    first [reflexivity | left; reflexivity].
Defined.

End SanitizeJson.

(** One step of a run, as in the engine's section. *)
Ltac run_step :=
  lazymatch goal with
  | |- post (bind _ _) _ _ _ _ => apply post_bind
  | |- post (ret _) _ _ _ _ => apply post_ret
  | |- post (throw _) _ _ _ _ => apply post_throw
  | |- post (try_catch _ _) _ _ _ _ => apply post_try_catch
  | |- post ask _ _ _ _ => apply post_ask
  | |- post (await _) _ _ _ _ => apply post_await
  | |- post Search.Date_now _ _ _ _ => apply post_Date_now
  | |- post (Search.console_log _ _) _ _ _ _ => apply post_console_log
  | |- post (Search.create _) _ _ _ _ => apply post_create
  | |- post (Search.parse _) _ _ _ _ => apply post_parse
  | |- post (Search.allowAiCallM _) _ _ _ _ => apply post_allowAiCallM
  | |- post (Search.mapped_items _) _ _ _ _ => apply post_mapped_items
  | |- post (Search.content_or_default _) _ _ _ _ =>
      apply post_content_or_default; [intros ?|]
  | |- post (Search.stub _ _) _ _ _ _ => apply post_stub; intros ? ?
  | |- post (Search.setup _) _ _ _ _ =>
      apply post_setup; [intros ? ? | intros ? ?]
  | |- post (match ?x with _ => _ end) _ _ _ _ => destruct x eqn:?
  | |- let _ := _ in _ => cbv beta zeta
  | |- match ?x with _ => _ end => destruct x eqn:?
  end.

Section EngineFootprint.
Import Search.

Lemma after_calls_refl s : after_calls [] s s.
Proof. split; [symmetry; apply app_nil_r | reflexivity]. Qed.

Lemma tryTools_calls params env st :
  post (tryTools params) env st
    (fun _ s' => after_calls [Tools] st s') (fun _ s' => after_calls [Tools] st s').
Proof. unfold tryTools. repeat run_step; split; reflexivity. Qed.

Lemma tryJsonSchema_calls params env st :
  post (tryJsonSchema params) env st
    (fun _ s' => after_calls [JsonSchema] st s')
    (fun _ s' => after_calls [JsonSchema] st s').
Proof. unfold tryJsonSchema. repeat run_step; split; reflexivity. Qed.

Lemma tryJsonObject_calls params env st :
  post (tryJsonObject params) env st
    (fun _ s' => after_calls [JsonObject] st s')
    (fun _ s' => after_calls [JsonObject] st s').
Proof. unfold tryJsonObject. repeat run_step; split; reflexivity. Qed.

Lemma after_calls_trans p q s1 s2 s3 :
  after_calls p s1 s2 -> after_calls q s2 s3 -> after_calls (p ++ q) s1 s3.
Proof.
  intros [H1 B1] [H2 B2]. split; [|congruence].
  rewrite H2, H1, app_assoc. reflexivity.
Qed.

Lemma aiFallback_footprint params rateKey env st :
  post (aiFallback params rateKey) env st
    (fun _ s' => engine_footprint rateKey env st s')
    (fun _ s' => engine_footprint rateKey env st s').
Proof.
  unfold engine_footprint. unfold aiFallback. repeat run_step.
  1-4, 6: (eexists [], _; split; [cbn; tauto|]; split;
        [|split; [cbn; symmetry; apply app_nil_r | reflexivity]]; cbn; tauto).
  eapply post_weaken; [apply tryTools_calls | |].
  { intros l s1 [Hc Hb]. exists [Tools], (aiBucket s1).
    split; [cbn; tauto|]. split; [rewrite Hb; cbn; tauto|]. split; [exact Hc | reflexivity]. }
  intros err s1 H1. cbv beta. repeat run_step.
  eapply post_weaken; [apply tryJsonSchema_calls | |].
  { intros l s2 H2.
    pose proof (after_calls_trans _ _ _ _ _ H1
                  (after_calls_trans [] _ _ (logged "AI: tools call failed, degrading:" err s1) _
                     (after_calls_refl _) H2)) as [Hc Hb].
    exists [Tools; JsonSchema], (aiBucket s2).
    split; [cbn; tauto|]. split; [rewrite Hb; cbn; tauto|]. split; [exact Hc | reflexivity]. }
  intros err' s2 H2. cbv beta. repeat run_step.
  pose proof (after_calls_trans _ _ _ _ _ H1 H2) as H12. cbn [app] in H12.
  eapply post_weaken; [apply tryJsonObject_calls | |].
  { intros l s3 H3.
    pose proof (after_calls_trans _ _ _ _ _ H12 H3) as [Hc Hb].
    exists [Tools; JsonSchema; JsonObject], (aiBucket s3).
    split; [cbn; tauto|]. split; [rewrite Hb; cbn; tauto|]. split; [exact Hc | reflexivity]. }
  intros e2 s3 H3. cbv beta. repeat run_step.
  pose proof (after_calls_trans _ _ _ _ _ H12 H3) as [Hc Hb].
  exists [Tools; JsonSchema; JsonObject], (aiBucket s3).
  split; [cbn; tauto|]. split; [rewrite Hb; cbn; tauto|]. split; [exact Hc | reflexivity].
Qed.

(** X1.  One run of the engine, whether it returns or throws, calls the
    provider at most three times, and only in the order function calling,
    JSON schema, JSON object, each strategy at most once; it leaves the
    rate-limit map as it was or as one [allowAiCall] for the caller's key
    leaves it, so the bucket of every other key is untouched. *)
Theorem aiFallback_call_discipline params rateKey env st :
  let st' := snd (aiFallback params rateKey env st) in
  (exists p, In p call_sequences
             /\ provider_calls st' = (provider_calls st ++ p)%list)
  /\ (aiBucket st' = aiBucket st
      \/ aiBucket st'
         = snd (allowAiCall rateKey (clock env (clock_reads st)) (aiBucket st)))
  /\ (forall other, other <> rateKey ->
                    aiBucket st' !! other = aiBucket st !! other).
Proof.
  cbv zeta.
  pose proof (aiFallback_footprint params rateKey env st) as H.
  unfold post in H.
  destruct (aiFallback params rateKey env st) as [r s'].
  assert (engine_footprint rateKey env st s') as (p & m & Hp & Hm & Hcalls & Hbucket)
    by (destruct r; exact H).
  cbn [snd]. split; [exists p; auto|].
  rewrite Hbucket. destruct Hm as [<-|[<-|[]]].
  - split; [left; reflexivity | reflexivity].
  - split; [right; reflexivity|]. intros other Hne.
    apply allowAiCall_other. auto.
Qed.

End EngineFootprint.

Section EnginePrecedence.
Import Search.

Lemma tryTools_succeeds params env st completion argText parsed items :
  openai_create env (List.length (provider_calls st)) Tools = Ok completion ->
  tool_arguments completion = Some argText ->
  argText <> "" ->
  JSON_parse env argText = Ok parsed ->
  fst (validateCarriers parsed) = [] ->
  get "items" (snd (validateCarriers parsed)) = Some (VArr items) ->
  items <> [] ->
  tryTools params env st
    = (Ok (map suggestion_of (firstn 5 items)),
       logged "AI: tools suggestions:"
         (string_of_Z (Z.of_nat (List.length (firstn 5 items))))
         (called Tools st)).
Proof.
  intros Hcreate Hargs Hne Hparse Hvalid Hitems Hnonempty.
  unfold tool_arguments in Hargs.
  unfold tryTools, bind at 1, create. rewrite Hcreate.
  destruct (List.find _ _) as [fnCall|]; [|discriminate].
  destruct (tc_function fnCall) as [f|]; [|discriminate].
  cbn in Hargs. rewrite Hargs, (truthy_nonempty _ Hne). cbn [negb default].
  unfold bind at 1, parse. cbn [id]. rewrite Hparse.
  destruct (validateCarriers parsed) as [errors parsed'] eqn:V.
  cbn [fst snd] in Hvalid, Hitems. subst errors.
  unfold bind at 1, mapped_items. rewrite Hitems. unfold ret at 1.
  rewrite length_map.
  destruct items as [|x items]; [contradiction|]. cbn [firstn List.length Nat.ltb Nat.leb].
  reflexivity.
Qed.

(** X2.  When the function-calling strategy answers with arguments that
    parse and validate to at least one item (the four gates being open,
    the client built and the prompt written), the engine returns the mapping of the first five of these items after
    that single provider call: the two JSON strategies are not tried. *)
Theorem aiFallback_strategy_precedence params rateKey env st items :
  strategyA_succeeds params rateKey env st items ->
  let run := aiFallback params rateKey env st in
  fst run = Ok (map suggestion_of (firstn 5 items))
  /\ provider_calls (snd run) = (provider_calls st ++ [Tools])%list.
Proof.
  intros (Hon & Hfilled & Hallowed & Hkey & (user & Hsetup)
          & completion & argText & parsed
          & Hcreate & Hargs & Hne & Hparse & Hvalid & Hitems & Hnonempty).
  cbv zeta. rewrite aiFallback_unfold. cbv zeta.
  apply Nat.ltb_ge in Hfilled. rewrite Hon, Hfilled, Hallowed, Hkey. cbn [negb].
  rewrite Hsetup. unfold try_catch.
  rewrite (tryTools_succeeds params env _ completion argText parsed items);
    try assumption.
  split; reflexivity.
Qed.

Lemma aiFallback_strategy_precedence_example :
  provider_calls
    (snd (aiFallback example_params "203.0.113.7"
            (example_env helpful_provider []) initial_state))
  = [Tools].
Proof.
  refine (proj2 (aiFallback_strategy_precedence example_params "203.0.113.7"
                   (example_env helpful_provider []) initial_state
                   [VObj [("id", VStr "c-1");
                          ("name", VStr "Blue Freight");
                          ("types", VArr [VStr "truck"]);
                          ("lanes", VArr [VObj [("origin", VStr "FR");
                                                ("destination", VStr "DE")]])]]
                   _)).
  unfold strategyA_succeeds.
  split; [reflexivity|]. split; [vm_compute; lia|]. split; [reflexivity|].
  split; [reflexivity|].
  split; [eexists; intros st; reflexivity|].
  exists (completion_with_arguments boastful_text), boastful_text,
    (match JsonText.parse_json boastful_text with Ok v => v | Throw _ => VUndef end).
  split; [reflexivity|]. split; [reflexivity|]. split; [discriminate|].
  split; [vm_compute; reflexivity|]. split; [vm_compute; reflexivity|].
  split; [vm_compute; reflexivity | discriminate].
Defined.

End EnginePrecedence.

Section FencedAnswer.
Import Search.

Lemma sanitizeJsonString_fenced text document :
  fenced text document -> sanitizeJsonString text = document.
Proof.
  intros (w0 & fence & w1 & a & m & z & g & H0 & Hf & H1 & Ha & Hz & Hg1 & Hg2
          & -> & ->).
  change (String a (m ++ String z "")) with (String a m ++ String z "").
  unfold sanitizeJsonString.
  replace (String.eqb (w0 ++ fence ++ w1 ++ (String a m ++ String z "") ++ g) "")
    with false
    by (symmetry; rewrite append_cons, <- !append_assoc; apply eqb_append_nonempty).
  cbv zeta. rewrite fences_removed by assumption.
  fold (drop_fence ((String a m ++ String z "") ++ Str.trimEnd g)).
  apply tail_removed; try assumption.
  - destruct (occurs "}" (Str.trimEnd g)) eqn:E; [|reflexivity].
    apply occurs_trimEnd in E. congruence.
  - destruct (occurs "]" (Str.trimEnd g)) eqn:E; [|reflexivity].
    apply occurs_trimEnd in E. congruence.
Qed.

Lemma tryJsonSchema_succeeds params env st completion text document parsed items :
  openai_create env (List.length (provider_calls st)) JsonSchema = Ok completion ->
  answer_text completion = Some text ->
  fenced text document ->
  JSON_parse env document = Ok parsed ->
  fst (validateCarriers parsed) = [] ->
  get "items" (snd (validateCarriers parsed)) = Some (VArr items) ->
  items <> [] ->
  tryJsonSchema params env st
    = (Ok (map suggestion_of (firstn 5 items)),
       logged "AI: json_schema suggestions:"
         (string_of_Z (Z.of_nat (List.length (firstn 5 items))))
         (called JsonSchema st)).
Proof.
  intros Hcreate Htext Hfenced Hparse Hvalid Hitems Hnonempty.
  unfold answer_text in Htext.
  unfold tryJsonSchema, bind at 1, create. rewrite Hcreate.
  unfold bind at 1, content_or_default.
  destruct (choices completion) as [chs|] eqn:Hch; [|discriminate].
  injection Htext as Htext. unfold ret at 1. rewrite Htext.
  rewrite (sanitizeJsonString_fenced _ _ Hfenced).
  unfold bind at 1, parse. rewrite Hparse.
  destruct (validateCarriers parsed) as [errors parsed'] eqn:V.
  cbn [fst snd] in Hvalid, Hitems. subst errors.
  unfold bind at 1, mapped_items. rewrite Hitems. unfold ret at 1.
  rewrite length_map.
  destruct items as [|x items]; [contradiction|]. cbn [firstn List.length Nat.ltb Nat.leb].
  reflexivity.
Qed.

(** X22.  A fenced answer is read like a bare one: when the gates are
    open, the client is built, the function call fails and the schema-constrained completion is a JSON document inside
    an optional Markdown fence, with a remark behind it or not, the engine
    parses the document alone; if it validates to at least one item the
    run returns the mapping of its first five items after two provider
    calls, and the third strategy is not tried. *)
Theorem aiFallback_fenced_answer params rateKey env st err completion text
    document parsed items :
  gates_open params rateKey env st ->
  sets_up params env ->
  openai_create env (List.length (provider_calls st)) Tools = Throw err ->
  openai_create env (S (List.length (provider_calls st))) JsonSchema
    = Ok completion ->
  answer_text completion = Some text ->
  fenced text document ->
  JSON_parse env document = Ok parsed ->
  fst (validateCarriers parsed) = [] ->
  get "items" (snd (validateCarriers parsed)) = Some (VArr items) ->
  items <> [] ->
  let run := aiFallback params rateKey env st in
  fst run = Ok (map suggestion_of (firstn 5 items))
  /\ provider_calls (snd run) = (provider_calls st ++ [Tools; JsonSchema])%list.
Proof.
  intros (Hon & Hfilled & Hallowed & Hkey) (user & Hsetup) Htools Hschema Htext
         Hfenced Hparse Hvalid Hitems Hnonempty.
  cbv zeta.
  enough (exists s',
            aiFallback params rateKey env st
              = (Ok (map suggestion_of (firstn 5 items)), s')
            /\ provider_calls s' = (provider_calls st ++ [Tools; JsonSchema])%list)
    as (s' & -> & Hcalls) by (split; [reflexivity | exact Hcalls]).
  rewrite aiFallback_unfold. cbv zeta.
  apply Nat.ltb_ge in Hfilled. rewrite Hon, Hfilled, Hallowed, Hkey. cbn [negb].
  rewrite Hsetup. unfold try_catch at 1.
  assert (Hfirst : forall s, provider_calls s = provider_calls st ->
            tryTools params env s = (Throw err, called Tools s)).
  { intros s Hs. unfold tryTools, bind at 1, create. rewrite Hs, Htools. reflexivity. }
  rewrite Hfirst by reflexivity.
  unfold bind at 1, console_log. unfold try_catch at 1.
  rewrite (tryJsonSchema_succeeds params env _ completion text document parsed items);
    try assumption.
  - eexists. split; [reflexivity|].
    cbn [logged called provider_calls with_aiBucket tick].
    rewrite <- List.app_assoc. reflexivity.
  - cbn [logged called provider_calls with_aiBucket tick].
    rewrite length_app. cbn [List.length]. rewrite Nat.add_1_r. exact Hschema.
Qed.

Lemma aiFallback_fenced_answer_example :
  provider_calls
    (snd (aiFallback example_params "203.0.113.7"
            (example_env boastful_provider []) initial_state))
  = [Tools; JsonSchema].
Proof.
  refine (proj2 (aiFallback_fenced_answer example_params "203.0.113.7"
                   (example_env boastful_provider []) initial_state "timeout"
                   (completion_with_content ("```json" ++ boastful_text ++ "```"))
                   ("```json" ++ boastful_text ++ "```") boastful_text
                   (match JsonText.parse_json boastful_text with
                    | Ok v => v
                    | Throw _ => VUndef
                    end)
                   [VObj [("id", VStr "c-1");
                          ("name", VStr "Blue Freight");
                          ("types", VArr [VStr "truck"]);
                          ("lanes", VArr [VObj [("origin", VStr "FR");
                                                ("destination", VStr "DE")]])]]
                   _ _ _ _ _ _ _ _ _ _)).
  - unfold gates_open. split; [reflexivity|]. split; [vm_compute; lia|].
    split; reflexivity.
  - eexists. intros st. reflexivity.
  - reflexivity.
  - reflexivity.
  - reflexivity.
  - exists "", "```json", "", "{"%char,
      (String.substring 1 (String.length boastful_text - 2) boastful_text),
      "}"%char, "```".
    repeat split; try reflexivity; left; reflexivity.
  - vm_compute. reflexivity.
  - vm_compute. reflexivity.
  - vm_compute. reflexivity.
  - discriminate.
Defined.

End FencedAnswer.

Section AjvIdempotence.
Import Ajv.

Lemma each_of_length items path l : forall i,
  List.length (snd (each_of items path l i)) = List.length l.
Proof.
  induction l as [|x l IH]; intros i; [reflexivity|].
  rewrite each_of_cons. cbn. f_equal. apply IH.
Qed.

Lemma validate_same_kind s path d : same_kind d (snd (validate s path d)).
Proof.
  destruct s as [nullable enum|items|a req ps].
  - cbn. destruct d; cbn; auto.
  - destruct d; try (cbn; auto; fail). rewrite validate_array. cbn [snd same_kind].
    symmetry. apply each_of_length.
  - destruct d; try (cbn; auto; fail). rewrite validate_object. exact I.
Qed.

Lemma validate_defined s path d : d <> VUndef -> snd (validate s path d) <> VUndef.
Proof.
  intros Hd. pose proof (validate_same_kind s path d) as H.
  destruct (snd (validate s path d)); destruct d; cbn in H;
    try contradiction; congruence.
Qed.

Lemma get_set_prop_eq k v fs : v <> VUndef -> get k (VObj (set_prop k v fs)) = Some v.
Proof.
  intros Hv. rewrite get_VObj, lookup_set_prop_eq. destruct v; congruence.
Qed.

Lemma validate_props_is_some ps : forall path fs k,
  is_some (get k (VObj (snd (validate_props ps path fs)))) = is_some (get k (VObj fs)).
Proof.
  induction ps as [|k0 s0 rest IH]; intros path fs k; [reflexivity|].
  rewrite validate_props_cons.
  destruct (get k0 (VObj fs)) as [v|] eqn:G; [|apply IH].
  cbn [snd]. rewrite IH.
  destruct (String.eqb k k0) eqn:E.
  - apply String.eqb_eq in E. subst k0. rewrite G, get_set_prop_eq; [reflexivity|].
    apply validate_defined. apply get_Some_lookup in G. tauto.
  - rewrite get_set_prop_ne by exact E. reflexivity.
Qed.

Lemma forallb_agree {A} (f g : A -> bool) l :
  (forall x, In x l -> f x = g x) -> forallb f l = forallb g l.
Proof.
  induction l as [|x l IH]; intros H; [reflexivity|].
  cbn. rewrite (H x), IH; [reflexivity | | left; reflexivity].
  intros y Hy. apply H. right. exact Hy.
Qed.

(** Normalising does not change whether a value conforms. *)
Lemma conforms_normalised :
  (forall s, wf s = true -> forall path d,
      conforms s (snd (validate s path d)) = conforms s d)
  /\ (forall ps, wf_props ps = true -> forall path fs,
        conforms_props ps (VObj (snd (validate_props ps path fs)))
        = conforms_props ps (VObj fs)).
Proof.
  apply schema_mutind.
  - reflexivity.
  - intros items IH Hwf path d. cbn [wf] in Hwf. destruct d; try reflexivity.
    rewrite validate_array. cbn [snd]. rewrite !conforms_array.
    generalize 0%nat. induction l as [|x l IHl]; intros i; [reflexivity|].
    rewrite each_of_cons. cbn [snd forallb]. rewrite (IH Hwf), IHl. reflexivity.
  - intros a req ps IH Hwf path d. cbn [wf] in Hwf.
    apply andb_prop in Hwf as [Hreq Hwf]. destruct d; try reflexivity.
    rewrite validate_object. cbn [snd conforms].
    rewrite (IH Hwf), conforms_props_filter by auto. f_equal.
    apply forallb_agree. intros r Hr.
    rewrite forallb_forall in Hreq.
    rewrite validate_props_is_some, !get_VObj,
      lookup_prop_filter_known by (apply Hreq, Hr).
    reflexivity.
  - reflexivity.
  - intros k s IHs rest IHrest Hwf path fs. cbn [wf_props] in Hwf.
    apply andb_prop in Hwf as [[Hk Hs]%andb_prop Hrest].
    apply negb_true_iff in Hk.
    rewrite validate_props_cons. cbn [conforms_props].
    destruct (get k (VObj fs)) as [v|] eqn:G.
    + cbn [snd]. rewrite (IHrest Hrest), conforms_props_set_prop by exact Hk.
      rewrite validate_props_get_other by exact Hk.
      rewrite get_set_prop_eq, (IHs Hs); [reflexivity|].
      apply validate_defined. apply get_Some_lookup in G. tauto.
    + rewrite (IHrest Hrest). rewrite validate_props_get_other by exact Hk.
      rewrite G. reflexivity.
Qed.

(** Validating twice is validating once: the second pass hands back the
    same value, and reports no error exactly when the first reported
    none. *)
Lemma validate_idempotent s path d :
  wf s = true ->
  snd (validate s path (snd (validate s path d))) = snd (validate s path d)
  /\ (fst (validate s path (snd (validate s path d))) = []
      <-> fst (validate s path d) = []).
Proof.
  intros Hwf. split.
  - apply (proj1 validate_pruned_id), (proj1 validate_pruned), Hwf.
  - rewrite !(proj1 validate_conforms s Hwf), (proj1 conforms_normalised s Hwf).
    reflexivity.
Qed.

End AjvIdempotence.

Section CarrierSchemaExact.
Import Ajv Search.

Lemma conforms_lane v : conforms laneSchema v = is_lane v.
Proof.
  destruct v; try reflexivity. unfold is_lane, required_string, is_string.
  cbn [conforms conforms_props laneSchema forallb string_type_ok enum_ok].
  destruct (get "origin" (VObj ps)) as [[]|];
    destruct (get "destination" (VObj ps)) as [[]|]; reflexivity.
Qed.

Lemma conforms_transport_type v :
  conforms (SString false (Some transportTypes)) v = is_transport_type v.
Proof. destruct v; reflexivity. Qed.

Lemma conforms_item v : conforms itemSchema v = item_accepted v.
Proof.
  destruct v; try reflexivity. rewrite conforms_itemSchema.
  unfold item_accepted, required_string, nullable_string, is_string.
  cbn [forallb].
  destruct (get "id" (VObj ps)) as [[]|]; cbn [is_some andb conforms string_type_ok enum_ok];
    try reflexivity; try (rewrite ?andb_false_r; reflexivity).
  all: destruct (get "name" (VObj ps)) as [[]|];
    cbn [is_some andb conforms string_type_ok enum_ok];
    try reflexivity; try (rewrite ?andb_false_r; reflexivity).
  all: destruct (get "types" (VObj ps)) as [[]|];
    cbn [is_some andb]; try reflexivity; try (rewrite ?andb_false_r; reflexivity).
  all: destruct (get "lanes" (VObj ps)) as [[]|];
    cbn [is_some andb]; try reflexivity; try (rewrite ?andb_false_r; reflexivity).
  all: rewrite ?conforms_array.
  all: rewrite ?(forallb_agree _ _ _ (fun x _ => conforms_transport_type x)).
  all: rewrite ?(forallb_agree _ _ _ (fun x _ => conforms_lane x)).
  all: destruct (get "description" (VObj ps)) as [[]|];
    destruct (get "logoEmoji" (VObj ps)) as [[]|];
    cbn [conforms string_type_ok enum_ok andb];
    rewrite ?andb_true_r, ?andb_false_r; reflexivity.
Qed.

Lemma conforms_carriersJsonSchema ps :
  conforms carriersJsonSchema (VObj ps)
  = (forallb (fun r => is_some (get r (VObj ps))) ["items"]
     && (match get "items" (VObj ps) with
         | Some v => conforms (SArray itemSchema) v
         | None => true
         end && true)).
Proof. reflexivity. Qed.

(** X3.  [validateCarriers] reports no error exactly for the objects whose
    [items] is an array of objects, each with string [id] and [name], a
    [types] array of the five transport types, a [lanes] array of objects
    with string [origin] and [destination], and [description] and
    [logoEmoji] absent, [null] or strings; properties outside the schema
    never matter. *)
Theorem validateCarriers_accepts_exactly p :
  fst (validateCarriers p) = [] <-> payload_accepted p = true.
Proof.
  rewrite accepted_conforms.
  assert (conforms carriersJsonSchema p = payload_accepted p) as ->; [|reflexivity].
  destruct p; try reflexivity. unfold payload_accepted.
  rewrite conforms_carriersJsonSchema. cbn [forallb].
  destruct (get "items" (VObj ps)) as [[]|]; try reflexivity.
  cbn [is_some andb]. rewrite conforms_array, andb_true_r.
  apply forallb_agree. intros x _. apply conforms_item.
Qed.

(** X4.  The value [validateCarriers] hands back is a fixed point: validated
    again it comes back unchanged, it is accepted exactly when the
    original payload was, and it holds no property outside the schema. *)
Theorem validateCarriers_idempotent p :
  let normalised := snd (validateCarriers p) in
  snd (validateCarriers normalised) = normalised
  /\ (fst (validateCarriers normalised) = [] <-> fst (validateCarriers p) = [])
  /\ pruned carriersJsonSchema normalised = true.
Proof.
  cbv zeta. unfold validateCarriers.
  destruct (validate_idempotent carriersJsonSchema "" p carriersJsonSchema_wf) as [H1 H2].
  split; [exact H1|]. split; [exact H2|].
  apply (proj1 validate_pruned), carriersJsonSchema_wf.
Qed.

Lemma set_prop_absent k v ps :
  lookup_prop k ps = None -> set_prop k v ps = (ps ++ [(k, v)])%list.
Proof.
  induction ps as [|[k' v'] ps IH]; cbn; [reflexivity|].
  destruct (String.eqb k k'); [discriminate|]. intros H. f_equal. apply IH, H.
Qed.

(** X5.  Mapping a validated item into a suggestion appends [verified:
    false], [source: "ai"] and [confidence: 0.55] behind the item's own
    properties and changes none of them: whatever can be read from the
    item can be read, unchanged, from the suggestion. *)
Theorem suggestion_of_validated parsed items x :
  fst (validateCarriers parsed) = [] ->
  get "items" (snd (validateCarriers parsed)) = Some (VArr items) ->
  In x items ->
  exists ps,
    x = VObj ps
    /\ suggestion_of x
       = VObj (ps ++ [("verified", VBool false); ("source", VStr "ai");
                      ("confidence", VNum (55 # 100))])
    /\ (forall k v, get k x = Some v -> get k (suggestion_of x) = Some v).
Proof.
  intros Hacc Hitems Hin.
  pose proof (validated_items_pruned _ _ Hitems) as Hp.
  rewrite forallb_forall in Hp. specialize (Hp x Hin).
  assert (conforms itemSchema x = true) as Hx.
  { destruct (validate_idempotent carriersJsonSchema "" parsed carriersJsonSchema_wf)
      as (_ & H2).
    fold (validateCarriers parsed) in H2.
    fold (validateCarriers (snd (validateCarriers parsed))) in H2.
    apply H2, accepted_conforms in Hacc.
    destruct (snd (validateCarriers parsed)); try discriminate.
    rewrite conforms_carriersJsonSchema in Hacc. cbn [forallb] in Hacc.
    rewrite Hitems in Hacc. cbn [is_some andb] in Hacc.
    rewrite conforms_array, andb_true_r in Hacc.
    rewrite forallb_forall in Hacc. apply Hacc, Hin. }
  destruct x as [| | | | | |ps]; try discriminate. exists ps.
  cbn [pruned itemSchema] in Hp. apply andb_prop in Hp as [Hkeys _].
  assert (forall k, has_prop k
            (PCons "id" (SString false None)
            (PCons "name" (SString false None)
            (PCons "types" (SArray (SString false (Some transportTypes)))
            (PCons "lanes" (SArray laneSchema)
            (PCons "description" (SString true None)
            (PCons "logoEmoji" (SString true None) PNil)))))) = false ->
          lookup_prop k ps = None) as Hnone.
  { intros k Hk.
    match type of Hkeys with
    | forallb (fun kv => has_prop (fst kv) ?props) _ = true =>
        apply (lookup_prop_unknown (fun k => has_prop k props) k ps Hkeys Hk)
    end. }
  assert (suggestion_of (VObj ps)
          = VObj (ps ++ [("verified", VBool false); ("source", VStr "ai");
                         ("confidence", VNum (55 # 100))])) as Heq.
  { unfold suggestion_of. cbn [own_props].
    rewrite (set_prop_absent "verified") by (apply Hnone; reflexivity).
    rewrite (set_prop_absent "source").
    2:{ rewrite lookup_prop_app, Hnone by reflexivity. reflexivity. }
    rewrite (set_prop_absent "confidence").
    2:{ rewrite !lookup_prop_app, Hnone by reflexivity. reflexivity. }
    rewrite <- !app_assoc. reflexivity. }
  split; [reflexivity|]. split; [exact Heq|].
  intros k v Hk. rewrite Heq. rewrite get_VObj in *. rewrite lookup_prop_app.
  destruct (lookup_prop k ps) as [w|]; [exact Hk | discriminate].
Qed.

Lemma suggestion_of_validated_example :
  suggestion_of (VObj example_item_fields)
  = VObj (example_item_fields
            ++ [("verified", VBool false); ("source", VStr "ai");
                ("confidence", VNum (55 # 100))])%list.
Proof.
  destruct (suggestion_of_validated example_payload [VObj example_item_fields]
              (VObj example_item_fields))
    as (ps & Hps & Heq & _);
    [vm_compute; reflexivity | vm_compute; reflexivity | left; reflexivity |].
  injection Hps as <-. exact Heq.
Defined.

End CarrierSchemaExact.

Section SearchHandler.
Import Search.

(** X8.  Whatever the request, the environment and the state, one run of
    the search handler, whether it answers or rejects, makes at most three
    provider calls, in one of the four call sequences of the engine (a run
    of the engine that throws has made none), and changes no rate-limit
    bucket but the caller's own. *)
Theorem search_POST_footprint req env st :
  let st' := snd (POST req env st) in
  (exists p, In p call_sequences
             /\ provider_calls st' = (provider_calls st ++ p)%list)
  /\ (forall other, other <> client_ip req ->
                    aiBucket st' !! other = aiBucket st !! other).
Proof.
  cbv zeta.
  set (same := fun s' : State =>
                 provider_calls s' = provider_calls st
                 /\ forall other, other <> client_ip req ->
                                  aiBucket s' !! other = aiBucket st !! other).
  set (goal := fun s' : State =>
     (exists p, In p call_sequences
                /\ provider_calls s' = (provider_calls st ++ p)%list)
     /\ (forall other, other <> client_ip req ->
                       aiBucket s' !! other = aiBucket st !! other)).
  assert (Hsame : forall s', same s' -> goal s').
  { intros s' [Hc Hb]. split.
    - exists []. split; [cbn; tauto|]. rewrite Hc, app_nil_r. reflexivity.
    - exact Hb. }
  assert (Hengine : forall params s (Q : list jsval -> State -> Prop) Ex,
             same s ->
             (forall l s', goal s' -> Q l s') ->
             (forall err s', same s' -> Ex err s') ->
             post (aiFallback params (client_ip req)) env s Q Ex).
  { intros params s Q Ex [Hc Hb] HQ HE.
    pose proof (aiFallback_footprint params (client_ip req) env s) as Hfoot.
    pose proof (aiFallback_outcome params (client_ip req) env s) as Hout.
    unfold post in *.
    destruct (aiFallback params (client_ip req) env s) as [[l|err] s'].
    - destruct Hfoot as (p & m & Hp & Hm & Hcalls & Hbucket). apply HQ. split.
      + exists p. split; [exact Hp|]. rewrite Hcalls, Hc. reflexivity.
      + intros other Hne. rewrite Hbucket. destruct Hm as [<-|[<-|[]]].
        * apply Hb, Hne.
        * rewrite allowAiCall_other by auto. apply Hb, Hne.
    - destruct Hout as (_ & _ & ->). apply HE. split; [exact Hc|].
      intros other Hne. unfold past_gates. cbn [aiBucket with_aiBucket].
      rewrite allowAiCall_other by auto. apply Hb, Hne. }
  assert (Hpost : post (POST req) env st (fun _ s' => goal s') (fun _ s' => goal s')).
  { unfold POST.
    repeat first
      [ apply Hengine;
        [ first [ split; [reflexivity | intros; reflexivity]
                | match goal with H : same _ |- _ => exact H end ]
        | intros ? ? ?; cbv beta; repeat run_step; assumption
        | intros ? ? ?; cbv beta ]
      | run_step ];
      try (apply Hsame; first [ split; [reflexivity | intros; reflexivity]
                              | match goal with H : same _ |- _ => exact H end ]). }
  unfold post in Hpost. destruct (POST req env st) as [[r|err] st']; exact Hpost.
Qed.

Lemma aiFallback_nonempty params rateKey env st suggestions st1 :
  aiFallback params rateKey env st = (Ok suggestions, st1) -> suggestions <> [].
Proof.
  intros Hrun. pose proof (aiFallback_outcome params rateKey env st) as H.
  unfold post in H. rewrite Hrun in H. destruct H as (Hlen & _).
  destruct suggestions; [cbn in Hlen; lia | discriminate].
Qed.

Lemma aiFallback_returns params rateKey env st :
  sets_up params env ->
  exists suggestions st1, aiFallback params rateKey env st = (Ok suggestions, st1).
Proof.
  intros Hok.
  destruct (post_returns _ _ _ _ (aiFallback_good params rateKey env st Hok))
    as (l & s1 & Hrun & _).
  exists l, s1. exact Hrun.
Qed.

(** X9.  With the body read: when the connection to the database fails,
    the handler logs the error and runs the engine once, without querying,
    and the outcome is the engine's: its suggestions (at least one) under
    the database-unavailable notice with status 200, or, the engine running
    outside every [try] here, the engine's error, with which the handler
    rejects; when the connection succeeds and the query throws, the same
    with the query-error notice.  The engine returns whenever its client is
    built and its prompt written. *)
Theorem search_POST_database_failure req json env st :
  req_json req = Ok json ->
  nullish json = false ->
  let b := destructure json in
  let t0 := clock env (clock_reads st) in
  let engine := aiFallback (params_of b) (client_ip req) env in
  (forall err, dbConnect env = Throw err ->
     POST req env st
     = relayed "Database unavailable. Showing unverified AI suggestions." t0 env
         (engine (after_failure "Mongo connect error:" err st)))
  /\ (forall err, dbConnect env = Ok tt ->
        Carrier_find env (build_query b) 50 = Throw err ->
        POST req env st
        = relayed
            "We hit an error querying the database. Showing unverified AI suggestions."
            t0 env (engine (after_failure "DB query error:" err st)))
  /\ (forall st0 suggestions st1,
        engine st0 = (Ok suggestions, st1) -> suggestions <> [])
  /\ (sets_up (params_of b) env ->
      forall st0, exists suggestions st1, engine st0 = (Ok suggestions, st1)).
Proof.
  intros Hbody Hobject b t0 engine. split; [|split; [|split]].
  - intros err Hdb.
    unfold POST, bind at 1, Date_now. unfold bind at 1, await.
    rewrite Hbody, Hobject.
    unfold bind at 1, ask. unfold bind at 1, try_catch at 1, bind at 1, await.
    rewrite Hdb. unfold bind at 1, console_log. unfold bind at 1.
    unfold engine, after_failure, relayed, b.
    destruct (aiFallback _ _ env _) as [[suggestions|e] st1]; reflexivity.
  - intros err Hdb Hfind.
    unfold POST, bind at 1, Date_now. unfold bind at 1, await.
    rewrite Hbody, Hobject.
    unfold bind at 1, ask. unfold bind at 1, try_catch at 1, bind at 1, await.
    rewrite Hdb. unfold ret at 1. unfold try_catch, bind at 1, await.
    fold b. rewrite Hfind. unfold bind at 1, console_log. unfold bind at 1.
    unfold engine, after_failure, relayed.
    destruct (aiFallback _ _ env _) as [[suggestions|e] st1]; reflexivity.
  - intros st0 suggestions st1. apply aiFallback_nonempty.
  - intros Hok st0. apply aiFallback_returns, Hok.
Qed.

Lemma search_POST_database_failure_example :
  POST truck_request offline_env initial_state
  = relayed "Database unavailable. Showing unverified AI suggestions."
      1700000000000 offline_env
      (aiFallback (params_of (destructure truck_body)) "local" offline_env
         (after_failure "Mongo connect error:" "Missing MONGODB_URI"
            initial_state))
  /\ POST truck_request flaky_env initial_state
     = relayed
         "We hit an error querying the database. Showing unverified AI suggestions."
         1700000000000 flaky_env
         (aiFallback (params_of (destructure truck_body)) "local" flaky_env
            (after_failure "DB query error:" "MongoNetworkError" initial_state)).
Proof.
  split.
  - destruct (search_POST_database_failure truck_request truck_body offline_env
                initial_state eq_refl eq_refl) as (Hdown & _).
    exact (Hdown "Missing MONGODB_URI" eq_refl).
  - destruct (search_POST_database_failure truck_request truck_body flaky_env
                initial_state eq_refl eq_refl) as (_ & Hquery & _).
    exact (Hquery "MongoNetworkError" eq_refl eq_refl).
Defined.



End SearchHandler.

Section LimiterIsolation.
Import Search.

Lemma calls_cons key now ts (m : gmap string Bucket) :
  calls key (now :: ts) m
  = (fst (allowAiCall key now m) :: fst (calls key ts (snd (allowAiCall key now m))),
     snd (calls key ts (snd (allowAiCall key now m)))).
Proof.
  cbn [calls]. destruct (allowAiCall key now m) as [ok m']. cbn [fst snd].
  destruct (calls key ts m') as [oks m'']. reflexivity.
Qed.

(** The limiter reads and writes the bucket of its key only. *)
Lemma allowAiCall_local key now (m m' : gmap string Bucket) :
  m !! key = m' !! key ->
  fst (allowAiCall key now m) = fst (allowAiCall key now m')
  /\ snd (allowAiCall key now m) !! key = snd (allowAiCall key now m') !! key.
Proof.
  intros H. rewrite !allowAiCall_step. cbv zeta. cbn [fst snd].
  rewrite !lookup_insert_eq, H. split; reflexivity.
Qed.

Lemma calls_local key ts : forall m m' : gmap string Bucket,
  m !! key = m' !! key ->
  fst (calls key ts m) = fst (calls key ts m')
  /\ snd (calls key ts m) !! key = snd (calls key ts m') !! key.
Proof.
  induction ts as [|t ts IH]; intros m m' H; [split; [reflexivity | exact H]|].
  rewrite !calls_cons. cbn [fst snd].
  destruct (allowAiCall_local key t m m' H) as [H1 H2].
  destruct (IH _ _ H2) as [IH1 IH2]. rewrite H1, IH1. split; [reflexivity | exact IH2].
Qed.

(** X7.  The limiter keeps its keys apart: in any interleaving of calls
    for any keys, the answers given to one key, and the bucket left for
    it, are those of its own calls made alone. *)
Theorem allowAiCall_isolation key events (m : gmap string Bucket) :
  of_key key (fst (requests events m)) = fst (calls key (of_key key events) m)
  /\ snd (requests events m) !! key = snd (calls key (of_key key events) m) !! key.
Proof.
  revert m. induction events as [|[k now] events IH]; intros m; [split; reflexivity|].
  cbn [requests fst snd]. unfold of_key in *. cbn [List.filter fst].
  destruct (String.eqb_spec key k) as [<-|Hne].
  - cbn [map snd]. rewrite calls_cons. cbn [fst snd].
    destruct (IH (snd (allowAiCall key now m))) as [IH1 IH2].
    rewrite IH1. split; [reflexivity | exact IH2].
  - destruct (IH (snd (allowAiCall k now m))) as [IH1 IH2].
    assert (Hk : snd (allowAiCall k now m) !! key = m !! key)
      by (apply allowAiCall_other; auto).
    destruct (calls_local key
                (map snd (List.filter (fun e => String.eqb key (fst e)) events))
                _ _ Hk) as [L1 L2].
    rewrite IH1, IH2. split; [exact L1 | exact L2].
Qed.

End LimiterIsolation.

Section ContactLimiter.
Import Contact.

Lemma rateLimit_starts key limit windowMs now (m : gmap string RateEntry) :
  starts_window key windowMs now m ->
  rateLimit key limit windowMs now m
  = (true, <[key := {| count := 1; ts := now |}]> m).
Proof.
  unfold starts_window, rateLimit. destruct (m !! key) as [item|]; [|reflexivity].
  intros H. apply Z.ltb_lt in H. rewrite H. reflexivity.
Qed.

Lemma rateLimit_in_window key limit windowMs now k t0 (m : gmap string RateEntry) :
  m !! key = Some {| count := k; ts := t0 |} ->
  now - t0 <= windowMs ->
  rateLimit key limit windowMs now m
  = if limit <=? k then (false, m)
    else (true, <[key := {| count := k + 1; ts := t0 |}]> m).
Proof.
  intros Hm Hin. unfold rateLimit. rewrite Hm. cbn [ts count].
  assert ((windowMs <? now - t0) = false) as -> by (apply Z.ltb_ge; lia).
  reflexivity.
Qed.

Lemma rateLimit_other key key' limit windowMs now (m : gmap string RateEntry) :
  key <> key' -> snd (rateLimit key limit windowMs now m) !! key' = m !! key'.
Proof.
  intros Hne. unfold rateLimit.
  destruct (m !! key) as [item|]; [|cbn; by rewrite lookup_insert_ne].
  destruct (windowMs <? now - ts item); [cbn; by rewrite lookup_insert_ne|].
  destruct (limit <=? count item); [reflexivity | cbn; by rewrite lookup_insert_ne].
Qed.

(** Inside a window that began at [t0], with [k] submissions counted so
    far: the next ones pass while the count is below the limit, and the
    count stops at the limit. *)
Lemma submissions_in_window key limit windowMs t0 tl :
  forall k (m : gmap string RateEntry),
  1 <= k <= limit ->
  m !! key = Some {| count := k; ts := t0 |} ->
  Forall (fun t => t - t0 <= windowMs) tl ->
  fst (submissions key limit windowMs tl m)
    = map (fun i => k + Z.of_nat i <? limit) (seq 0 (List.length tl))
  /\ snd (submissions key limit windowMs tl m) !! key
      = Some {| count := Z.min limit (k + Z.of_nat (List.length tl)); ts := t0 |}.
Proof.
  induction tl as [|t tl IH]; intros k m Hk Hm Hin.
  - cbn. split; [reflexivity|]. rewrite Hm. do 2 f_equal. lia.
  - apply Forall_cons in Hin as [Ht Hin].
    cbn [submissions]. rewrite (rateLimit_in_window _ _ _ _ _ _ _ Hm Ht).
    destruct (Z.leb_spec limit k) as [Hfull | Hroom]; cbn [fst snd].
    + destruct (IH k m Hk Hm Hin) as [IH1 IH2]. split.
      * cbn [List.length seq map]. f_equal.
        -- symmetry. apply Z.ltb_ge. lia.
        -- rewrite IH1, <- seq_shift, map_map. apply map_ext. intros i.
           destruct (Z.ltb_spec (k + Z.of_nat i) limit),
                    (Z.ltb_spec (k + Z.of_nat (S i)) limit); try reflexivity; lia.
      * rewrite IH2. do 2 f_equal. cbn [List.length]. lia.
    + destruct (IH (k + 1) (<[key := {| count := k + 1; ts := t0 |}]> m))
        as [IH1 IH2]; [lia | apply lookup_insert_eq | assumption |]. split.
      * cbn [List.length seq map]. f_equal.
        -- symmetry. apply Z.ltb_lt. lia.
        -- rewrite IH1, <- seq_shift, map_map. apply map_ext. intros i.
           f_equal. lia.
      * rewrite IH2. do 2 f_equal. cbn [List.length]. lia.
Qed.

Lemma submissions_other key key' limit windowMs tl :
  key <> key' -> forall m : gmap string RateEntry,
  snd (submissions key limit windowMs tl m) !! key' = m !! key'.
Proof.
  intros Hne. induction tl as [|t tl IH]; intros m; [reflexivity|].
  cbn [submissions snd]. rewrite IH. apply rateLimit_other, Hne.
Qed.

(** X10.  The contact limiter: from a submission at [t0] that starts a
    window (no entry for the key, or one older than the window), while the
    following submissions stay inside the window exactly the first [limit]
    are let through; one made after the window is let through again; a
    refused submission leaves the map as it was; the entries of other keys
    are never touched. *)
Theorem rateLimit_quota key limit windowMs t0 tl (m : gmap string RateEntry) :
  1 <= limit ->
  starts_window key windowMs t0 m ->
  Forall (fun t => t - t0 <= windowMs) tl ->
  let run := submissions key limit windowMs (t0 :: tl) m in
  fst run = map (fun i => Z.of_nat i <? limit) (seq 0 (S (List.length tl)))
  /\ (forall t', windowMs < t' - t0 ->
        fst (rateLimit key limit windowMs t' (snd run)) = true)
  /\ (forall now (m' : gmap string RateEntry),
        fst (rateLimit key limit windowMs now m') = false ->
        snd (rateLimit key limit windowMs now m') = m')
  /\ (forall other, other <> key -> snd run !! other = m !! other).
Proof.
  intros Hlimit Hstart Hin run. subst run.
  cbn [submissions]. rewrite (rateLimit_starts _ _ _ _ _ Hstart). cbn [fst snd].
  destruct (submissions_in_window key limit windowMs t0 tl 1
              (<[key := {| count := 1; ts := t0 |}]> m)) as [H1 H2];
    [lia | apply lookup_insert_eq | assumption |].
  repeat split.
  - cbn [seq map]. f_equal; [symmetry; apply Z.ltb_lt; lia|].
    rewrite H1, <- seq_shift, map_map. apply map_ext. intros i. f_equal. lia.
  - intros t' Ht'. rewrite rateLimit_starts; [reflexivity|].
    unfold starts_window. rewrite H2. exact Ht'.
  - intros now m'. unfold rateLimit. destruct (m' !! key) as [item|]; [|discriminate].
    destruct (windowMs <? now - ts item); [discriminate|].
    destruct (limit <=? count item); [reflexivity | discriminate].
  - intros other Hother. rewrite submissions_other by auto.
    rewrite lookup_insert_ne; auto.
Qed.

Lemma rateLimit_quota_example :
  fst (submissions "198.51.100.9" default_limit default_windowMs
         (1000 :: repeat 2000 6) ∅)
    = [true; true; true; true; true; false; false]
  /\ fst (rateLimit "198.51.100.9" default_limit default_windowMs 3601001
            (snd (submissions "198.51.100.9" default_limit default_windowMs
                    (1000 :: repeat 2000 6) ∅))) = true.
Proof.
  destruct (rateLimit_quota "198.51.100.9" default_limit default_windowMs 1000
              (repeat 2000 6) ∅) as (Hfirst & Hagain & _).
  - unfold default_limit. lia.
  - exact I.
  - repeat constructor; unfold default_windowMs; lia.
  - split; [exact Hfirst | apply Hagain; unfold default_windowMs; lia].
Defined.

End ContactLimiter.

Section Sanitize.
Import Contact.

Lemma every_append P a b : every P (a ++ b) = every P a && every P b.
Proof.
  induction a as [|c a IH]; [reflexivity|].
  rewrite append_cons. cbn [every]. rewrite IH, andb_assoc. reflexivity.
Qed.

Lemma every_rev P s : every P (String.rev s) = every P s.
Proof.
  induction s as [|c s IH]; [reflexivity|].
  rewrite rev_cons, every_append, IH. cbn. rewrite andb_true_r, andb_comm. reflexivity.
Qed.

Lemma every_trimStart P s : every P s = true -> every P (Str.trimStart s) = true.
Proof.
  induction s as [|c s IH]; [auto|]. cbn [Str.trimStart].
  destruct (Str.is_space c); [|auto]. cbn. intros [_ H]%andb_prop. auto.
Qed.

Lemma every_trim P s : every P s = true -> every P (Str.trim s) = true.
Proof.
  intros H. unfold Str.trim, Str.trimEnd.
  rewrite every_rev. apply every_trimStart. rewrite every_rev.
  apply every_trimStart, H.
Qed.

Lemma every_substring P s : forall i n,
  every P s = true -> every P (String.substring i n s) = true.
Proof.
  induction s as [|c s IH]; intros i n H.
  - destruct i, n; reflexivity.
  - cbn in H. apply andb_prop in H as [Hc Hs].
    destruct i as [|i]; cbn.
    + destruct n as [|n]; [reflexivity|]. cbn. rewrite Hc. apply IH, Hs.
    + apply IH, Hs.
Qed.

Lemma length_substring s : forall n,
  (String.length (String.substring 0 n s) <= n)%nat.
Proof.
  induction s as [|c s IH]; intros [|n]; cbn; try lia.
  specialize (IH n). lia.
Qed.

Lemma no_controls_remove s : no_controls (remove_controls s) = true.
Proof.
  unfold no_controls. induction s as [|c s IH]; [reflexivity|].
  cbn [remove_controls]. destruct (is_control c) eqn:E; [exact IH|].
  cbn. rewrite E. exact IH.
Qed.

Lemma remove_controls_clean s : no_controls s = true -> remove_controls s = s.
Proof.
  unfold no_controls. induction s as [|c s IH]; [reflexivity|].
  cbn. intros [Hc Hs]%andb_prop. apply negb_true_iff in Hc. rewrite Hc, IH; auto.
Qed.

Lemma trimEnd_rec_idempotent s : trimEnd_rec (trimEnd_rec s) = trimEnd_rec s.
Proof.
  induction s as [|c s IH]; [reflexivity|]. cbn [trimEnd_rec].
  destruct (trimEnd_rec s) as [|d r] eqn:E.
  - destruct (Str.is_space c) eqn:Hc; [reflexivity|]. cbn. rewrite Hc. reflexivity.
  - cbn [trimEnd_rec] in IH |- *. rewrite IH. reflexivity.
Qed.

Lemma trimStart_trimEnd_rec s :
  Str.trimStart s = s -> Str.trimStart (trimEnd_rec s) = trimEnd_rec s.
Proof.
  destruct s as [|c s]; [reflexivity|]. cbn [Str.trimStart trimEnd_rec].
  destruct (Str.is_space c) eqn:Hc.
  - intros H. exfalso.
    assert (L : forall x, (String.length (Str.trimStart x) <= String.length x)%nat).
    { induction x as [|a x IHx]; cbn; [lia|]. destruct (Str.is_space a); cbn; lia. }
    specialize (L s). rewrite H in L. cbn in L. lia.
  - intros _. destruct (trimEnd_rec s); cbn; rewrite Hc; reflexivity.
Qed.

Lemma trimStart_idempotent s : Str.trimStart (Str.trimStart s) = Str.trimStart s.
Proof.
  induction s as [|c s IH]; [reflexivity|]. cbn [Str.trimStart].
  destruct (Str.is_space c) eqn:Hc; [exact IH|]. cbn. rewrite Hc. reflexivity.
Qed.

Lemma trim_idempotent s : Str.trim (Str.trim s) = Str.trim s.
Proof.
  unfold Str.trim. rewrite !trimEnd_trimEnd_rec.
  rewrite trimStart_trimEnd_rec by apply trimStart_idempotent.
  apply trimEnd_rec_idempotent.
Qed.

Lemma length_trimStart s : (String.length (Str.trimStart s) <= String.length s)%nat.
Proof.
  induction s as [|a s IH]; cbn; [lia|]. destruct (Str.is_space a); cbn; lia.
Qed.

Lemma length_rev s : String.length (String.rev s) = String.length s.
Proof.
  induction s as [|c s IH]; [reflexivity|].
  rewrite rev_cons.
  assert (L : forall a b, String.length (a ++ b) = (String.length a + String.length b)%nat).
  { induction a as [|x a IHa]; intros b; [reflexivity|].
    rewrite append_cons. cbn. rewrite IHa. reflexivity. }
  rewrite L, IH. cbn. lia.
Qed.

Lemma length_trim s : (String.length (Str.trim s) <= String.length s)%nat.
Proof.
  unfold Str.trim, Str.trimEnd. rewrite length_rev.
  etransitivity; [apply length_trimStart|]. rewrite length_rev. apply length_trimStart.
Qed.

Lemma length_remove_controls s :
  (String.length (remove_controls s) <= String.length s)%nat.
Proof.
  induction s as [|c s IH]; cbn; [lia|]. destruct (is_control c); cbn; lia.
Qed.

Lemma no_controls_sanitize s : no_controls (sanitize s) = true.
Proof. apply every_trim, no_controls_remove. Qed.

(** X11.  What [sanitize] returns holds no control character, has no
    white space at either end, is no longer than the input, and is left
    unchanged by a second [sanitize]. *)
Theorem sanitize_clean s :
  no_controls (sanitize s) = true
  /\ Str.trim (sanitize s) = sanitize s
  /\ sanitize (sanitize s) = sanitize s
  /\ (String.length (sanitize s) <= String.length s)%nat.
Proof.
  split; [apply no_controls_sanitize|]. split; [apply trim_idempotent|]. split.
  - unfold sanitize at 1. rewrite remove_controls_clean by apply no_controls_sanitize.
    apply trim_idempotent.
  - unfold sanitize. etransitivity; [apply length_trim | apply length_remove_controls].
Qed.

End Sanitize.

Section Email.
Import Contact.

Lemma dot_then_char_iff l :
  dot_then_char l = true
  <-> exists mid r post,
        l = (mid ++ "."%char :: r :: post)%list
        /\ forallb any_char mid = true /\ any_char r = true.
Proof.
  unfold any_char. split.
  - induction l as [|a rest IH]; [discriminate|]. cbn [dot_then_char].
    destruct (is_line_terminator a) eqn:Ha; [discriminate|].
    destruct (Ascii.eqb a "." && _) eqn:E.
    + intros _. apply andb_prop in E as [E1 E2]. apply Ascii.eqb_eq in E1. subst a.
      destruct rest as [|c rest]; [discriminate|].
      exists [], c, rest. auto.
    + intros H. destruct (IH H) as (mid & r & post & -> & Hmid & Hr).
      exists (a :: mid), r, post. cbn. rewrite Ha. auto.
  - intros (mid & r & post & -> & Hmid & Hr).
    induction mid as [|a mid IH]; cbn [app dot_then_char].
    + change (is_line_terminator ".") with false. cbv iota.
      rewrite Ascii.eqb_refl, Hr. reflexivity.
    + cbn in Hmid. apply andb_prop in Hmid as [Ha Hmid].
      apply negb_true_iff in Ha. rewrite Ha.
      destruct (Ascii.eqb a "." && _); [reflexivity | apply IH, Hmid].
Qed.

Lemma after_at_iff l :
  after_at l = true
  <-> exists q mid r post,
        l = (q :: mid ++ "."%char :: r :: post)%list
        /\ any_char q = true /\ forallb any_char mid = true /\ any_char r = true.
Proof.
  destruct l as [|q rest]; cbn [after_at].
  - split; [discriminate | intros (? & ? & ? & ? & [=] & _)].
  - rewrite andb_true_iff, dot_then_char_iff. fold (any_char q). split.
    + intros (Hq & mid & r & post & -> & Hmid & Hr). exists q, mid, r, post. auto.
    + intros (q' & mid & r & post & [= <- ->] & Hq & Hmid & Hr).
      split; [exact Hq|]. exists mid, r, post. auto.
Qed.

Lemma find_at_iff l : forall prev_ok,
  find_at prev_ok l = true
  <-> (prev_ok = true /\ exists rest, l = "@"%char :: rest /\ after_at rest = true)
      \/ (exists pre p rest,
            l = (pre ++ p :: "@"%char :: rest)%list
            /\ any_char p = true /\ after_at rest = true).
Proof.
  induction l as [|c l IH]; intros prev_ok.
  - cbn. split; [discriminate|].
    intros [(_ & ? & [=] & _) | (pre & ? & ? & H & _)]; destruct pre; discriminate.
  - cbn [find_at]. rewrite orb_true_iff, !andb_true_iff, IH. fold (any_char c). split.
    + intros [((Hp & Hc) & Ha) | [(Hc & rest & -> & Ha) | (pre & p & rest & -> & Hp & Ha)]].
      * apply Ascii.eqb_eq in Hc. subst c. left. eauto.
      * right. exists [], c, rest. auto.
      * right. exists (c :: pre), p, rest. auto.
    + intros [(Hp & rest & [= -> ->] & Ha) | (pre & p & rest & E & Hp & Ha)].
      * left. rewrite Ascii.eqb_refl. auto.
      * right. destruct pre as [|c' pre]; injection E as -> ->.
        -- left. eauto.
        -- right. eauto 6.
Qed.

(** X12.  [isValidEmail] accepts exactly the strings that hold, somewhere,
    a character, an [@], one or more characters, a dot and a character,
    none of them a line terminator; nothing is required of what stands
    before or behind (the pattern is not anchored). *)
Theorem isValidEmail_shape e :
  isValidEmail e = true <-> email_shaped (list_ascii_of_string e).
Proof.
  unfold isValidEmail, email_shaped. rewrite find_at_iff. split.
  - intros [(? & _) | (pre & p & rest & -> & Hp & Ha)]; [discriminate|].
    apply after_at_iff in Ha as (q & mid & r & post & -> & Hq & Hmid & Hr).
    exists pre, p, q, mid, r, post. auto.
  - intros (pre & p & q & mid & r & post & -> & Hp & Hq & Hmid & Hr).
    right. exists pre, p, (q :: mid ++ "."%char :: r :: post)%list.
    split; [reflexivity|]. split; [exact Hp|].
    apply after_at_iff. exists q, mid, r, post. auto.
Qed.

End Email.

Section ContactHandler.
Import Contact.

Lemma form_of_run b env st : form_of b env st = (form_outcome b env, st).
Proof.
  unfold form_outcome, form_of, field, String_, bind, ask, await, ret.
  repeat (destruct (ToString _ _); [|reflexivity]). reflexivity.
Qed.

(** The handler, path by path. *)
Lemma contact_POST_paths req env st :
  let ip := client_ip req in
  let st1 := snd (limited ip env st) in
  POST req env st =
    if negb (fst (limited ip env st)) then
      (Ok (answer 429 (error_body "Too many requests. Please try again later.")), st1)
    else
      match req_json req with
      | Throw err =>
          (Ok (answer 500 (error_body "Failed to send message.")), with_error err st1)
      | Ok json =>
          let b := destructure json in
          if honeypot_set b then (Ok (answer 200 ok_body), st1)
          else
            match form_outcome b env with
            | Throw err =>
                (Ok (answer 500 (error_body "Failed to send message.")),
                 with_error err st1)
            | Ok v =>
                if invalid_form v then
                  (Ok (answer 400 (error_body "Invalid form data.")), st1)
                else if not_configured env then
                  (Ok (answer 500 (error_body "Email not configured on server.")),
                   st1)
                else
                  let m := composed_mail env v ip in
                  match sendMail env m with
                  | Ok _ => (Ok (answer 200 ok_body), with_mail m st1)
                  | Throw err =>
                      (Ok (answer 500 (error_body "Failed to send message.")),
                       with_error err st1)
                  end
            end
      end.
Proof.
  cbv zeta. unfold POST, try_catch, bind at 1, rateLimitM, bind at 1, Date_now, limited.
  cbv zeta. cbn [attempts fst snd clock_reads outbox console].
  destruct (fst (rateLimit _ _ _ _ _)); cbn [negb]; [|reflexivity].
  unfold bind at 1, await. destruct (req_json req) as [json|err]; [|reflexivity].
  fold (honeypot_set (destructure json)).
  destruct (honeypot_set (destructure json)); [reflexivity|].
  unfold bind at 1. rewrite form_of_run.
  destruct (form_outcome (destructure json) env) as [v|err]; [|reflexivity].
  fold (invalid_form v).
  destruct (invalid_form _); [reflexivity|].
  unfold bind at 1, ask. fold (not_configured env).
  destruct (not_configured env); [reflexivity|].
  unfold bind at 1, transporter_sendMail.
  fold (composed_mail env v (client_ip req)).
  destruct (sendMail env _) as [[]|err]; reflexivity.
Qed.

Lemma limited_state ip env st :
  clock_reads (snd (limited ip env st)) = S (clock_reads st)
  /\ outbox (snd (limited ip env st)) = outbox st
  /\ console (snd (limited ip env st)) = console st
  /\ attempts (snd (limited ip env st))
     = snd (rateLimit ip default_limit default_windowMs
              (clock env (clock_reads st)) (attempts st)).
Proof. repeat split. Qed.

(** X13.  The contact handler never throws: every request, readable or
    not, whatever JSON value its body and each of its fields hold, is
    answered with status 200, 400, 429 or 500; a 200 carries
    [{ok: true}], every other status an [error] with a non-empty message.
    One run reads the clock once, changes the limiter's map by one
    [rateLimit] for the caller's IP and nothing else, sends at most one
    mail (and then answers 200), and writes to the log only when it
    answers 500 without having sent. *)
Theorem contact_POST_total req env st :
  exists r st',
    POST req env st = (Ok r, st')
    /\ In (status r) [200; 400; 429; 500]
    /\ (status r = 200 -> body r = VObj [("ok", VBool true)])
    /\ (status r <> 200 ->
        exists msg, body r = VObj [("error", VStr msg)] /\ msg <> "")
    /\ clock_reads st' = S (clock_reads st)
    /\ attempts st'
       = snd (rateLimit (client_ip req) default_limit default_windowMs
                (clock env (clock_reads st)) (attempts st))
    /\ (outbox st' = outbox st
        \/ status r = 200 /\ exists m, outbox st' = (outbox st ++ [m])%list)
    /\ (console st' = console st
        \/ status r = 500 /\ outbox st' = outbox st
           /\ exists err,
                console st' = (console st ++ [("/api/contact error", err)])%list).
Proof.
  rewrite contact_POST_paths. cbv zeta.
  destruct (limited_state (client_ip req) env st) as (Hc & Ho & Hl & Ha).
  set (st1 := snd (limited (client_ip req) env st)) in *.
  assert (Herr : forall code msg, code <> 200 -> msg <> "" ->
            answer code (error_body msg) = answer code (error_body msg)
            /\ (status (answer code (error_body msg)) = 200 ->
                body (answer code (error_body msg)) = VObj [("ok", VBool true)])
            /\ (status (answer code (error_body msg)) <> 200 ->
                exists msg', body (answer code (error_body msg))
                             = VObj [("error", VStr msg')] /\ msg' <> "")).
  { intros code msg Hcode Hmsg. split; [reflexivity|]. split.
    - cbn. intros; contradiction.
    - intros _. exists msg. split; [reflexivity | exact Hmsg]. }
  assert (Hok : (status (answer 200 ok_body) = 200 ->
                 body (answer 200 ok_body) = VObj [("ok", VBool true)])
                /\ (status (answer 200 ok_body) <> 200 ->
                    exists msg', body (answer 200 ok_body)
                                 = VObj [("error", VStr msg')] /\ msg' <> "")).
  { split; [reflexivity | cbn; intros; contradiction]. }
  destruct (fst (limited _ _ _)); cbn [negb].
  2:{ do 2 eexists. split; [reflexivity|].
      destruct (Herr 429 "Too many requests. Please try again later.")
        as (_ & H1 & H2); [lia | discriminate |].
      cbn [status answer In]. repeat split; auto; cbn; tauto. }
  destruct (req_json req) as [body|err].
  2:{ do 2 eexists. split; [reflexivity|].
      destruct (Herr 500 "Failed to send message.") as (_ & H1 & H2);
        [lia | discriminate |].
      split; [cbn; tauto|]. split; [exact H1|]. split; [exact H2|].
      cbn [with_error clock_reads attempts outbox console].
      repeat split; auto. right. repeat split; auto. eauto. }
  destruct (honeypot_set _).
  { do 2 eexists. split; [reflexivity|]. destruct Hok as [H1 H2].
    split; [cbn; tauto|]. repeat split; auto. }
  destruct (form_outcome _ env) as [v|err].
  2:{ do 2 eexists. split; [reflexivity|].
      destruct (Herr 500 "Failed to send message.") as (_ & H1 & H2);
        [lia | discriminate |].
      split; [cbn; tauto|]. split; [exact H1|]. split; [exact H2|].
      cbn [with_error clock_reads attempts outbox console].
      repeat split; auto. right. repeat split; auto. rewrite Hl. eauto. }
  destruct (invalid_form _).
  { do 2 eexists. split; [reflexivity|].
    destruct (Herr 400 "Invalid form data.") as (_ & H1 & H2); [lia | discriminate |].
    split; [cbn; tauto|]. repeat split; auto. }
  destruct (not_configured env).
  { do 2 eexists. split; [reflexivity|].
    destruct (Herr 500 "Email not configured on server.") as (_ & H1 & H2);
      [lia | discriminate |].
    split; [cbn; tauto|]. repeat split; auto. }
  destruct (sendMail env _) as [?|err].
  - do 2 eexists. split; [reflexivity|]. destruct Hok as [H1 H2].
    split; [cbn; tauto|]. split; [exact H1|]. split; [exact H2|].
    cbn [with_mail clock_reads attempts outbox console].
    repeat split; auto. right. split; [reflexivity|]. rewrite Ho. eauto.
  - do 2 eexists. split; [reflexivity|].
    destruct (Herr 500 "Failed to send message.") as (_ & H1 & H2);
      [lia | discriminate |].
    split; [cbn; tauto|]. split; [exact H1|]. split; [exact H2|].
    cbn [with_error clock_reads attempts outbox console].
    repeat split; auto. right. repeat split; auto. rewrite Hl. eauto.
Qed.

(** X14.  A caller the limiter refuses gets 429 before the body is read:
    whatever the body (unreadable, honeypot, valid), no mail is sent,
    nothing is logged and the limiter's map stays as it was. *)
Theorem contact_POST_rate_limited req env st :
  fst (rateLimit (client_ip req) default_limit default_windowMs
         (clock env (clock_reads st)) (attempts st)) = false ->
  POST req env st
  = (Ok {| status := 429; headers := [];
           body := VObj [("error", VStr "Too many requests. Please try again later.")] |},
     {| attempts := attempts st; clock_reads := S (clock_reads st);
        outbox := outbox st; console := console st |}).
Proof.
  intros Hno. rewrite contact_POST_paths. cbv zeta. unfold limited. cbv zeta.
  cbn [fst snd]. rewrite Hno. cbn [negb]. do 2 f_equal.
  pose proof Hno as Hsame. unfold rateLimit in Hsame |- *.
  destruct (attempts st !! client_ip req) as [item|]; [|discriminate].
  destruct (default_windowMs <? _); [discriminate|].
  destruct (default_limit <=? count item); [reflexivity | discriminate].
Qed.

Lemma contact_POST_rate_limited_example :
  fst (POST unreadable_request contact_env contact_exhausted)
  = Ok {| status := 429; headers := [];
          body := VObj [("error", VStr "Too many requests. Please try again later.")] |}
  /\ console (snd (POST unreadable_request contact_env contact_exhausted)) = [].
Proof.
  rewrite (contact_POST_rate_limited unreadable_request contact_env contact_exhausted).
  - split; reflexivity.
  - vm_compute. reflexivity.
Defined.

(** X15.  A body that is not JSON, from a caller the limiter lets through,
    is answered (not thrown): status 500 with the failed-to-send message,
    the error on the log, no mail, and the submission still charged to the
    caller. *)
Theorem contact_POST_unreadable_body req err env st :
  req_json req = Throw err ->
  fst (rateLimit (client_ip req) default_limit default_windowMs
         (clock env (clock_reads st)) (attempts st)) = true ->
  exists st',
    POST req env st
    = (Ok {| status := 500; headers := [];
             body := VObj [("error", VStr "Failed to send message.")] |}, st')
    /\ console st' = (console st ++ [("/api/contact error", err)])%list
    /\ outbox st' = outbox st
    /\ attempts st'
       = <[client_ip req :=
             charged (clock env (clock_reads st)) (attempts st !! client_ip req)]>
           (attempts st).
Proof.
  intros Hbody Hpass. rewrite contact_POST_paths. cbv zeta.
  unfold limited. cbv zeta. cbn [fst snd]. rewrite Hpass, Hbody. cbn [negb].
  eexists. split; [reflexivity|].
  cbn [with_error console outbox attempts].
  repeat split. apply rateLimit_pass, Hpass.
Qed.

Lemma contact_POST_unreadable_body_example :
  exists st',
    POST unreadable_request contact_env contact_initial
    = (Ok {| status := 500; headers := [];
             body := VObj [("error", VStr "Failed to send message.")] |}, st')
    /\ console st'
       = [("/api/contact error", "SyntaxError: Unexpected end of JSON input")]
    /\ attempts st' !! "198.51.100.9" = Some {| count := 1; ts := 1700000000000 |}.
Proof.
  destruct (contact_POST_unreadable_body unreadable_request
              "SyntaxError: Unexpected end of JSON input" contact_env contact_initial)
    as (st' & Hrun & Hlog & _ & Hatt); [reflexivity | reflexivity |].
  exists st'. split; [exact Hrun|]. split; [exact Hlog|].
  rewrite Hatt. apply lookup_insert_eq.
Defined.

Lemma length_slice0 n s : 0 <= n -> Z.of_nat (String.length (Str.slice0 n s)) <= n.
Proof.
  intros Hn. unfold Str.slice0.
  pose proof (length_substring s (Z.to_nat n)). lia.
Qed.

Lemma no_controls_slice0 n s : no_controls s = true -> no_controls (Str.slice0 n s) = true.
Proof. apply every_substring. Qed.

Lemma truthy_default o : truthy o = true -> default "" o <> "".
Proof.
  destruct o as [s|]; [|discriminate]. cbn.
  destruct (String.eqb_spec s ""); [discriminate | auto].
Qed.

(** The fields of a form that was built, one by one. *)
Lemma form_outcome_fields b env v :
  form_outcome b env = Ok v ->
  exists name email company phone subject message,
    ToString (Number_toString env) (or_default_of (Contact.name b) (VStr ""))
      = Ok name
    /\ ToString (Number_toString env) (or_default_of (Contact.email b) (VStr ""))
       = Ok email
    /\ ToString (Number_toString env) (or_else (Contact.company b) (VStr ""))
       = Ok company
    /\ ToString (Number_toString env) (or_else (Contact.phone b) (VStr ""))
       = Ok phone
    /\ ToString (Number_toString env)
         (or_default_of (Contact.subject b) (VStr "General question"))
       = Ok subject
    /\ ToString (Number_toString env)
         (or_default_of (Contact.message b) (VStr "")) = Ok message
    /\ v = {| v_name := Str.slice0 80 (sanitize name);
              v_email := Str.slice0 120 (sanitize email);
              v_company := Str.slice0 120 (sanitize company);
              v_phone := Str.slice0 40 (sanitize phone);
              v_subject := Str.slice0 60 (sanitize subject);
              v_message := Str.slice0 2000 (sanitize message);
              v_consent :=
                truthy_val (or_default_of (Contact.consent b) (VBool false)) |}.
Proof.
  unfold form_outcome, form_of, field, String_, bind, ask, await, ret.
  destruct (ToString _ (or_default_of (Contact.name b) _)) as [name|]; [|discriminate].
  destruct (ToString _ (or_default_of (Contact.email b) _)) as [email|]; [|discriminate].
  destruct (ToString _ (or_else (Contact.company b) _)) as [company|]; [|discriminate].
  destruct (ToString _ (or_else (Contact.phone b) _)) as [phone|]; [|discriminate].
  destruct (ToString _ (or_default_of (Contact.subject b) _)) as [subject|]; [|discriminate].
  destruct (ToString _ (or_default_of (Contact.message b) _)) as [message|]; [|discriminate].
  cbn [fst]. intros [= <-].
  exists name, email, company, phone, subject, message.
  repeat (split; [reflexivity|]). reflexivity.
Qed.

(** X24.  Whatever JSON values the body holds, a form the handler builds
    from it (the object it validates and relays) is bounded and clean:
    name at most 80 characters, email and company 120, phone 40, subject
    60, message 2000, and no field holds a control character, so none can
    break a header line of the mail; building it changes no state. *)
Theorem form_of_bounds b env st v st' :
  form_of b env st = (Ok v, st') ->
  st' = st
  /\ Forall (fun field => (String.length (fst field) <= snd field)%nat
                          /\ no_controls (fst field) = true)
       [(v_name v, 80%nat); (v_email v, 120%nat); (v_company v, 120%nat);
        (v_phone v, 40%nat); (v_subject v, 60%nat); (v_message v, 2000%nat)].
Proof.
  rewrite form_of_run. intros [= Hv <-]. split; [reflexivity|].
  destruct (form_outcome_fields _ _ _ Hv)
    as (name & email & company & phone & subject & message
        & _ & _ & _ & _ & _ & _ & ->).
  cbn [v_name v_email v_company v_phone v_subject v_message].
  assert (H : forall n s, 0 <= n ->
            (String.length (Str.slice0 n (sanitize s)) <= Z.to_nat n)%nat
            /\ no_controls (Str.slice0 n (sanitize s)) = true).
  { intros n s Hn. split.
    - pose proof (length_slice0 n (sanitize s) Hn). lia.
    - apply no_controls_slice0, no_controls_sanitize. }
  repeat (apply List.Forall_cons;
          [cbn [fst snd];
           first [ exact (H 80 _ ltac:(lia)) | exact (H 120 _ ltac:(lia))
                 | exact (H 40 _ ltac:(lia)) | exact (H 60 _ ltac:(lia))
                 | exact (H 2000 _ ltac:(lia)) ] |]).
  apply List.Forall_nil.
Qed.

Lemma form_of_bounds_example :
  exists v,
    form_of (destructure human_body) contact_env contact_initial
    = (Ok v, contact_initial)
    /\ v_email v = "ada@example.org"
    /\ Forall (fun field => (String.length (fst field) <= snd field)%nat
                            /\ no_controls (fst field) = true)
         [(v_name v, 80%nat); (v_email v, 120%nat); (v_company v, 120%nat);
          (v_phone v, 40%nat); (v_subject v, 60%nat); (v_message v, 2000%nat)].
Proof.
  eexists. split; [vm_compute; reflexivity|]. split; [reflexivity|].
  refine (proj2 (form_of_bounds (destructure human_body) contact_env
                   contact_initial _ contact_initial _)).
  vm_compute. reflexivity.
Defined.

(** X16.  Whenever a run of the contact handler puts a mail in the outbox,
    the transport accepted it and the answer is 200; the body was
    readable, its honeypot read as false and its consent as true; the
    mail's [replyTo] is the sanitised, truncated string form of the
    [email] field: a string the address pattern accepts, without control
    characters (no header injection), of at most 120 characters; the
    recipient is [CONTACT_TO], or [ZOHO_USER] when that is unset, and is
    not empty. *)
Theorem contact_POST_mail req env st m :
  outbox (snd (POST req env st)) = (outbox st ++ [m])%list ->
  exists json text,
    req_json req = Ok json
    /\ fst (POST req env st)
       = Ok {| status := 200; headers := []; body := VObj [("ok", VBool true)] |}
    /\ sendMail env m = Ok tt
    /\ truthy_val (or_default_of (companyWebsite (destructure json)) (VStr ""))
       = false
    /\ truthy_val (or_default_of (consent (destructure json)) (VBool false))
       = true
    /\ ToString (Number_toString env)
         (or_default_of (email (destructure json)) (VStr "")) = Ok text
    /\ mail_replyTo m = Str.slice0 120 (sanitize text)
    /\ isValidEmail (mail_replyTo m) = true
    /\ no_controls (mail_replyTo m) = true
    /\ (String.length (mail_replyTo m) <= 120)%nat
    /\ mail_to m = default "" (if truthy (CONTACT_TO env) then CONTACT_TO env
                               else ZOHO_USER env)
    /\ mail_to m <> ""
    /\ truthy (ZOHO_USER env) = true /\ truthy (ZOHO_PASS env) = true.
Proof.
  rewrite contact_POST_paths. cbv zeta.
  destruct (limited_state (client_ip req) env st) as (_ & Ho & _ & _).
  set (st1 := snd (limited (client_ip req) env st)) in *.
  assert (Hsame : forall l : list Mail, l = (l ++ [m])%list -> False).
  { intros l H. apply (f_equal (@List.length _)) in H.
    rewrite List.length_app in H. cbn in H. lia. }
  destruct (fst (limited _ _ _)); cbn [negb snd];
    [|rewrite Ho; intros H; destruct (Hsame _ H)].
  destruct (req_json req) as [json|err];
    [|cbn [snd with_error outbox]; rewrite Ho; intros H; destruct (Hsame _ H)].
  destruct (honeypot_set (destructure json)) eqn:Hhoney;
    [cbn [snd]; rewrite Ho; intros H; destruct (Hsame _ H)|].
  destruct (form_outcome (destructure json) env) as [v|err] eqn:Hform;
    [|cbn [snd with_error outbox]; rewrite Ho; intros H; destruct (Hsame _ H)].
  destruct (invalid_form _) eqn:Hvalid;
    [cbn [snd]; rewrite Ho; intros H; destruct (Hsame _ H)|].
  destruct (not_configured env) eqn:Hconf;
    [cbn [snd]; rewrite Ho; intros H; destruct (Hsame _ H)|].
  destruct (sendMail env _) as [[]|err] eqn:Hsend;
    [|cbn [snd with_error outbox]; rewrite Ho; intros H; destruct (Hsame _ H)].
  cbn [snd fst with_mail outbox]. rewrite Ho. intros H.
  apply List.app_inj_tail in H as [_ <-].
  unfold invalid_form in Hvalid. apply orb_false_elim in Hvalid as [Hvalid Hconsent].
  apply orb_false_elim in Hvalid as [Hvalid Hmessage].
  apply orb_false_elim in Hvalid as [Hname Hemail].
  apply negb_false_iff in Hemail, Hconsent.
  unfold not_configured in Hconf. cbv zeta in Hconf.
  apply orb_false_elim in Hconf as [Hconf Hto].
  apply orb_false_elim in Hconf as [Huser Hpass].
  apply negb_false_iff in Huser, Hpass, Hto.
  destruct (form_outcome_fields _ _ _ Hform)
    as (name & text & company & phone & subject & message
        & _ & Htext & _ & _ & _ & _ & ->).
  cbn [v_email v_consent] in Hemail, Hconsent.
  exists json, text.
  split; [reflexivity|]. split; [reflexivity|]. split; [exact Hsend|].
  split; [exact Hhoney|]. split; [exact Hconsent|]. split; [exact Htext|].
  cbn [composed_mail mail_replyTo mail_to v_email].
  split; [reflexivity|]. split; [exact Hemail|]. split.
  { apply no_controls_slice0, no_controls_sanitize. }
  split.
  { pose proof (length_slice0 120 (sanitize text) ltac:(lia)). lia. }
  split; [reflexivity|]. split; [apply truthy_default, Hto|]. auto.
Qed.

Lemma contact_POST_mail_example :
  exists m,
    outbox (snd (POST human_request contact_env contact_initial)) = [m]
    /\ mail_replyTo m = "ada@example.org"
    /\ mail_to m = "desk@lanelist.example".
Proof.
  eexists.
  assert (H : outbox (snd (POST human_request contact_env contact_initial))
              = ([] ++ [_])%list)
    by (vm_compute; reflexivity).
  destruct (contact_POST_mail human_request contact_env contact_initial _ H)
    as (json & text & Hb & _ & _ & _ & _ & Htext & Hreply & _ & _ & _ & Hto & _).
  injection Hb as <-.
  split; [exact H|]. split; [|rewrite Hto; reflexivity].
  rewrite Hreply. vm_compute in Htext. injection Htext as <-. reflexivity.
Defined.

End ContactHandler.

Section ConnectionCache.
Import Db.
Context {Mongoose : Type}.

Lemma dbConnect_settled (outcome : result Mongoose) (env : Env) :
  truthy (MONGODB_URI env) = true ->
  dbConnect env (settled (default "" (MONGODB_URI env)) outcome)
  = (outcome, settled (default "" (MONGODB_URI env)) outcome).
Proof.
  intros Huri. unfold dbConnect, settled. cbn [conn promise connects].
  destruct outcome as [c|err]; [reflexivity|].
  rewrite Huri. reflexivity.
Qed.

Lemma repeatedly_same {E S A} (m : M E S A) (e : E) (s : S) (r : result A) n :
  m e s = (r, s) -> repeatedly n m e s = (repeat r n, s).
Proof.
  intros H. induction n as [|n IH]; [reflexivity|].
  cbn [repeatedly]. rewrite H. cbn [fst snd]. rewrite IH. reflexivity.
Qed.

(** X17.  From a fresh cache, any number of calls of [dbConnect] make one
    call of [mongoose.connect] at most: with [MONGODB_URI] set, every call
    settles as the first connection attempt did (a connection is reused, a
    failure is rethrown and never retried); with it unset or empty, every
    call throws [Missing MONGODB_URI] and the cache stays fresh. *)
Theorem dbConnect_single_attempt (env : @Env Mongoose) n :
  let uri := default "" (MONGODB_URI env) in
  let outcome := mongoose_connect env 0 uri in
  repeatedly (S n) dbConnect env fresh
  = if truthy (MONGODB_URI env)
    then (repeat outcome (S n), settled uri outcome)
    else (repeat (Throw "Missing MONGODB_URI") (S n), fresh).
Proof.
  intros uri outcome. destruct (truthy (MONGODB_URI env)) eqn:Huri.
  - cbn [repeatedly].
    assert (Hfirst : dbConnect env fresh = (outcome, settled uri outcome)).
    { unfold dbConnect, fresh, settled. cbn [conn promise connects].
      rewrite Huri. cbn [negb List.length app fst snd]. fold uri. fold outcome.
      destruct outcome; reflexivity. }
    rewrite Hfirst. cbn [fst snd]. subst uri.
    rewrite (repeatedly_same _ _ _ outcome n (dbConnect_settled outcome env Huri)).
    reflexivity.
  - apply repeatedly_same. unfold dbConnect, fresh. cbn [conn].
    rewrite Huri. reflexivity.
Qed.

End ConnectionCache.

(** A first connection that fails is the answer for good: the second
    attempt, which would succeed, is never made. *)
Example dbConnect_failure_is_kept :
  fst (repeatedly 3 Db.dbConnect waking_database Db.fresh)
    = repeat (Throw "MongoServerSelectionError") 3
  /\ Db.connects (snd (repeatedly 3 Db.dbConnect waking_database Db.fresh))
     = ["mongodb://db.example/lanelist"].
Proof. split; reflexivity. Qed.

Section SearchPage.
Import LaneListMockup.

Lemma wire_db_body carriers :
  wire (VObj [("carriers", VArr carriers); ("usedAi", VBool false)])
  = VObj [("carriers", VArr (map wire carriers)); ("usedAi", VBool false)].
Proof. reflexivity. Qed.

Lemma wire_ai_body suggestions note :
  wire (VObj [("carriers", VArr []); ("suggestions", VArr suggestions);
              ("usedAi", VBool true); ("notice", VStr note)])
  = VObj [("carriers", VArr []); ("suggestions", VArr (map wire suggestions));
          ("usedAi", VBool true); ("notice", VStr note)].
Proof. reflexivity. Qed.

Lemma db_carriers_not_nullish carriers :
  Forall (fun c => get "source" c = Some (VStr "db")) carriers ->
  existsb nullish (map wire carriers) = false.
Proof.
  induction 1 as [|c cs Hc _ IH]; [reflexivity|]. cbn [map existsb].
  rewrite IH, orb_false_r. destruct c; try discriminate. reflexivity.
Qed.

Lemma present_db f carriers :
  carriers <> [] ->
  Forall (fun c => get "source" c = Some (VStr "db")) carriers ->
  present f (wire (VObj [("carriers", VArr carriers); ("usedAi", VBool false)]))
  = Ok {| results := if showVerifiedOnly f then verified_only (map wire carriers)
                     else map wire carriers;
          usedAi := false; notice := VStr "" |}.
Proof.
  intros Hne Hsrc. rewrite wire_db_body. unfold present.
  change (nullish (VObj _)) with false. cbv iota.
  assert (get "carriers"
            (VObj [("carriers", VArr (map wire carriers)); ("usedAi", VBool false)])
          = Some (VArr (map wire carriers))) as -> by reflexivity.
  cbn [array_or_empty]. rewrite length_map.
  destruct carriers as [|c cs]; [contradiction|].
  cbn [List.length Nat.ltb Nat.leb Nat.eqb negb]. rewrite andb_true_r.
  destruct (showVerifiedOnly f); [|reflexivity].
  rewrite (db_carriers_not_nullish _ Hsrc). reflexivity.
Qed.

Lemma present_ai f suggestions note :
  note <> "" ->
  present f (wire (VObj [("carriers", VArr []); ("suggestions", VArr suggestions);
                         ("usedAi", VBool true); ("notice", VStr note)]))
  = Ok {| results := map wire suggestions; usedAi := true; notice := VStr note |}.
Proof.
  intros Hne. rewrite wire_ai_body. unfold present.
  change (nullish (VObj _)) with false. cbv iota.
  assert (get "carriers"
            (VObj [("carriers", VArr []); ("suggestions", VArr (map wire suggestions));
                   ("usedAi", VBool true); ("notice", VStr note)])
          = Some (VArr [])) as -> by reflexivity.
  assert (get "suggestions"
            (VObj [("carriers", VArr []); ("suggestions", VArr (map wire suggestions));
                   ("usedAi", VBool true); ("notice", VStr note)])
          = Some (VArr (map wire suggestions))) as -> by reflexivity.
  assert (get "notice"
            (VObj [("carriers", VArr []); ("suggestions", VArr (map wire suggestions));
                   ("usedAi", VBool true); ("notice", VStr note)])
          = Some (VStr note)) as -> by reflexivity.
  cbn [array_or_empty List.length Nat.ltb Nat.leb Nat.eqb negb].
  rewrite andb_false_r. cbn [truthy_val].
  destruct (String.eqb_spec note ""); [contradiction | reflexivity].
Qed.

(** What the route reads off the page's body. *)
Lemma page_body f :
  Search.destructure (request_body f)
  = {| Search.b_type :=
         if String.eqb (selectedType f) "" then None
         else Some (VStr (selectedType f));
       Search.b_origin :=
         if String.eqb (origin f) "" then None else Some (VStr (origin f));
       Search.b_destination :=
         if String.eqb (destination f) "" then None
         else Some (VStr (destination f));
       Search.b_verifiedOnly :=
         if showVerifiedOnly f then Some (VBool true) else None |}.
Proof.
  unfold request_body, or_undefined.
  destruct (String.eqb (selectedType f) ""), (String.eqb (origin f) ""),
    (String.eqb (destination f) ""), (showVerifiedOnly f); reflexivity.
Qed.

Lemma page_body_object f : nullish (request_body f) = false.
Proof. reflexivity. Qed.

(** The page sends strings: with a client that can be built the engine is
    ready for its filters. *)
Lemma page_sets_up f env :
  Search.OpenAI_new env = Ok tt ->
  sets_up (Search.params_of (Search.destructure (request_body f))) env.
Proof.
  intros Hnew. rewrite page_body.
  apply sets_up_textual; [exact Hnew | ..]; cbn;
    match goal with |- context [String.eqb ?x ""] => destruct (String.eqb x "") end;
    reflexivity.
Qed.

(** A run for filters that are not cached, not aborted, when the route
    answers. *)
Lemma run_served f headers env st (page : State) r st' :
  cache page !! key f = None ->
  Search.POST (page_request f headers) env st = (Ok r, st') ->
  run f {| fetch := served_by env st headers; aborted := false |} page
  = match present f (wire (body r)) with
    | Ok presented =>
        {| shown := presented; loading := false; error := "";
           cache := <[key f := presented]> (cache page) |}
    | Throw _ =>
        failed {| shown := shown page; loading := true; error := "";
                  cache := cache page |}
    end.
Proof.
  intros Hmiss Hrun.
  unfold run. cbn [cache]. rewrite Hmiss. cbn [aborted fetch].
  unfold served_by. fold (page_request f headers). rewrite Hrun.
  destruct (present f (wire (body r))); reflexivity.
Qed.

(** The same when the route rejects. *)
Lemma run_rejected f headers env st (page : State) err st' :
  cache page !! key f = None ->
  Search.POST (page_request f headers) env st = (Throw err, st') ->
  run f {| fetch := served_by env st headers; aborted := false |} page
  = {| shown := shown page; loading := false;
       error := "Could not load results. Please try again.";
       cache := cache page |}.
Proof.
  intros Hmiss Hrun.
  unfold run. cbn [cache]. rewrite Hmiss. cbn [aborted fetch].
  unfold served_by. fold (page_request f headers). rewrite Hrun. reflexivity.
Qed.

(** What the page makes of an answer of the route. *)
Lemma present_search_result f r :
  search_result r -> exists presented, present f (wire (body r)) = Ok presented.
Proof.
  intros [_ [(carriers & -> & Hne & Hsrc)
            | (suggestions & note & -> & _ & Hnote)]].
  - eexists. apply (present_db f carriers Hne Hsrc).
  - eexists. apply present_ai.
    cbn in Hnote. destruct Hnote as [<-|[<-|[<-|[]]]]; discriminate.
Qed.

(** With a client that can be built: the route answers and the page
    shows, and caches, what [present] makes of the answer. *)
Lemma run_presents f headers env st (page : State) :
  cache page !! key f = None ->
  Search.OpenAI_new env = Ok tt ->
  exists r st' presented,
    Search.POST (page_request f headers) env st = (Ok r, st')
    /\ search_result r
    /\ present f (wire (body r)) = Ok presented
    /\ run f {| fetch := served_by env st headers; aborted := false |} page
       = {| shown := presented; loading := false; error := "";
            cache := <[key f := presented]> (cache page) |}.
Proof.
  intros Hmiss Hnew.
  destruct (search_POST_resolves (page_request f headers) (request_body f) env st
              eq_refl (page_body_object f) (page_sets_up f env Hnew))
    as (r & st' & Hrun & Hresult).
  destruct (present_search_result f r Hresult) as [presented Hpresent].
  exists r, st', presented. split; [exact Hrun|]. split; [exact Hresult|].
  split; [exact Hpresent|].
  rewrite (run_served f headers env st page r st' Hmiss Hrun), Hpresent.
  reflexivity.
Qed.

(** X18.  The page against the route: for filters not yet cached, a run
    that is not aborted ends not loading.  When the engine's client can be
    built the route answers, the run ends with no error and caches what it
    shows; the page's [usedAi] is the response's [usedAi]; with carriers in
    the response the page shows them (the verified ones when the box is
    ticked) and no notice; otherwise it shows every suggestion, box ticked
    or not, at least one, under the route's own notice.  When the route
    rejects, the page shows the could-not-load error over what it showed
    before, and caches nothing. *)
Theorem page_shows_search_result f headers env st (page : State) :
  cache page !! key f = None ->
  let e := {| fetch := served_by env st headers; aborted := false |} in
  let after := run f e page in
  loading after = false
  /\ (Search.OpenAI_new env = Ok tt ->
      exists r st',
        Search.POST (page_request f headers) env st = (Ok r, st')
        /\ error after = ""
        /\ cache after !! key f = Some (shown after)
        /\ get "usedAi" (body r) = Some (VBool (usedAi (shown after)))
        /\ ((exists carriers,
               get "carriers" (body r) = Some (VArr carriers)
               /\ carriers <> []
               /\ usedAi (shown after) = false
               /\ notice (shown after) = VStr ""
               /\ results (shown after)
                  = if showVerifiedOnly f then verified_only (map wire carriers)
                    else map wire carriers)
            \/ (exists suggestions note,
                  get "carriers" (body r) = Some (VArr [])
                  /\ get "suggestions" (body r) = Some (VArr suggestions)
                  /\ get "notice" (body r) = Some (VStr note)
                  /\ usedAi (shown after) = true
                  /\ notice (shown after) = VStr note
                  /\ results (shown after) = map wire suggestions
                  /\ results (shown after) <> [])))
  /\ (forall err st',
        Search.POST (page_request f headers) env st = (Throw err, st') ->
        error after = "Could not load results. Please try again."
        /\ shown after = shown page
        /\ cache after = cache page).
Proof.
  intros Hmiss e after. split; [|split].
  - subst after e.
    destruct (Search.POST (page_request f headers) env st) as [[r|err] st'] eqn:Hrun.
    + rewrite (run_served f headers env st page r st' Hmiss Hrun).
      destruct (present f (wire (body r))); reflexivity.
    + rewrite (run_rejected f headers env st page err st' Hmiss Hrun). reflexivity.
  - intros Hnew.
    destruct (run_presents f headers env st page Hmiss Hnew)
      as (r & st' & presented & Hrun & [_ Hshape] & Hpresent & Hafter).
    exists r, st'. split; [exact Hrun|].
    subst after e. rewrite Hafter. cbn [error loading cache shown].
    rewrite lookup_insert_eq.
    split; [reflexivity|]. split; [reflexivity|].
    destruct Hshape as [(carriers & Hbody & Hne & Hsrc)
                       | (suggestions & note & Hbody & Hlen & Hnote)];
      rewrite Hbody in Hpresent |- *.
    + rewrite (present_db f carriers Hne Hsrc) in Hpresent.
      injection Hpresent as <-. cbn [usedAi notice results].
      split; [reflexivity|]. left. exists carriers. repeat split. exact Hne.
    + rewrite (present_ai f suggestions note) in Hpresent.
      2:{ cbn in Hnote. destruct Hnote as [<-|[<-|[<-|[]]]]; discriminate. }
      injection Hpresent as <-. cbn [usedAi notice results].
      split; [reflexivity|]. right. exists suggestions, note. repeat split.
      destruct suggestions; [cbn in Hlen; lia | discriminate].
  - intros err st' Hrun. subst after e.
    rewrite (run_rejected f headers env st page err st' Hmiss Hrun).
    repeat split.
Qed.

Lemma page_shows_search_result_example :
  let after :=
    run verified_trucks
      {| fetch := served_by offline_env initial_state (fun _ => None);
         aborted := false |} first_render in
  loading after = false
  /\ error after = ""
  /\ usedAi (shown after) = true
  /\ cache after !! key verified_trucks = Some (shown after).
Proof.
  destruct (page_shows_search_result verified_trucks (fun _ => None) offline_env
              initial_state first_render eq_refl)
    as (Hloading & Hanswer & _).
  destruct (Hanswer eq_refl) as (r & st' & _ & Herror & Hcache & _).
  split; [exact Hloading|]. split; [exact Herror|].
  split; [vm_compute; reflexivity | exact Hcache].
Defined.

Lemma wire_carrier_verified c :
  get "verified" (wire (Search.carrier_out c)) = Some (VBool (Search.verified c)).
Proof.
  destruct c as [id name verified rating types lanes [d|] contact [l|]]; reflexivity.
Qed.

Lemma verified_only_all l :
  Forall (fun c => get "verified" c = Some (VBool true)) l -> verified_only l = l.
Proof.
  intros H. apply filter_all. apply forallb_forall. intros c Hc.
  rewrite List.Forall_forall in H. rewrite (H c Hc). reflexivity.
Qed.

(** X19.  With a database that connects and answers the query: when the
    collection has matches the page shows exactly the route's carriers,
    the client-side verified-only filter removing nothing, the query
    having kept verified carriers only; when it has none and the engine's
    client can be built, the page shows the engine's suggestions, at least
    one. *)
Theorem page_verified_only_redundant f headers env st collection (page : State) :
  cache page !! key f = None ->
  Search.dbConnect env = Ok tt ->
  Search.Carrier_find env = Search.collection_find collection ->
  let e := {| fetch := served_by env st headers; aborted := false |} in
  let after := run f e page in
  let found :=
    firstn 50
      (List.filter
         (Search.matches
            (Search.build_query (Search.destructure (request_body f))))
         collection) in
  (found <> [] ->
   usedAi (shown after) = false
   /\ results (shown after) = map wire (map Search.carrier_out found)
   /\ results (shown after) <> []
   /\ (showVerifiedOnly f = true ->
       Forall (fun c => Search.verified c = true) found))
  /\ (found = [] ->
      Search.OpenAI_new env = Ok tt ->
      usedAi (shown after) = true /\ results (shown after) <> []).
Proof.
  intros Hmiss Hconn Hfind e after found.
  assert (Hverified : showVerifiedOnly f = true ->
                      Forall (fun c => Search.verified c = true) found).
  { intros Hv. apply List.Forall_forall. intros c Hc.
    apply In_firstn in Hc. apply List.filter_In in Hc as [_ Hc].
    apply matches_build_query in Hc as (_ & _ & _ & Hc). apply Hc.
    rewrite page_body. cbn. rewrite Hv. reflexivity. }
  assert (Hquery : Search.Carrier_find env
                     (Search.build_query (Search.destructure (request_body f))) 50
                   = Ok found).
  { rewrite Hfind. reflexivity. }
  pose proof (search_POST_after_query (page_request f headers) (request_body f)
                env st found eq_refl (page_body_object f) Hconn Hquery) as HPOST.
  cbv zeta in HPOST.
  split.
  - intros Hne. destruct found as [|c cs] eqn:Hf; [contradiction|].
    cbn [List.length Nat.ltb Nat.leb] in HPOST.
    subst after e. rewrite (run_served f headers env st page _ _ Hmiss HPOST).
    assert (Hbody : body (Search.db_response (c :: cs)
                            (Search.clock env (Search.clock_reads st))
                            (Search.clock env (S (Search.clock_reads st))))
                    = VObj [("carriers", VArr (map Search.carrier_out (c :: cs)));
                            ("usedAi", VBool false)]) by reflexivity.
    rewrite Hbody, present_db.
    2:{ discriminate. }
    2:{ apply List.Forall_map, List.Forall_forall. intros d _. reflexivity. }
    assert (Hall : (if showVerifiedOnly f
                    then verified_only (map wire (map Search.carrier_out (c :: cs)))
                    else map wire (map Search.carrier_out (c :: cs)))
                   = map wire (map Search.carrier_out (c :: cs))).
    { destruct (showVerifiedOnly f) eqn:Hv; [|reflexivity].
      apply verified_only_all. rewrite !List.Forall_map.
      eapply List.Forall_impl; [|apply Hverified; reflexivity].
      intros d Hd. cbv beta. rewrite wire_carrier_verified, Hd. reflexivity. }
    rewrite Hall. cbn [shown results usedAi].
    split; [reflexivity|]. split; [reflexivity|]. split; [discriminate|].
    exact Hverified.
  - intros Hnone Hnew. rewrite Hnone in HPOST.
    cbn [List.length Nat.ltb Nat.leb] in HPOST.
    destruct (aiFallback_returns _ (Search.client_ip (page_request f headers)) env
                (Search.tick (Search.tick st)) (page_sets_up f env Hnew))
      as (suggestions & st3 & Hengine).
    rewrite Hengine in HPOST.
    subst after e. rewrite (run_served f headers env st page _ _ Hmiss HPOST).
    assert (Hbody : body (Search.ai_response suggestions Search.notice_none_found
                            (Search.clock env (Search.clock_reads st))
                            (Search.clock env (Search.clock_reads st3)))
                    = VObj [("carriers", VArr []);
                            ("suggestions", VArr suggestions);
                            ("usedAi", VBool true);
                            ("notice", VStr Search.notice_none_found)])
      by reflexivity.
    rewrite Hbody, present_ai by discriminate.
    cbn [shown results usedAi]. split; [reflexivity|].
    pose proof (aiFallback_nonempty _ _ _ _ _ _ Hengine) as Hne.
    destruct suggestions; [contradiction | discriminate].
Qed.

Lemma page_verified_only_redundant_example :
  let after :=
    run verified_trucks
      {| fetch := served_by (example_env empty_provider [alpine; iberia])
                    initial_state (fun _ => None);
         aborted := false |} first_render in
  results (shown after) <> [] /\ usedAi (shown after) = false.
Proof.
  destruct (page_verified_only_redundant verified_trucks (fun _ => None)
              (example_env empty_provider [alpine; iberia]) initial_state
              [alpine; iberia] first_render eq_refl eq_refl eq_refl)
    as [Hfound _].
  destruct Hfound as (Hai & _ & Hne & _); [vm_compute; discriminate|].
  split; [exact Hne | exact Hai].
Defined.

(** X20.  Once a run has left an entry for the filters in the cache, running
    again with the same filters changes nothing, whatever the network
    does: no request is made, the same results, flag and notice are
    shown. *)
Theorem run_again_from_cache f e e' (page : State) :
  let after := run f e page in
  cache after !! key f <> None ->
  run f e' after = after.
Proof.
  intros after. subst after. unfold run. cbn [cache].
  destruct (cache page !! key f) as [cached|] eqn:Hcache.
  - cbn [cache]. rewrite Hcache. reflexivity.
  - destruct (aborted e); [cbn [cache]; rewrite Hcache; contradiction|].
    destruct (fetch e (request_body f)) as [data|];
      [|cbn [failed cache]; rewrite Hcache; contradiction].
    destruct (present f data) as [filtered|err];
      [|cbn [failed cache]; rewrite Hcache; contradiction].
    cbn [cache]. rewrite lookup_insert_eq. reflexivity.
Qed.

Lemma run_again_from_cache_example :
  let online :=
    {| fetch := served_by offline_env initial_state (fun _ => None);
       aborted := false |} in
  let offline := {| fetch := fun _ => Rejected; aborted := false |} in
  run verified_trucks offline (run verified_trucks online first_render)
  = run verified_trucks online first_render.
Proof.
  apply (run_again_from_cache verified_trucks
           {| fetch := served_by offline_env initial_state (fun _ => None);
              aborted := false |}
           {| fetch := fun _ => Rejected; aborted := false |} first_render).
  vm_compute. discriminate.
Defined.

Lemma split_at_separator a : forall a' r r',
  occurs "|" a = false -> occurs "|" a' = false ->
  a ++ String "|" r = a' ++ String "|" r' -> a = a' /\ r = r'.
Proof.
  induction a as [|c a IH]; intros [|c' a'] r r' Ha Ha' E.
  - injection E as ->. auto.
  - rewrite append_cons in E. injection E as <- _.
    cbn in Ha'. discriminate.
  - rewrite append_cons in E. injection E as -> _.
    cbn in Ha. discriminate.
  - rewrite !append_cons in E. injection E as -> E.
    cbn [occurs] in Ha, Ha'.
    apply orb_false_elim in Ha as [_ Ha]. apply orb_false_elim in Ha' as [_ Ha'].
    destruct (IH a' r r' Ha Ha' E) as [-> ->]. auto.
Qed.

(** X25.  The cache key tells filters apart: two sets of filters whose
    fields do not contain the separator [|] (the page's selectors offer no
    such value) have the same key only if they are the same filters, so a
    cached entry is never shown for other filters. *)
Theorem key_injective f f' :
  separator_free f -> separator_free f' -> key f = key f' -> f = f'.
Proof.
  intros (H1 & H2 & H3) (H1' & H2' & H3'). unfold key.
  change ("|" ++ ?x) with (String "|" x).
  intros E.
  apply split_at_separator in E as [E1 E]; [|assumption..].
  apply split_at_separator in E as [E2 E]; [|assumption..].
  apply split_at_separator in E as [E3 E]; [|assumption..].
  destruct f as [t o d v], f' as [t' o' d' v']. cbn in *. subst.
  destruct v, v'; try reflexivity; discriminate.
Qed.

Lemma key_injective_example :
  key verified_trucks = "truck|||true"
  /\ verified_trucks
     = {| selectedType := "truck"; origin := ""; destination := "";
          showVerifiedOnly := true |}.
Proof.
  split; [reflexivity|].
  apply (key_injective verified_trucks
           {| selectedType := "truck"; origin := ""; destination := "";
              showVerifiedOnly := true |});
    [repeat split | repeat split | reflexivity].
Defined.

End SearchPage.

Section ContactPage.
Import ContactForm.

(** The form sends strings and a boolean: each has a string form. *)
Lemma form_outcome_strings f env :
  exists v, form_outcome (Contact.destructure (request_body f)) env = Ok v.
Proof.
  unfold form_outcome, Contact.form_of, Contact.field, Contact.String_.
  unfold bind, ask, await, ret. cbn.
  destruct (String.eqb (company f) ""), (String.eqb (phone f) "");
    eexists; reflexivity.
Qed.

(** X21.  The contact form against the route: every submission is
    answered, and the form stops loading; on 200 it shows the thank-you
    message and is reset; on any other status it keeps its fields and
    shows exactly the route's [error] message (the form's own fallback
    text is never needed). *)
Theorem contact_form_shows_server_answer headers env st to_string (page : State) :
  let e := {| fetch := contact_served_by env st headers; String_of := to_string |} in
  let after := onSubmit e page in
  exists r st',
    Contact.POST (contact_request (request_body (form page)) headers) env st
      = (Ok r, st')
    /\ loading after = false
    /\ (status r = 200 ->
        success after = Some "Thanks! Your message has been sent."
        /\ error after = None /\ form after = blank)
    /\ (status r <> 200 ->
        success after = None /\ form after = form page
        /\ exists msg, body r = VObj [("error", VStr msg)]
                       /\ error after = Some msg).
Proof.
  intros e after. subst after. unfold onSubmit. cbn [form fetch e].
  unfold contact_served_by.
  rewrite (contact_POST_paths (contact_request (request_body (form page)) headers)).
  cbv zeta. cbn [contact_request Contact.req_json].
  assert (Hshown : forall msg, msg <> "" ->
            error_message e (wire (Contact.error_body msg)) = msg).
  { intros msg Hne. cbn. destruct (String.eqb_spec msg ""); [contradiction | reflexivity]. }
  assert (Hrefused : forall code msg st1,
            In code [400; 429; 500] -> msg <> "" ->
            let r := answer code (Contact.error_body msg) in
            let after :=
              if negb (res_ok (status r)) then
                {| form := form page; loading := false; success := None;
                   error := Some (error_message e (wire (body r))) |}
              else
                {| form := blank; loading := false;
                   success := Some "Thanks! Your message has been sent.";
                   error := None |} in
            exists r' (st' : Contact.State),
              (Ok r, st1) = (Ok r', st')
              /\ loading after = false
              /\ (status r' = 200 ->
                  success after = Some "Thanks! Your message has been sent."
                  /\ error after = None /\ form after = blank)
              /\ (status r' <> 200 ->
                  success after = None /\ form after = form page
                  /\ exists msg', body r' = VObj [("error", VStr msg')]
                                  /\ error after = Some msg')).
  { intros code msg st1 Hcode Hne r after'. exists r, st1. subst r after'.
    cbn [answer status body].
    assert (Hok : res_ok code = false)
      by (cbn in Hcode; destruct Hcode as [<-|[<-|[<-|[]]]]; reflexivity).
    rewrite Hok. cbn [negb loading success form error].
    split; [reflexivity|]. split; [reflexivity|]. split.
    - intros ->. discriminate.
    - intros _. split; [reflexivity|]. split; [reflexivity|].
      exists msg. split; [reflexivity|]. rewrite (Hshown msg Hne). reflexivity. }
  assert (Haccepted : forall st1 : Contact.State,
            let r := answer 200 Contact.ok_body in
            let after :=
              if negb (res_ok (status r)) then
                {| form := form page; loading := false; success := None;
                   error := Some (error_message e (wire (body r))) |}
              else
                {| form := blank; loading := false;
                   success := Some "Thanks! Your message has been sent.";
                   error := None |} in
            exists r' (st' : Contact.State),
              (Ok r, st1) = (Ok r', st')
              /\ loading after = false
              /\ (status r' = 200 ->
                  success after = Some "Thanks! Your message has been sent."
                  /\ error after = None /\ form after = blank)
              /\ (status r' <> 200 ->
                  success after = None /\ form after = form page
                  /\ exists msg', body r' = VObj [("error", VStr msg')]
                                  /\ error after = Some msg')).
  { intros st1 r after'. exists r, st1. subst r after'. cbn.
    repeat split; intros; contradiction. }
  destruct (negb (fst (limited _ env st))).
  { apply (Hrefused 429); [cbn; tauto | discriminate]. }
  destruct (honeypot_set _); [apply Haccepted|].
  destruct (form_outcome_strings (form page) env) as [v ->].
  destruct (invalid_form _).
  { apply (Hrefused 400); [cbn; tauto | discriminate]. }
  destruct (not_configured env).
  { apply (Hrefused 500); [cbn; tauto | discriminate]. }
  destruct (Contact.sendMail env _) as [?|err]; [apply Haccepted|].
  apply (Hrefused 500); [cbn; tauto | discriminate].
Qed.

End ContactPage.
